(** * ROOTAI field grid: boundary polygon to numbered grid cells

    A shallow embedding of the grid code of [static/js/main.js] (desktop,
    1 m cells) and [static/js/mobile.js] (mobile, 5 m cells):
    [getBoundsFromCoordinates], [generateFieldGrid], [isPolygonWithinField],
    [isPointInPolygon], [getPolygonCenter], [updateGridStylesFromMapping]
    and [ingestGridDataFromRTDB]; and of what stands next to it in the two
    scripts: [highlightSelectedCell] and [calculatePolygonArea] of
    [main.js], [getMetricValue] and [updateNavigation] of [mobile.js].

    JavaScript Numbers are IEEE 754 binary64 values, so coordinates and all
    arithmetic on them are Rocq's primitive [float]s, whose operations are
    the same correctly rounded binary64 operations.  So are the cell
    numbers: [i * lngCells + j + 1] is the integer it reads as in a grid of
    fewer than 2^53 cells ([cellNumber_binary64]) and rounds beyond.  A loop
    counter holds a non-negative integer that binary64 represents exactly,
    and is modelled in [nat]; the loops cannot count beyond 2^53
    ([loopCount]). *)

From Stdlib Require Import ZArith List Bool Lia String Ascii Floats.
Import ListNotations.

Set Warnings "-inexact-float,-register-all".

(** ** JavaScript numbers and [Math] *)

Module JS.

Local Open Scope float_scope.

(** [Math.PI], the binary64 value nearest to pi. *)
Definition Math_PI : float := 0x1.921fb54442d18p+1.

(** [isNaN] on a Number. *)
Definition isNaN (x : float) : bool := is_nan x.

(** [Math.min(a, b)]: NaN if either is NaN; -0 is smaller than +0. *)
Definition Math_min (a b : float) : float :=
  if is_nan a || is_nan b then nan
  else if a <? b then a
  else if b <? a then b
  else if get_sign a then a else b.

(** [Math.max(a, b)]: NaN if either is NaN; +0 is larger than -0. *)
Definition Math_max (a b : float) : float :=
  if is_nan a || is_nan b then nan
  else if a <? b then b
  else if b <? a then a
  else if get_sign a then b else a.

(** The integer [ceil] of a finite Number, read off its binary expansion
    [(-1)^s * m * 2^e]; 0 for NaN and the infinities. *)
Definition ceilZ (x : float) : Z :=
  match Prim2SF x with
  | S754_finite s m e =>
      let n := cond_Zopp s (Z.pos m) in
      if (0 <=? e)%Z then (n * 2 ^ e)%Z else (- ((- n) / 2 ^ (- e)))%Z
  | _ => 0%Z
  end.

(** The Number of an integer below 2^63 (exact below 2^53). *)
Definition floatOfZ (z : Z) : float :=
  if (0 <=? z)%Z then of_uint63 (Uint63.of_Z z)
  else - of_uint63 (Uint63.of_Z (- z)).

Definition floatOfNat (n : nat) : float := floatOfZ (Z.of_nat n).

(** [Math.ceil]: NaN, the infinities, the zeros and every Number with a
    non-negative binary exponent are returned unchanged; a negative Number
    above -1 gives -0. *)
Definition Math_ceil (x : float) : float :=
  match Prim2SF x with
  | S754_finite s _ e =>
      if (0 <=? e)%Z then x
      else if (ceilZ x =? 0)%Z then (if s then neg_zero else zero)
      else floatOfZ (ceilZ x)
  | _ => x
  end.

(** [Math.cos]: ECMAScript fixes the result for NaN, the infinities and the
    zeros, and leaves every other argument to an implementation-approximated
    value, which is the parameter [cos_approx]. *)
Definition Math_cos (cos_approx : float -> float) (x : float) : float :=
  if is_nan x || is_infinity x then nan
  else if is_zero x then 1
  else cos_approx x.

(** How often the body of [for (let i = 0; i < n; i++)] runs.  The counter
    is a Number: it is exact up to 2^53 and then stops growing
    (2^53 + 1 rounds back to 2^53), so a bound above 2^53 never ends the
    loop ([None]). *)
Definition loopCount (n : float) : option nat :=
  if 0 <? n then
    if n <=? 9007199254740992 then Some (Z.to_nat (ceilZ n)) else None
  else Some 0%nat.

End JS.

(** What a call can do: return a value, throw, or never return. *)
Inductive Outcome (A : Type) : Type :=
  | Returns (a : A)
  | Throws
  | Diverges.
Arguments Returns {A} a.
Arguments Throws {A}.
Arguments Diverges {A}.

(** ** Geometry shared by the two scripts *)

(** A two-element array of Numbers; GeoJSON positions are [[lng, lat]]. *)
Definition Point : Type := (float * float)%type.

(** A GeoJSON linear ring, [geojson.coordinates[0]]. *)
Definition Ring : Type := list Point.

(** A GeoJSON Polygon geometry. *)
Record GeoJSON : Type := { coordinates : list Ring }.

Record LatLng : Type := { lat : float; lng : float }.

(** The object returned by [getBoundsFromCoordinates]. *)
Record Bounds : Type := { b_min : LatLng; b_max : LatLng; b_center : LatLng }.

(** The fields of a Leaflet path's options that the grid code sets. *)
Record PathOptions : Type := {
  color : string;
  weight : float;
  opacity : float;
  fillColor : string;
  fillOpacity : float
}.

(** A grid cell polygon: the loop indices that produced it, its two
    opposite corners, the number shown in its popup and its style. *)
Record GridCell : Type := {
  row : nat;
  col : nat;
  cellLat1 : float;
  cellLng1 : float;
  cellLat2 : float;
  cellLng2 : float;
  number : float;
  layer : PathOptions
}.

Section Geometry.

Local Open Scope float_scope.
Import JS.

(** One step of the [coords.forEach] of [getBoundsFromCoordinates] on the
    running [(minLat, maxLat, minLng, maxLng)]. *)
Definition boundsStep (acc : float * float * float * float) (coord : Point)
  : float * float * float * float :=
  let '(minLat, maxLat, minLng, maxLng) := acc in
  let '(lng, lat) := coord in
  (Math_min minLat lat, Math_max maxLat lat, Math_min minLng lng, Math_max maxLng lng).

(** [getBoundsFromCoordinates(coords)]; reading [coords[0][1]] of an empty
    array throws a TypeError ([None]). *)
Definition getBoundsFromCoordinates (coords : Ring) : option Bounds :=
  match coords with
  | [] => None
  | (lng0, lat0) :: _ =>
      let '(minLat, maxLat, minLng, maxLng) :=
        fold_left boundsStep coords (lat0, lat0, lng0, lng0) in
      Some {| b_min := {| lat := minLat; lng := minLng |};
              b_max := {| lat := maxLat; lng := maxLng |};
              b_center := {| lat := (minLat + maxLat) / 2;
                             lng := (minLng + maxLng) / 2 |} |}
  end.

(** The crossing test of the ray-casting loop for the edge between
    [(xi, yi)] and [(xj, yj)]:
    [((yi > y) !== (yj > y)) && (x < (xj - xi) * (y - yi) / (yj - yi) + xi)]. *)
Definition crosses (x y xi yi xj yj : float) : bool :=
  xorb (y <? yi) (y <? yj) && (x <? (xj - xi) * (y - yi) / (yj - yi) + xi).

(** The same test where a division whose divisor is zero is an error
    ([None]); [&&] evaluates its right operand only when the left one
    holds. *)
Definition crossesChecked (x y xi yi xj yj : float) : option bool :=
  if xorb (y <? yi) (y <? yj) then
    if is_zero (yj - yi) then None
    else Some (x <? (xj - xi) * (y - yi) / (yj - yi) + xi)
  else Some false.

End Geometry.

Section RayCasting.

Local Open Scope float_scope.

(** How a script reads a vertex: [main.js] destructures [[x, y]],
    [mobile.js] reads [x = p[1]] and [y = p[0]]. *)
Variables X Y : Point -> float.

(** The loop [for (let i = 0, j = polygon.length - 1; i < polygon.length;
    j = i++)] from index [i] on: [pj] is [polygon[j]], [rest] the vertices
    from [polygon[i]]. *)
Fixpoint rayLoop (x y : float) (pj : Point) (rest : list Point) (inside : bool) : bool :=
  match rest with
  | [] => inside
  | pi :: rest' =>
      rayLoop x y pi rest'
        (if crosses x y (X pi) (Y pi) (X pj) (Y pj) then negb inside else inside)
  end.

(** [isPointInPolygon(point, polygon)]; on an empty array the loop body
    never runs. *)
Definition rayCast (point : Point) (polygon : list Point) : bool :=
  match polygon with
  | [] => false
  | p0 :: _ => rayLoop (X point) (Y point) (last polygon p0) polygon false
  end.

(** The loop with the checked crossing test. *)
Fixpoint rayLoopChecked (x y : float) (pj : Point) (rest : list Point) (inside : bool)
  : option bool :=
  match rest with
  | [] => Some inside
  | pi :: rest' =>
      match crossesChecked x y (X pi) (Y pi) (X pj) (Y pj) with
      | None => None
      | Some c => rayLoopChecked x y pi rest' (if c then negb inside else inside)
      end
  end.

Definition rayCastChecked (point : Point) (polygon : list Point) : option bool :=
  match polygon with
  | [] => Some false
  | p0 :: _ => rayLoopChecked (X point) (Y point) (last polygon p0) polygon false
  end.

End RayCasting.

Definition mapOutcome {A B : Type} (f : A -> B) (o : Outcome A) : Outcome B :=
  match o with
  | Returns a => Returns (f a)
  | Throws => Throws
  | Diverges => Diverges
  end.

(** ** The body of [generateFieldGrid] *)

Section GridLoop.

Local Open Scope float_scope.
Import JS.

(** The engine's cosine away from the arguments ECMAScript fixes. *)
Variable cos_approx : float -> float.

(** What differs between the two scripts: the constant [gridSizeMeters],
    the conversion to radians, the membership test on a cell's corners
    [cellLat1 cellLng1 cellLat2 cellLng2], and the options of the cell
    polygon. *)
Variable gridSizeMeters : float.
Variable radians : float -> float.
Variable cellInField : float -> float -> float -> float -> Ring -> bool.
Variable cellOptions : PathOptions.

Definition latDegreePerMeter : float := 1 / 111320.

Definition lngDegreePerMeter (bounds : Bounds) : float :=
  1 / (111320 * Math_cos cos_approx (radians (lat (b_center bounds)))).

Definition gridSizeLat : float := gridSizeMeters * latDegreePerMeter.

Definition gridSizeLng (bounds : Bounds) : float :=
  gridSizeMeters * lngDegreePerMeter bounds.

Definition latCells (bounds : Bounds) : float :=
  Math_ceil ((lat (b_max bounds) - lat (b_min bounds)) / gridSizeLat).

Definition lngCells (bounds : Bounds) : float :=
  Math_ceil ((lng (b_max bounds) - lng (b_min bounds)) / gridSizeLng bounds).

(** [i * lngCells + j + 1], where [lngCells] is the Number that
    [Math.ceil] returned. *)
Definition cellNumber (lngCells : float) (i j : nat) : float :=
  floatOfNat i * lngCells + floatOfNat j + 1.

(** The cell of one pass of the inner loop body, for the counters [i] and
    [j]. *)
Definition candidateCell (bounds : Bounds) (i j : nat) : GridCell :=
  {| row := i;
     col := j;
     cellLat1 := lat (b_min bounds) + floatOfNat i * gridSizeLat;
     cellLng1 := lng (b_min bounds) + floatOfNat j * gridSizeLng bounds;
     cellLat2 := lat (b_min bounds) + (floatOfNat i + 1) * gridSizeLat;
     cellLng2 := lng (b_min bounds) + (floatOfNat j + 1) * gridSizeLng bounds;
     number := cellNumber (lngCells bounds) i j;
     layer := cellOptions |}.

(** The cells the two nested loops visit, in the order they visit them. *)
Definition candidateCells (bounds : Bounds) (rows cols : nat) : list GridCell :=
  flat_map (fun i => map (candidateCell bounds i) (seq 0 cols)) (seq 0 rows).

(** The two loops: the inner bound matters only if the outer body runs. *)
Definition candidateGrid (bounds : Bounds) : Outcome (list GridCell) :=
  match loopCount (latCells bounds) with
  | None => Diverges
  | Some O => Returns []
  | Some rows =>
      match loopCount (lngCells bounds) with
      | None => Diverges
      | Some cols => Returns (candidateCells bounds rows cols)
      end
  end.

Definition included (coords : Ring) (c : GridCell) : bool :=
  cellInField (cellLat1 c) (cellLng1 c) (cellLat2 c) (cellLng2 c) coords.

(** The cells added to the layer group, for the ring [coords]. *)
Definition fieldGrid (coords : Ring) : Outcome (list GridCell) :=
  match getBoundsFromCoordinates coords with
  | None => Throws
  | Some bounds => mapOutcome (filter (included coords)) (candidateGrid bounds)
  end.

(** [generateFieldGrid(geojson)]: [null] ([None]) unless [geojson],
    [geojson.coordinates] and [geojson.coordinates[0]] are truthy. *)
Definition generateFieldGridWith (geojson : option GeoJSON)
  : Outcome (option (list GridCell)) :=
  match geojson with
  | None => Returns None
  | Some g =>
      match coordinates g with
      | [] => Returns None
      | coords :: _ => mapOutcome Some (fieldGrid coords)
      end
  end.

End GridLoop.

(** ** [static/js/main.js] *)

Module Main.

Import JS.
Local Open Scope float_scope.
Local Open Scope string_scope.

Definition gridSizeMeters : float := 1.

(** [Math.radians = function(degrees) { return degrees * Math.PI / 180; }] *)
Definition Math_radians (degrees : float) : float := degrees * Math_PI / 180.

(** [isPointInPolygon(point, polygon)] with [[x, y] = point]. *)
Definition isPointInPolygon : Point -> list Point -> bool := rayCast fst snd.

Definition isPointInPolygonChecked : Point -> list Point -> option bool :=
  rayCastChecked fst snd.

(** [getPolygonCenter]: the averages of [coord[0]] and of [coord[1]]. *)
Definition getPolygonCenter (coords : Ring) : Point :=
  let sumLat := fold_left (fun s coord => s + fst coord) coords 0 in
  let sumLng := fold_left (fun s coord => s + snd coord) coords 0 in
  (sumLat / floatOfNat (List.length coords), sumLng / floatOfNat (List.length coords)).

(** [isPolygonWithinField] on the two outer rings: true as soon as one
    vertex of the cell is in the field, else whether the field's centre is
    in the cell. *)
Definition isPolygonWithinField (cellCoords fieldCoords : Ring) : bool :=
  if existsb (fun coord => isPointInPolygon coord fieldCoords) cellCoords then true
  else isPointInPolygon (getPolygonCenter fieldCoords) cellCoords.

(** [cellCoordsLngLat], the ring of [cellGeoJSON]. *)
Definition cellCoordsLngLat (cellLat1 cellLng1 cellLat2 cellLng2 : float) : Ring :=
  [ (cellLng1, cellLat1); (cellLng1, cellLat2); (cellLng2, cellLat2);
    (cellLng2, cellLat1); (cellLng1, cellLat1) ].

Definition cellInField (cellLat1 cellLng1 cellLat2 cellLng2 : float) (coords : Ring) : bool :=
  isPolygonWithinField (cellCoordsLngLat cellLat1 cellLng1 cellLat2 cellLng2) coords.

Definition cellOptions : PathOptions :=
  {| color := "#94a3b8"; weight := 0.6; opacity := 0.7;
     fillColor := "#000000"; fillOpacity := 0.0 |}.

Definition generateFieldGrid (cos_approx : float -> float)
  : option GeoJSON -> Outcome (option (list GridCell)) :=
  generateFieldGridWith cos_approx gridSizeMeters Math_radians cellInField cellOptions.

(** *** Status overlay *)

(** The argument of a [layer.setStyle] call: the options it names. *)
Record StylePatch : Type := {
  set_color : option string;
  set_weight : option float;
  set_fillColor : option string;
  set_fillOpacity : option float
}.

(** Modelled from Leaflet, which the repository loads and does not contain:
    [setStyle] overwrites the options it is given and keeps the others. *)
Definition setStyle (style : StylePatch) (o : PathOptions) : PathOptions :=
  {| color := match set_color style with Some c => c | None => color o end;
     weight := match set_weight style with Some w => w | None => weight o end;
     opacity := opacity o;
     fillColor := match set_fillColor style with Some c => c | None => fillColor o end;
     fillOpacity := match set_fillOpacity style with Some f => f | None => fillOpacity o end |}.

(** An entry [{ status, value }] of the mapping. *)
Record MappingEntry : Type := { status : string; value : float }.

(** The object [mapping]: its properties, the latest assignment first.  A
    Number used as a property key is converted to a string, and two Numbers
    give the same string exactly when they are equal ([+0] and [-0] both
    give "0") or both NaN. *)
Definition Mapping : Type := list (float * MappingEntry).

Definition sameKey (a b : float) : bool :=
  (a =? b)%float || (is_nan a && is_nan b).

(** [mapping[key]]; [None] is [undefined]. *)
Fixpoint getProperty (mapping : Mapping) (key : float) : option MappingEntry :=
  match mapping with
  | [] => None
  | (k, m) :: rest => if sameKey k key then Some m else getProperty rest key
  end.

(** [mapping[key] = m] *)
Definition setProperty (mapping : Mapping) (key : float) (m : MappingEntry) : Mapping :=
  (key, m) :: mapping.

Definition defaultStyle : StylePatch :=
  {| set_color := Some "#94a3b8"; set_weight := None;
     set_fillColor := None; set_fillOpacity := Some 0.0 |}.

Definition criticalStyle : StylePatch :=
  {| set_color := Some "#b91c1c"; set_weight := Some 1.2;
     set_fillColor := Some "#ef4444"; set_fillOpacity := Some 0.35 |}.

Definition warnStyle : StylePatch :=
  {| set_color := Some "#b45309"; set_weight := Some 1.0;
     set_fillColor := Some "#f59e0b"; set_fillOpacity := Some 0.25 |}.

Definition okStyle : StylePatch :=
  {| set_color := Some "#15803d"; set_weight := Some 0.8;
     set_fillColor := Some "#22c55e"; set_fillOpacity := Some 0.15 |}.

(** The style the [forEach] callback of [updateGridStylesFromMapping]
    applies for [m = mapping[number]]. *)
Definition styleOf (m : option MappingEntry) : StylePatch :=
  match m with
  | None => defaultStyle
  | Some m =>
      if (status m =? "critical")%string then criticalStyle
      else if (status m =? "warn")%string then warnStyle
      else okStyle
  end.

Definition restyle (style : StylePatch) (c : GridCell) : GridCell :=
  {| row := row c; col := col c;
     cellLat1 := cellLat1 c; cellLng1 := cellLng1 c;
     cellLat2 := cellLat2 c; cellLng2 := cellLng2 c;
     number := number c;
     layer := setStyle style (layer c) |}.

(** [updateGridStylesFromMapping(mapping)] on the global [gridCells]: the
    cells afterwards.  A falsy [mapping] ([None]) changes nothing. *)
Definition updateGridStylesFromMapping (mapping : option Mapping)
  (gridCells : list GridCell) : list GridCell :=
  match mapping with
  | None => gridCells
  | Some mapping =>
      map (fun c => restyle (styleOf (getProperty mapping (number c))) c) gridCells
  end.

(** The values a telemetry snapshot holds. *)
Inductive JsValue : Type :=
  | JsUndefined
  | JsNull
  | JsBoolean (b : bool)
  | JsNumber (n : float)
  | JsString (s : string)
  | JsObject (props : list (string * JsValue)).

(** [snapshot]: [cells] is [None] when [snapshot.cells] is missing or
    falsy, else the properties of that object in [Object.keys] order. *)
Record Snapshot : Type := { cells : option (list (string * JsValue)) }.

Definition isDecimalDigit (c : ascii) : bool :=
  let n := nat_of_ascii c in (48 <=? n)%nat && (n <=? 57)%nat.

(** The value of a string of decimal digits. *)
Fixpoint digitsValue (s : string) (acc : Z) : option Z :=
  match s with
  | EmptyString => Some acc
  | String c rest =>
      if isDecimalDigit c
      then digitsValue rest (10 * acc + Z.of_nat (nat_of_ascii c - 48))%Z
      else None
  end.

(** An ASCII letter that occurs in no numeric literal: not a hexadecimal
    digit, not the [x], [o], [b] of a radix prefix, and not in "Infinity". *)
Definition foreignLetter (c : ascii) : bool :=
  let n := nat_of_ascii c in
  (((65 <=? n)%nat && (n <=? 90)%nat) || ((97 <=? n)%nat && (n <=? 122)%nat))
  && negb (existsb (Ascii.eqb c) (list_ascii_of_string "abcdefABCDEFxXoOInity")).

(** [Number(s)] for a string: the empty string is 0, a string with a
    foreign letter is NaN, a string of decimal digits below 2^53 is that
    integer; every other string is left to [parse_rest]. *)
Definition StringToNumber (parse_rest : string -> float) (s : string) : float :=
  if (s =? "")%string then 0
  else if existsb foreignLetter (list_ascii_of_string s) then nan
  else match digitsValue s 0 with
       | Some z => if (z <? 9007199254740992)%Z then floatOfZ z else parse_rest s
       | None => parse_rest s
       end.

(** [Number(v)]; an object here is a plain one, whose primitive value is
    the string "[object Object]". *)
Definition Number (parse_rest : string -> float) (v : JsValue) : float :=
  match v with
  | JsUndefined => nan
  | JsNull => 0
  | JsBoolean b => if b then 1 else 0
  | JsNumber n => n
  | JsString s => StringToNumber parse_rest s
  | JsObject _ => nan
  end.

Fixpoint lookupProperty (props : list (string * JsValue)) (name : string) : JsValue :=
  match props with
  | [] => JsUndefined
  | (k, v) :: rest => if (k =? name)%string then v else lookupProperty rest name
  end.

(** [(snapshot.cells[key] || {}).moisture]: only an object has the
    property. *)
Definition moistureOf (cell : JsValue) : JsValue :=
  match cell with
  | JsObject props => lookupProperty props "moisture"
  | _ => JsUndefined
  end.

(** The [status] computed for one key. *)
Definition statusOf (moisture : float) : string :=
  if negb (isNaN moisture) then
    if (moisture <? 30)%float then "critical"
    else if (moisture <? 40)%float then "warn"
    else "ok"
  else "ok".

(** The [forEach] over [Object.keys(snapshot.cells)], building [mapping]. *)
Definition ingestStep (parse_rest : string -> float) (mapping : Mapping)
  (entry : string * JsValue) : Mapping :=
  let '(key, cell) := entry in
  let moisture := Number parse_rest (moistureOf cell) in
  setProperty mapping (StringToNumber parse_rest key)
    {| status := statusOf moisture; value := moisture |}.

Definition buildMapping (parse_rest : string -> float)
  (entries : list (string * JsValue)) : Mapping :=
  fold_left (ingestStep parse_rest) entries [].

(** [ingestGridDataFromRTDB(snapshot)] on the global [gridCells]: the cells
    afterwards.  Nothing in the [try] block can throw. *)
Definition ingestGridDataFromRTDB (parse_rest : string -> float)
  (snapshot : option Snapshot) (gridCells : list GridCell) : list GridCell :=
  match snapshot with
  | None => gridCells
  | Some snapshot =>
      match cells snapshot with
      | None => gridCells
      | Some entries =>
          updateGridStylesFromMapping (Some (buildMapping parse_rest entries)) gridCells
      end
  end.

(** *** Selection highlight *)

(** [{ weight: w }] *)
Definition weightStyle (w : float) : StylePatch :=
  {| set_color := None; set_weight := Some w;
     set_fillColor := None; set_fillOpacity := None |}.

(** [layer.setStyle(style)] where [layer] is the polygon of the registered
    cell at position [k] of [gridCells]; a polygon that is not registered
    (one of an earlier grid) leaves the registered cells as they are. *)
Fixpoint setStyleAt (k : nat) (style : StylePatch) (gridCells : list GridCell)
  : list GridCell :=
  match gridCells, k with
  | [], _ => []
  | c :: rest, O => restyle style c :: rest
  | c :: rest, S k' => c :: setStyleAt k' style rest
  end.

(** [highlightSelectedCell(layer)] on the global [gridCells], for the
    polygon at position [k]: every registered polygon gets
    [{ weight: 0.6 }], then [layer] gets [{ weight: 2 }].  Nothing in the
    [try] block throws. *)
Definition highlightSelectedCell (k : nat) (gridCells : list GridCell) : list GridCell :=
  setStyleAt k (weightStyle 2) (map (restyle (weightStyle 0.6)) gridCells).

(** *** Area of the field *)

(** One pass of the loop of [calculatePolygonArea], for the index [i]:
    [j = (i + 1) % (coords.length - 1)], then
    [area += coords[i][0] * coords[j][1]] and
    [area -= coords[j][0] * coords[i][1]].  Both indices are below
    [coords.length - 1], so both reads are in range. *)
Definition areaStep (coords : Ring) (area : float) (i : nat) : float :=
  let j := ((i + 1) mod (List.length coords - 1))%nat in
  let ci := nth i coords (nan, nan) in
  let cj := nth j coords (nan, nan) in
  area + fst ci * snd cj - fst cj * snd ci.

(** [calculatePolygonArea(geojson)]: 0 unless [geojson],
    [geojson.coordinates] and [geojson.coordinates[0]] are truthy; the loop
    runs for [i] from 0 below [coords.length - 1], and not at all on an
    empty ring. *)
Definition calculatePolygonArea (geojson : option GeoJSON) : float :=
  match geojson with
  | None => 0
  | Some g =>
      match coordinates g with
      | [] => 0
      | coords :: _ =>
          let area := fold_left (areaStep coords) (seq 0 (List.length coords - 1)) 0 in
          abs area / 2 * 111320 * 111320
      end
  end.

End Main.

(** ** [static/js/mobile.js] *)

Module Mobile.

Import JS.
Local Open Scope float_scope.
Local Open Scope string_scope.

Definition gridSizeMeters : float := 5.

(** [Math.PI / 180 * bounds.center.lat] *)
Definition radians (degrees : float) : float := Math_PI / 180 * degrees.

(** [isPointInPolygon(point, polygon)] with [x = point[1]], [y = point[0]]:
    its arrays are [[lat, lng]]. *)
Definition isPointInPolygon : Point -> list Point -> bool := rayCast snd fst.

Definition isPointInPolygonChecked : Point -> list Point -> option bool :=
  rayCastChecked snd fst.

(** Modelled from Leaflet, which the repository loads and does not contain:
    [L.polygon(corners).getBounds().getCenter()] is the midpoint of the
    componentwise minimum and maximum of the corners. *)
Definition cellCenter (cellLat1 cellLng1 cellLat2 cellLng2 : float) : LatLng :=
  {| lat := (Math_min cellLat1 cellLat2 + Math_max cellLat1 cellLat2) / 2;
     lng := (Math_min cellLng1 cellLng2 + Math_max cellLng1 cellLng2) / 2 |}.

(** [isPointInPolygon([cellCenter.lat, cellCenter.lng],
    coords.map(c => [c[1], c[0]]))] *)
Definition cellInField (cellLat1 cellLng1 cellLat2 cellLng2 : float) (coords : Ring) : bool :=
  let c := cellCenter cellLat1 cellLng1 cellLat2 cellLng2 in
  isPointInPolygon (lat c, lng c) (map (fun c => (snd c, fst c)) coords).

Definition cellOptions : PathOptions :=
  {| color := "#6366f1"; weight := 1; opacity := 0.8;
     fillColor := "#6366f1"; fillOpacity := 0.1 |}.

Definition generateFieldGrid (cos_approx : float -> float)
  : option GeoJSON -> Outcome (option (list GridCell)) :=
  generateFieldGridWith cos_approx gridSizeMeters radians cellInField cellOptions.

(** *** Metric paths *)

(** [s.split(sep)] for a separator of one character: the pieces between
    the occurrences of [sep]; a string without [sep] is one piece, and so
    is the empty string. *)
Fixpoint split (sep : ascii) (s : string) : list string :=
  match s with
  | EmptyString => [EmptyString]
  | String c rest =>
      if Ascii.eqb c sep then EmptyString :: split sep rest
      else match split sep rest with
           | [] => [String c EmptyString]
           | piece :: pieces => String c piece :: pieces
           end
  end.

Section MetricValue.

(** The values of the engine: [undefined], the test [v === undefined], the
    truthiness of a value, and the property read [acc[key]] on a truthy
    value. *)
Variable Value : Type.
Variable undefined : Value.
Variable isUndefined : Value -> bool.
Variable ToBoolean : Value -> bool.
Variable Get : Value -> string -> Value.

(** The callback of the [reduce]:
    [(acc && acc[key] !== undefined ? acc[key] : undefined)]. *)
Definition metricStep (acc : Value) (key : string) : Value :=
  if ToBoolean acc && negb (isUndefined (Get acc key)) then Get acc key else undefined.

(** [getMetricValue(obj, path)]:
    [path.split('.').reduce(callback, obj)]. *)
Definition getMetricValue (obj : Value) (path : string) : Value :=
  fold_left metricStep (split "." path) obj.

End MetricValue.

Arguments metricStep {Value} undefined isUndefined ToBoolean Get acc key.
Arguments getMetricValue {Value} undefined isUndefined ToBoolean Get obj path.

(** The values of a reading, as [JSON.parse] builds them. *)
Definition isUndefined (v : Main.JsValue) : bool :=
  match v with Main.JsUndefined => true | _ => false end.

Definition ToBoolean (v : Main.JsValue) : bool :=
  match v with
  | Main.JsUndefined | Main.JsNull => false
  | Main.JsBoolean b => b
  | Main.JsNumber n => negb (is_zero n || is_nan n)
  | Main.JsString s => negb (s =? "")%string
  | Main.JsObject _ => true
  end.

Definition hasOwnProperty (props : list (string * Main.JsValue)) (key : string) : bool :=
  existsb (fun p => (fst p =? key)%string) props.

(** [v[key]] on a truthy value.  A property that an object has itself is
    read from the object.  Every other read -- of a name the object does
    not have itself, or of a property of a string, a Number or a boolean --
    is answered by the engine's built-in objects, which the repository does
    not contain: the parameter [builtin]. *)
Definition property (builtin : Main.JsValue -> string -> Main.JsValue)
  (v : Main.JsValue) (key : string) : Main.JsValue :=
  match v with
  | Main.JsObject props =>
      if hasOwnProperty props key then Main.lookupProperty props key else builtin v key
  | _ => builtin v key
  end.

(** *** Navigation *)

(** [navMap[activeScreen]] for the screens that [navMap] lists.  For every
    other name [navItems[navIndex]] is [undefined], also when [navMap]
    inherits a property of that name. *)
Definition navIndex (activeScreen : string) : option nat :=
  if (activeScreen =? "home")%string then Some 0%nat
  else if (activeScreen =? "crop-health")%string then Some 1%nat
  else if (activeScreen =? "profile")%string then Some 2%nat
  else None.

(** [navItems[i].classList.add('active')], if there is an item [i]. *)
Fixpoint activate (i : nat) (navItems : list bool) : list bool :=
  match navItems, i with
  | [], _ => []
  | _ :: rest, O => true :: rest
  | item :: rest, S i' => item :: activate i' rest
  end.

(** [updateNavigation(activeScreen)] on the elements of class [nav-item],
    in document order, each taken as whether its class list holds
    [active]. *)
Definition updateNavigation (activeScreen : string) (navItems : list bool) : list bool :=
  let cleared := map (fun _ => false) navItems in
  match navIndex activeScreen with
  | Some i => activate i cleared
  | None => cleared
  end.

End Mobile.

(** ** The two scripts side by side *)

Inductive Script : Type := MainJs | MobileJs.

Definition gridSizeMetersOf (s : Script) : float :=
  match s with MainJs => Main.gridSizeMeters | MobileJs => Mobile.gridSizeMeters end.

Definition radiansOf (s : Script) : float -> float :=
  match s with MainJs => Main.Math_radians | MobileJs => Mobile.radians end.

Definition cellInFieldOf (s : Script) : float -> float -> float -> float -> Ring -> bool :=
  match s with MainJs => Main.cellInField | MobileJs => Mobile.cellInField end.

Definition cellOptionsOf (s : Script) : PathOptions :=
  match s with MainJs => Main.cellOptions | MobileJs => Mobile.cellOptions end.

Definition generateFieldGrid (s : Script) (cos_approx : float -> float)
  : option GeoJSON -> Outcome (option (list GridCell)) :=
  match s with
  | MainJs => Main.generateFieldGrid cos_approx
  | MobileJs => Mobile.generateFieldGrid cos_approx
  end.

(** The Polygon geometry whose outer ring is [ring]. *)
Definition polygonOf (ring : Ring) : option GeoJSON :=
  Some {| coordinates := [ring] |}.

(** The numbers of passes of the outer and of the inner loop. *)
Definition rowCount (s : Script) (bounds : Bounds) : option nat :=
  JS.loopCount (latCells (gridSizeMetersOf s) bounds).

Definition columnCount (s : Script) (cos_approx : float -> float) (bounds : Bounds)
  : option nat :=
  JS.loopCount (lngCells cos_approx (gridSizeMetersOf s) (radiansOf s) bounds).

(** The candidate cells of a script: every cell its loops visit. *)
Definition candidatesOf (s : Script) (cos_approx : float -> float) (bounds : Bounds)
  : Outcome (list GridCell) :=
  candidateGrid cos_approx (gridSizeMetersOf s) (radiansOf s) (cellOptionsOf s) bounds.

(** The geometric centre of a cell as a GeoJSON position [[lng, lat]]. *)
Definition centerOf (c : GridCell) : Point :=
  let m := Mobile.cellCenter (cellLat1 c) (cellLng1 c) (cellLat2 c) (cellLng2 c) in
  (lng m, lat m).

(** The ring of a cell, as [main.js] builds [cellGeoJSON]. *)
Definition ringOf (c : GridCell) : Ring :=
  Main.cellCoordsLngLat (cellLat1 c) (cellLng1 c) (cellLat2 c) (cellLng2 c).

(** The cells of a returned grid ([[]] for any other outcome). *)
Definition cellsOf (o : Outcome (option (list GridCell))) : list GridCell :=
  match o with Returns (Some cells) => cells | _ => [] end.

(** The membership test each script applies to a candidate cell, on
    GeoJSON positions: [mobile.js] tests the centre of the cell against the
    ring; [main.js] tests the vertices of the cell against the ring and
    then the average of the ring's vertices against the cell. *)
Definition membershipOf (s : Script) (ring : Ring) (c : GridCell) : bool :=
  match s with
  | MobileJs => Main.isPointInPolygon (centerOf c) ring
  | MainJs =>
      existsb (fun vertex => Main.isPointInPolygon vertex ring) (ringOf c)
      || Main.isPointInPolygon (Main.getPolygonCenter ring) (ringOf c)
  end.

(** The moisture Number of the telemetry entry that decides the cell
    numbered [n]: of the last entry whose key, as a Number, names the same
    property as [n]. *)
Definition lastReading (parse_rest : string -> float)
  (entries : list (string * Main.JsValue)) (n : float) : option float :=
  option_map (fun e => Main.Number parse_rest (Main.moistureOf (snd e)))
    (find (fun e => Main.sameKey (Main.StringToNumber parse_rest (fst e)) n)
       (rev entries)).

(** The style of a cell by its reading: none, not a number, or a number
    against the thresholds 30 and 40. *)
Definition overlayStyle (reading : option float) : Main.StylePatch :=
  match reading with
  | None => Main.defaultStyle
  | Some moisture =>
      if JS.isNaN moisture then Main.okStyle
      else if (moisture <? 30)%float then Main.criticalStyle
      else if (moisture <? 40)%float then Main.warnStyle
      else Main.okStyle
  end.

(** [Number.isFinite]: a zero or a finite non-zero Number. *)
Definition finite (x : float) : bool :=
  match Prim2SF x with
  | S754_zero _ | S754_finite _ _ _ => true
  | _ => false
  end.

(** The edges the ray-casting loop visits: [(polygon[i], polygon[j])] with
    [j] the index before [i], cyclically. *)
Fixpoint edgesFrom (pj : Point) (rest : list Point) : list (Point * Point) :=
  match rest with
  | [] => []
  | pi :: rest' => (pi, pj) :: edgesFrom pi rest'
  end.

Definition edgesOf (polygon : list Point) : list (Point * Point) :=
  match polygon with
  | [] => []
  | p0 :: _ => edgesFrom (last polygon p0) polygon
  end.

(** The crossing test of the edge [e = (polygon[i], polygon[j])], for the
    point [(x, y)]. *)
Definition crossesEdge (X Y : Point -> float) (x y : float) (e : Point * Point) : bool :=
  crosses x y (X (fst e)) (Y (fst e)) (X (snd e)) (Y (snd e)).

(** Whether an odd number of the edges satisfy [c]. *)
Definition parity (c : Point * Point -> bool) (es : list (Point * Point)) : bool :=
  fold_right (fun e b => xorb (c e) b) false es.

(** An edge seen from its other end. *)
Definition swapEdge (e : Point * Point) : Point * Point := (snd e, fst e).

(** [isPointInPolygon] of a script, and how the script reads the two
    coordinates of a vertex. *)
Definition isPointInPolygonOf (s : Script) : Point -> list Point -> bool :=
  match s with MainJs => Main.isPointInPolygon | MobileJs => Mobile.isPointInPolygon end.

Definition isPointInPolygonCheckedOf (s : Script) : Point -> list Point -> option bool :=
  match s with
  | MainJs => Main.isPointInPolygonChecked
  | MobileJs => Mobile.isPointInPolygonChecked
  end.

Definition xOf (s : Script) : Point -> float :=
  match s with MainJs => fst | MobileJs => snd end.

Definition yOf (s : Script) : Point -> float :=
  match s with MainJs => snd | MobileJs => fst end.

(** The guard of the crossing test for the edge [e]: the edge straddles
    the latitude [y]. *)
Definition straddles (Y : Point -> float) (y : float) (e : Point * Point) : bool :=
  xorb (y <? Y (fst e))%float (y <? Y (snd e))%float.

(** The abscissa test of the crossing test for the edge
    [e = (polygon[i], polygon[j])]:
    [x < (xj - xi) * (y - yi) / (yj - yi) + xi]. *)
Definition leftOf (X Y : Point -> float) (x y : float) (e : Point * Point) : bool :=
  (x <? (X (snd e) - X (fst e)) * (y - Y (fst e)) / (Y (snd e) - Y (fst e))
        + X (fst e))%float.

(** An upright edge, seen from the latitude [y]: its ends have the same
    finite [x], and the differences [y - yi] and [y - yj] are finite. *)
Definition upright (X Y : Point -> float) (y : float) (e : Point * Point) : Prop :=
  X (fst e) = X (snd e) /\ finite (X (fst e)) = true /\
  finite (y - Y (fst e))%float = true /\ finite (y - Y (snd e))%float = true.

(** The crossing test of an edge gives the same answer from either end. *)
Definition symmetricEdge (X Y : Point -> float) (point : Point) (e : Point * Point) : Prop :=
  crosses (X point) (Y point) (X (fst e)) (Y (fst e)) (X (snd e)) (Y (snd e))
  = crosses (X point) (Y point) (X (snd e)) (Y (snd e)) (X (fst e)) (Y (fst e)).

(** ** Example inputs *)

Module Examples.

Local Open Scope float_scope.

(** A triangle about 3.3 m wide and 4.5 m high, centred on the equator. *)
Definition triangle : Ring :=
  [ (0, -0.00002); (0.00003, 0.00002); (0, 0.00002); (0, -0.00002) ].

(** The same bounding box, another polygon: the mirrored triangle. *)
Definition mirrored : Ring :=
  [ (0.00003, -0.00002); (0.00003, 0.00002); (0, 0.00002); (0.00003, -0.00002) ].

(** A ring whose four points are equal. *)
Definition dot : Ring := [ (0, 0); (0, 0); (0, 0); (0, 0) ].

(** A triangle with a slanted edge through (1/3, 1). *)
Definition slanted : Ring := [ (0, 0); (1, 3); (-1, 3); (0, 0) ].

(** The unit square. *)
Definition square : Ring := [ (0, 0); (1, 0); (1, 1); (0, 1); (0, 0) ].

(** The plot of the end-to-end scenario: a rectangle 100 m by 50 m in
    degrees at latitude 18.52, where the cosine is 0.9482128372135447, with
    its south-west corner at longitude 73.85 and latitude 18.52. *)
Definition plot : Ring :=
  [ (73.85, 18.52);
    (73.85 + 100 / (111320 * 0.9482128372135447), 18.52);
    (73.85 + 100 / (111320 * 0.9482128372135447), 18.52 + 50 / 111320);
    (73.85, 18.52 + 50 / 111320);
    (73.85, 18.52) ].

Definition plotBounds : Bounds :=
  {| b_min := {| lat := 18.52; lng := 73.85 |};
     b_max := {| lat := 18.52 + 50 / 111320;
                 lng := 73.85 + 100 / (111320 * 0.9482128372135447) |};
     b_center := {| lat := (18.52 + (18.52 + 50 / 111320)) / 2;
                    lng := (73.85 + (73.85 + 100 / (111320 * 0.9482128372135447))) / 2 |} |}.

(** In the scenario the engine's cosine is called at one argument, the
    reference latitude of the plot, 18.5202 degrees in radians.  This
    stand-in for it gives the correctly rounded cosine of that latitude. *)
Definition plotCos : float -> float := fun _ => 0x1.e57bfd6453cb6p-1.



(** One registered cell, numbered 1, as [generateFieldGrid] styles it. *)
Definition cell1 : GridCell :=
  {| row := 0; col := 0;
     cellLat1 := 0; cellLng1 := 0; cellLat2 := 1; cellLng2 := 1;
     number := 1; layer := Main.cellOptions |}.

(** The triangles are centred on the equator, where ECMAScript fixes
    [Math.cos] to 1: the engine's own cosine is never consulted, and this
    stand-in for it is never called. *)
Definition unusedCos : float -> float := fun _ => nan.

(** The bounding box of [triangle] and of [mirrored]. *)
Definition triangleBounds : Bounds :=
  {| b_min := {| lat := -0.00002; lng := 0 |};
     b_max := {| lat := 0.00002; lng := 0.00003 |};
     b_center := {| lat := 0; lng := 0.000015 |} |}.

(** The bounding box of [dot]. *)
Definition dotBounds : Bounds :=
  {| b_min := {| lat := 0; lng := 0 |};
     b_max := {| lat := 0; lng := 0 |};
     b_center := {| lat := 0; lng := 0 |} |}.

(** The cell of row 2, column 1 of the desktop grid over that box, which
    has 5 rows and 4 columns. *)
Definition triangleCell : GridCell :=
  candidateCell unusedCos Main.gridSizeMeters Main.Math_radians Main.cellOptions
    triangleBounds 2 1.

Definition snapshotOf (moisture : Main.JsValue) : option Main.Snapshot :=
  Some {| Main.cells :=
            Some [ ("1"%string, Main.JsObject [ ("moisture"%string, moisture) ]) ] |}.

(** The cell north of it, of row 3, column 1. *)
Definition triangleCellAbove : GridCell :=
  candidateCell unusedCos Main.gridSizeMeters Main.Math_radians Main.cellOptions
    triangleBounds 3 1.

(** A ring with a vertex whose latitude is NaN. *)
Definition broken : Ring := [ (0, 0); (0, nan); (1, 1) ].

(** A reading with an air temperature, whose soil data is [null]. *)
Definition reading : Main.JsValue :=
  Main.JsObject
    [ ("environment"%string, Main.JsObject [ ("temperature"%string, Main.JsNumber 21) ]);
      ("soil"%string, Main.JsNull) ].

(** On the path [soil.moisture] of that reading only a property of the
    reading itself is read: the built-in objects are never consulted, and
    this stand-in for them is never called. *)
Definition unusedBuiltin : Main.JsValue -> string -> Main.JsValue :=
  fun _ _ => Main.JsUndefined.

(** A mapping with a critical reading for cell 1. *)
Definition dryMapping : Main.Mapping :=
  [ (1, {| Main.status := "critical"%string; Main.value := 20 |}) ].

(** A field about 22 m by 22 m, centred on the equator, and its bounding
    box. *)
Definition meadow : Ring :=
  [ (0, -0.0001); (0.0002, -0.0001); (0.0002, 0.0001); (0, 0.0001); (0, -0.0001) ].

Definition meadowBounds : Bounds :=
  {| b_min := {| lat := -0.0001; lng := 0 |};
     b_max := {| lat := 0.0001; lng := 0.0002 |};
     b_center := {| lat := 0; lng := 0.0001 |} |}.

(** The first cell of the mobile grid over that field, which has 5 rows
    and 5 columns of candidates. *)
Definition mobileCell : GridCell :=
  candidateCell unusedCos Mobile.gridSizeMeters Mobile.radians Mobile.cellOptions
    meadowBounds 0 0.

End Examples.

(** [p * 2^k] on positives, for [0 <= k]. *)
Definition shiftlPos (p : positive) (k : Z) : positive :=
  match k with Z.pos j => Pos.iter xO p j | _ => p end.

(** The binary64 form of a positive integer of at most 53 digits. *)
Definition canonPos (p : positive) : spec_float :=
  S754_finite false (shiftlPos p (53 - Z.pos (digits2_pos p))%Z) (Z.pos (digits2_pos p) - 53)%Z.

(** A Number that is a zero or NaN. *)
Definition zeroOrNaN (x : float) : Prop := x = zero \/ x = neg_zero \/ x = nan.

(** The place of a binary64 value in the order of the comparisons: its
    class (negative infinity, negative, zero, positive, positive infinity),
    then its exponent and its mantissa, and last the sign of a zero, which
    [<] ignores and [Math.min] and [Math.max] use.  NaN gets the class
    [nanClass]. *)
Definition FloatKey : Type := (Z * Z * Z * Z)%type.

Definition SFkey (nanClass : Z) (x : spec_float) : FloatKey :=
  match x with
  | S754_nan => (nanClass, 0, 0, 0)
  | S754_infinity true => (-2, 0, 0, 0)
  | S754_finite true m e => (-1, - e, - Z.pos m, 0)
  | S754_zero true => (0, 0, 0, 0)
  | S754_zero false => (0, 0, 0, 1)
  | S754_finite false m e => (1, e, Z.pos m, 0)
  | S754_infinity false => (2, 0, 0, 0)
  end%Z.

(** For [Math.min] NaN comes first, for [Math.max] last. *)
Definition minKey (x : float) : FloatKey := SFkey (-3) (Prim2SF x).
Definition maxKey (x : float) : FloatKey := SFkey 3 (Prim2SF x).

(** The lexicographic orders: strict on the first three components, and
    non-strict on all four. *)
Definition keylt3 (a b : FloatKey) : Prop :=
  let '(a1, a2, a3, _) := a in
  let '(b1, b2, b3, _) := b in
  (a1 < b1 \/ (a1 = b1 /\ (a2 < b2 \/ (a2 = b2 /\ a3 < b3))))%Z.

Definition keyle (a b : FloatKey) : Prop :=
  let '(a1, a2, a3, a4) := a in
  let '(b1, b2, b3, b4) := b in
  (a1 < b1 \/ (a1 = b1 /\ (a2 < b2 \/ (a2 = b2 /\ (a3 < b3 \/ (a3 = b3 /\ a4 <= b4))))))%Z.

(** The smallest and the largest of a list of Numbers, as the [forEach] of
    [getBoundsFromCoordinates] computes them from the first one on. *)
Definition leastOf (l : list float) : float := fold_left JS.Math_min l (hd nan l).
Definition greatestOf (l : list float) : float := fold_left JS.Math_max l (hd nan l).

(** A binary64 value whose sign bit is clear, or NaN. *)
Definition SFnonneg (x : spec_float) : Prop :=
  match x with
  | S754_nan => True
  | S754_zero s | S754_infinity s | S754_finite s _ _ => s = false
  end.

(** Every Number of the list is below the ones after it. *)
Fixpoint increasing (l : list float) : Prop :=
  match l with
  | [] => True
  | x :: rest => Forall (fun y => (x <? y)%float = true) rest /\ increasing rest
  end.

(** * Facts *)

(** ** Binary64 arithmetic *)

Section Binary64.

Local Open Scope Z_scope.

Local Abbreviation emin64 := (SpecFloat.emin prec emax).
Local Abbreviation fexp64 := (SpecFloat.fexp prec emax).

Lemma fexp64_ge_emin k : emin64 <= fexp64 k.
Proof. unfold SpecFloat.fexp. lia. Qed.

Lemma digits2_pos_bounds m :
  2 ^ (Z.pos (digits2_pos m) - 1) <= Z.pos m < 2 ^ Z.pos (digits2_pos m).
Proof.
  induction m as [m IH | m IH |]; cbn [digits2_pos].
  - rewrite Pos2Z.inj_succ.
    replace (Z.succ (Z.pos (digits2_pos m)) - 1) with (Z.succ (Z.pos (digits2_pos m) - 1)) by lia.
    rewrite !Z.pow_succ_r by lia. lia.
  - rewrite Pos2Z.inj_succ.
    replace (Z.succ (Z.pos (digits2_pos m)) - 1) with (Z.succ (Z.pos (digits2_pos m) - 1)) by lia.
    rewrite !Z.pow_succ_r by lia. lia.
  - cbn. lia.
Qed.

Lemma digits2_pos_shift m d :
  digits2_pos (Pos.iter xO m d) = (digits2_pos m + d)%positive.
Proof.
  induction d as [| d IH] using Pos.peano_ind.
  - cbn. lia.
  - rewrite Pos.iter_succ. cbn [digits2_pos]. rewrite IH. lia.
Qed.

Lemma shr_1_m mrs : 0 <= shr_m mrs -> shr_m (shr_1 mrs) = shr_m mrs / 2.
Proof.
  destruct mrs as [m r s]. cbn [shr_m]. intros Hm.
  destruct m as [| p | p]; [reflexivity | | lia].
  destruct p as [p | p |]; cbn [shr_1 shr_m].
  - rewrite Pos2Z.inj_xI. apply Z.div_unique with (r := 1); lia.
  - rewrite Pos2Z.inj_xO. apply Z.div_unique with (r := 0); lia.
  - reflexivity.
Qed.

Lemma pow2_xO p : 2 ^ Z.pos p~0 = 2 ^ Z.pos p * 2 ^ Z.pos p.
Proof. rewrite Pos2Z.inj_xO, <- Z.pow_add_r by lia. f_equal. lia. Qed.

Lemma pow2_xI p : 2 ^ Z.pos p~1 = 2 * (2 ^ Z.pos p * 2 ^ Z.pos p).
Proof.
  rewrite Pos2Z.inj_xI, <- Z.pow_add_r, <- Z.pow_succ_r by lia. f_equal. lia.
Qed.

Lemma iter_shr_1_m p : forall mrs,
  0 <= shr_m mrs -> shr_m (iter_pos shr_1 p mrs) = shr_m mrs / 2 ^ Z.pos p.
Proof.
  induction p as [p IH | p IH |]; intros mrs Hm; cbn [iter_pos].
  - assert (H1 : 0 <= shr_m (shr_1 mrs)).
    { rewrite shr_1_m by assumption. apply Z.div_pos; lia. }
    assert (H2 : 0 <= shr_m (iter_pos shr_1 p (shr_1 mrs))).
    { rewrite IH by assumption. apply Z.div_pos; lia. }
    rewrite IH, IH, shr_1_m by assumption.
    rewrite !Z.div_div by lia. now rewrite pow2_xI.
  - assert (H2 : 0 <= shr_m (iter_pos shr_1 p mrs)).
    { rewrite IH by assumption. apply Z.div_pos; lia. }
    rewrite IH, IH by assumption.
    rewrite Z.div_div by lia. now rewrite pow2_xO.
  - rewrite shr_1_m by assumption. reflexivity.
Qed.

Lemma shr_fexp_pos m e l :
  0 < m -> emin64 <= e ->
  0 < shr_m (fst (shr_fexp prec emax m e l)) /\ emin64 <= snd (shr_fexp prec emax m e l).
Proof.
  intros Hm He. unfold shr_fexp, shr.
  assert (Hrec : shr_m (shr_record_of_loc m l) = m).
  { destruct l as [| []]; reflexivity. }
  destruct m as [| p | p]; try lia. cbn [Zdigits2].
  pose proof (digits2_pos_bounds p) as [Hlo _].
  set (d := Z.pos (digits2_pos p)) in *.
  destruct (fexp64 (d + e) - e) as [| n | n] eqn:Hn; cbn [fst snd].
  - rewrite Hrec. lia.
  - rewrite iter_shr_1_m by (rewrite Hrec; lia). rewrite Hrec. split.
    + apply Z.div_str_pos. split; [apply Z.pow_pos_nonneg; lia |].
      apply Z.le_trans with (2 ^ (d - 1)); [| assumption].
      apply Z.pow_le_mono_r; [lia |].
      unfold SpecFloat.fexp, SpecFloat.emin, prec, emax in *. subst d. lia.
    + lia.
  - rewrite Hrec. lia.
Qed.

Lemma round_nearest_even_ge m l : m <= round_nearest_even m l.
Proof. destruct l as [| []]; cbn; try lia. destruct (Z.even m); lia. Qed.

Lemma binary_round_aux_nonzero sx m e l :
  0 < m -> emin64 <= e ->
  forall s, binary_round_aux prec emax sx m e l <> S754_zero s.
Proof.
  intros Hm He s. unfold binary_round_aux.
  pose proof (shr_fexp_pos m e l Hm He) as [H1 H1e].
  destruct (shr_fexp prec emax m e l) as [mrs' e']. cbn [fst snd] in *.
  pose proof (round_nearest_even_ge (shr_m mrs') (loc_of_shr_record mrs')) as Hr.
  set (m2 := round_nearest_even (shr_m mrs') (loc_of_shr_record mrs')) in *.
  assert (Hm2 : 0 < m2) by lia.
  pose proof (shr_fexp_pos m2 e' loc_Exact Hm2 H1e) as [H2 _].
  destruct (shr_fexp prec emax m2 e' loc_Exact) as [mrs'' e'']. cbn [fst snd] in *.
  destruct (shr_m mrs'') as [| q | q]; try lia.
  destruct (e'' <=? emax - prec); discriminate.
Qed.

Lemma binary_round_nonzero sx mx ex :
  emin64 <= ex -> forall s, binary_round prec emax sx mx ex <> S754_zero s.
Proof.
  intros He s. unfold binary_round.
  destruct (shl_align mx ex (fexp64 (Z.pos (digits2_pos mx) + ex))) as [mz ez] eqn:Hal.
  apply binary_round_aux_nonzero; [lia |].
  unfold shl_align in Hal.
  destruct (fexp64 (Z.pos (digits2_pos mx) + ex) - ex);
    injection Hal as _ <-; first [assumption | apply fexp64_ge_emin].
Qed.

Lemma binary_normalize_nonzero m e sz :
  m <> 0 -> emin64 <= e -> forall s, binary_normalize prec emax m e sz <> S754_zero s.
Proof.
  intros Hm He s. destruct m; [contradiction | |]; cbn [binary_normalize];
    apply binary_round_nonzero; assumption.
Qed.


Lemma valid_binary_emin s m e :
  valid_binary (S754_finite s m e) = true -> emin64 <= e.
Proof.
  cbn [SpecFloat.valid_binary]. unfold bounded, canonical_mantissa.
  intros H. apply andb_prop in H as [H _]. apply Z.eqb_eq in H.
  rewrite <- H. apply fexp64_ge_emin.
Qed.

Lemma canonical_shift_eq ma ea mb eb d :
  valid_binary (S754_finite false ma ea) = true ->
  valid_binary (S754_finite false mb eb) = true ->
  eb - ea = Z.pos d -> ma <> Pos.iter xO mb d.
Proof.
  cbn [SpecFloat.valid_binary]. unfold bounded, canonical_mantissa.
  intros Ha Hb Hd ->.
  apply andb_prop in Ha as [Ha _]. apply andb_prop in Hb as [Hb _].
  apply Z.eqb_eq in Ha, Hb. rewrite digits2_pos_shift in Ha.
  rewrite Pos2Z.inj_add in Ha.
  replace (Z.pos (digits2_pos mb) + Z.pos d + ea) with (Z.pos (digits2_pos mb) + eb) in Ha by lia.
  lia.
Qed.

Lemma cond_Zopp_sub_zero s1 p s2 q :
  cond_Zopp s1 (Z.pos p) - cond_Zopp s2 (Z.pos q) = 0 -> s1 = s2 /\ p = q.
Proof.
  unfold cond_Zopp. destruct s1, s2; intros H; split; try reflexivity; try lia;
    exfalso; lia.
Qed.

Lemma SFltb_zero_sign Y s1 s2 :
  SFltb Y (S754_zero s1) = SFltb Y (S754_zero s2).
Proof. destruct Y; reflexivity. Qed.

Lemma SF64sub_nonzero A B Y :
  valid_binary A = true -> valid_binary B = true ->
  SFltb Y A <> SFltb Y B ->
  forall s, SF64sub B A <> S754_zero s.
Proof.
  intros VA VB Hne s.
  destruct A as [sa | sa | | sa ma ea], B as [sb | sb | | sb mb eb];
    try (cbn; discriminate);
    try (exfalso; apply Hne; apply SFltb_zero_sign).
  - destruct sa, sb; cbn; discriminate.
  - pose proof (valid_binary_emin _ _ _ VA) as Ea.
    pose proof (valid_binary_emin _ _ _ VB) as Eb.
    unfold SF64sub, SFsub.
    set (ez := Z.min eb ea).
    set (zb := Z.pos (fst (shl_align mb eb ez))).
    set (za := Z.pos (fst (shl_align ma ea ez))).
    destruct (Z.eq_dec (cond_Zopp sb zb - cond_Zopp sa za) 0) as [Hz | Hz].
    + exfalso. apply cond_Zopp_sub_zero in Hz as [-> Hm].
      assert (VA' : valid_binary (S754_finite false ma ea) = true) by exact VA.
      assert (VB' : valid_binary (S754_finite false mb eb) = true) by exact VB.
      unfold shl_align, ez in Hm.
      destruct (Z.min eb ea - eb) as [| d1 | d1] eqn:H1;
      destruct (Z.min eb ea - ea) as [| d2 | d2] eqn:H2; cbn [fst] in Hm; try lia.
      * assert (ea = eb) by lia. subst. apply Hne. reflexivity.
      * exact (canonical_shift_eq mb eb ma ea d2 VB' VA' ltac:(lia) Hm).
      * exact (canonical_shift_eq ma ea mb eb d1 VA' VB' ltac:(lia) (eq_sym Hm)).
    + apply binary_normalize_nonzero; [assumption | unfold ez; lia].
Qed.

Lemma iter_xO_Z p j : Z.pos (Pos.iter xO p j) = Z.pos p * 2 ^ Z.pos j.
Proof.
  induction j as [| j IH] using Pos.peano_ind.
  - cbn. lia.
  - rewrite Pos.iter_succ, Pos2Z.inj_xO, IH, Pos2Z.inj_succ, Z.pow_succ_r by lia. ring.
Qed.

Lemma shiftlPos_Z p k : 0 <= k -> Z.pos (shiftlPos p k) = Z.pos p * 2 ^ k.
Proof.
  destruct k as [| j | j]; intros H; cbn [shiftlPos]; [cbn; lia | apply iter_xO_Z | lia].
Qed.

Lemma shiftlPos_digits p k :
  0 <= k -> Z.pos (digits2_pos (shiftlPos p k)) = Z.pos (digits2_pos p) + k.
Proof.
  destruct k as [| j | j]; intros H; cbn [shiftlPos]; [lia | | lia].
  rewrite digits2_pos_shift. lia.
Qed.

Lemma shl_align_shiftlPos m e e' :
  e' <= e -> shl_align m e e' = (shiftlPos m (e - e'), e').
Proof.
  intros H. unfold shl_align.
  destruct (e' - e) as [| d | d] eqn:E.
  - assert (e' = e) by lia. subst. now rewrite Z.sub_diag.
  - lia.
  - replace (e - e') with (Z.pos d) by lia. reflexivity.
Qed.

Lemma shl_align_id m e e' : e <= e' -> shl_align m e e' = (m, e).
Proof.
  intros H. unfold shl_align. destruct (e' - e) eqn:E; try reflexivity. lia.
Qed.

Lemma iter_pos_Pos_iter {A} (f : A -> A) p : forall x, iter_pos f p x = Pos.iter f x p.
Proof.
  induction p as [p IH | p IH |]; intros x; cbn [iter_pos Pos.iter].
  - now rewrite !IH, !Pos.iter_swap.
  - now rewrite !IH.
  - reflexivity.
Qed.

(** Shifting out [k] zero bits is exact. *)
Lemma shr_exact q k :
  iter_pos shr_1 k {| shr_m := Z.pos (Pos.iter xO q k); shr_r := false; shr_s := false |}
  = {| shr_m := Z.pos q; shr_r := false; shr_s := false |}.
Proof.
  rewrite iter_pos_Pos_iter.
  induction k as [| k IH] using Pos.peano_ind.
  - reflexivity.
  - rewrite Pos.iter_succ_r, Pos.iter_succ. cbn [shr_1 orb]. exact IH.
Qed.

Lemma shr_fexp_canonical m e :
  Z.pos (digits2_pos m) = 53 -> emin64 <= e ->
  shr_fexp prec emax (Z.pos m) e loc_Exact
  = ({| shr_m := Z.pos m; shr_r := false; shr_s := false |}, e).
Proof.
  intros Hd He. unfold shr_fexp, shr. cbn [Zdigits2 shr_record_of_loc]. rewrite Hd.
  replace (fexp64 (53 + e) - e) with 0; [reflexivity |].
  unfold SpecFloat.fexp, SpecFloat.emin, prec, emax in *. lia.
Qed.

(** A mantissa of 53 digits followed by [k] zero bits is shifted back, and
    nothing is rounded. *)
Lemma binary_round_aux_shifted s q k e :
  Z.pos (digits2_pos q) = 53 -> 0 <= k -> emin64 <= e -> e + k <= emax - prec ->
  binary_round_aux prec emax s (Z.pos (shiftlPos q k)) e loc_Exact
  = S754_finite s q (e + k).
Proof.
  intros Hd Hk He Hek. unfold binary_round_aux.
  assert (Hs : shr_fexp prec emax (Z.pos (shiftlPos q k)) e loc_Exact
               = ({| shr_m := Z.pos q; shr_r := false; shr_s := false |}, e + k)).
  { destruct k as [| j | j]; [| | lia]; cbn [shiftlPos].
    - rewrite Z.add_0_r. now apply shr_fexp_canonical.
    - unfold shr_fexp, shr. cbn [Zdigits2 shr_record_of_loc].
      rewrite digits2_pos_shift, Pos2Z.inj_add, Hd.
      replace (fexp64 (53 + Z.pos j + e) - e) with (Z.pos j)
        by (unfold SpecFloat.fexp, SpecFloat.emin, prec, emax in *; lia).
      now rewrite shr_exact. }
  rewrite Hs. cbn [shr_m loc_of_shr_record round_nearest_even].
  rewrite shr_fexp_canonical by (try assumption; lia).
  cbn [shr_m]. destruct (e + k <=? emax - prec) eqn:E; [reflexivity |].
  apply Z.leb_gt in E. lia.
Qed.

Lemma binary_normalize_canonPos p :
  Z.pos (digits2_pos p) <= 53 ->
  binary_normalize prec emax (Z.pos p) 0 false = canonPos p.
Proof.
  intros Hd. cbn [binary_normalize]. unfold binary_round.
  set (d := Z.pos (digits2_pos p)) in *.
  assert (Hf : fexp64 (d + 0) = d - 53).
  { unfold SpecFloat.fexp, SpecFloat.emin, prec, emax. subst d. lia. }
  rewrite Hf, shl_align_shiftlPos by lia.
  rewrite Z.sub_0_l.
  replace (d - 53) with ((d - 53) + 0) at 2 by lia.
  pose proof (binary_round_aux_shifted false (shiftlPos p (53 - d)) 0 (d - 53)) as H.
  cbn [shiftlPos] in H. rewrite Z.add_0_r in *.
  replace (- (d - 53)) with (53 - d) by lia.
  unfold canonPos. fold d. apply H.
  - rewrite shiftlPos_digits by lia. fold d. lia.
  - lia.
  - unfold SpecFloat.emin, prec, emax. subst d. lia.
  - unfold prec, emax. lia.
Qed.

Lemma digits_le_53 p : Z.pos p < 2 ^ 53 -> Z.pos (digits2_pos p) <= 53.
Proof.
  intros H. pose proof (digits2_pos_bounds p) as [Hlo _].
  destruct (Z_le_gt_dec (Z.pos (digits2_pos p)) 53) as [Hle | Hgt]; [assumption |].
  exfalso. assert (2 ^ 53 <= 2 ^ (Z.pos (digits2_pos p) - 1)) by (apply Z.pow_le_mono_r; lia).
  lia.
Qed.

Lemma digits_mul_ge a b :
  Z.pos (digits2_pos a) + Z.pos (digits2_pos b) - 1 <= Z.pos (digits2_pos (a * b)).
Proof.
  pose proof (digits2_pos_bounds a) as [Ha _].
  pose proof (digits2_pos_bounds b) as [Hb _].
  pose proof (digits2_pos_bounds (a * b)) as [_ Hab].
  rewrite Pos2Z.inj_mul in Hab.
  set (da := Z.pos (digits2_pos a)) in *. set (db := Z.pos (digits2_pos b)) in *.
  set (dab := Z.pos (digits2_pos (a * b))) in *.
  destruct (Z_le_gt_dec (da + db - 1) dab) as [Hle | Hgt]; [assumption | exfalso].
  assert (H1 : 2 ^ (da - 1) * 2 ^ (db - 1) <= Z.pos a * Z.pos b) by nia.
  rewrite <- Z.pow_add_r in H1 by (subst da db; lia).
  assert (H2 : 2 ^ dab <= 2 ^ (da - 1 + (db - 1))) by (apply Z.pow_le_mono_r; lia).
  lia.
Qed.

Lemma digits_add_ge a b :
  Z.pos (digits2_pos a) <= Z.pos (digits2_pos (a + b)).
Proof.
  pose proof (digits2_pos_bounds a) as [Ha _].
  pose proof (digits2_pos_bounds (a + b)) as [_ Hab].
  rewrite Pos2Z.inj_add in Hab.
  set (da := Z.pos (digits2_pos a)) in *.
  set (dab := Z.pos (digits2_pos (a + b))) in *.
  destruct (Z_le_gt_dec da dab) as [Hle | Hgt]; [assumption | exfalso].
  assert (H2 : 2 ^ dab <= 2 ^ (da - 1)) by (apply Z.pow_le_mono_r; lia).
  lia.
Qed.

Lemma pos_eq_of_Z (p q : positive) : Z.pos p = Z.pos q -> p = q.
Proof. now intros [= ->]. Qed.

(** The product of two integers of binary64, when it has at most 53
    digits, is computed exactly. *)
Lemma SF64mul_canonPos a b :
  Z.pos (digits2_pos (a * b)) <= 53 ->
  SF64mul (canonPos a) (canonPos b) = canonPos (a * b).
Proof.
  intros Hab.
  pose proof (digits_mul_ge a b) as Hge.
  pose proof (digits2_pos_bounds a) as _.
  set (da := Z.pos (digits2_pos a)) in *. set (db := Z.pos (digits2_pos b)) in *.
  set (dab := Z.pos (digits2_pos (a * b))) in *.
  assert (Hda : 1 <= da) by (subst da; lia).
  assert (Hdb : 1 <= db) by (subst db; lia).
  unfold SF64mul, canonPos, SFmul. fold da db dab. cbn [xorb].
  set (q := shiftlPos (a * b) (53 - dab)).
  set (k := 53 + dab - da - db).
  assert (Hm : (shiftlPos a (53 - da) * shiftlPos b (53 - db))%positive = shiftlPos q k).
  { apply pos_eq_of_Z. rewrite Pos2Z.inj_mul. unfold q.
    rewrite !shiftlPos_Z by lia. rewrite Pos2Z.inj_mul.
    replace (53 - da) with ((53 - dab) + k - (53 - db)) at 1 by lia.
    assert (E : 2 ^ (53 - da) * 2 ^ (53 - db) = 2 ^ (53 - dab) * 2 ^ k).
    { rewrite <- !Z.pow_add_r by lia. f_equal. lia. }
    replace (53 - dab + k - (53 - db)) with (53 - da) by lia. nia. }
  rewrite Hm.
  replace (dab - 53) with ((da - 53 + (db - 53)) + k) by lia.
  apply binary_round_aux_shifted.
  - unfold q. rewrite shiftlPos_digits by lia. fold dab. lia.
  - lia.
  - unfold SpecFloat.emin, prec, emax. lia.
  - unfold prec, emax. lia.
Qed.


(** The sum of two integers of binary64, when it has at most 53 digits, is
    computed exactly. *)
Lemma SF64add_canonPos a b :
  Z.pos (digits2_pos (a + b)) <= 53 ->
  SF64add (canonPos a) (canonPos b) = canonPos (a + b).
Proof.
  intros Hab.
  pose proof (digits_add_ge a b) as Hga.
  pose proof (digits_add_ge b a) as Hgb. rewrite (Pos.add_comm b a) in Hgb.
  set (da := Z.pos (digits2_pos a)) in *. set (db := Z.pos (digits2_pos b)) in *.
  set (dab := Z.pos (digits2_pos (a + b))) in *.
  assert (Hda : 1 <= da) by (subst da; lia).
  assert (Hdb : 1 <= db) by (subst db; lia).
  unfold SF64add, canonPos, SFadd. fold da db dab.
  set (ez := Z.min (da - 53) (db - 53)).
  rewrite !shl_align_shiftlPos by (subst ez; lia).
  cbn [fst cond_Zopp]. rewrite <- Pos2Z.inj_add.
  set (q := shiftlPos (a + b) (53 - dab)).
  set (k := dab - 53 - ez).
  assert (Hm : (shiftlPos (shiftlPos a (53 - da)) (da - 53 - ez)
                + shiftlPos (shiftlPos b (53 - db)) (db - 53 - ez))%positive
               = shiftlPos q k).
  { apply pos_eq_of_Z. rewrite Pos2Z.inj_add. unfold q.
    rewrite !shiftlPos_Z by (subst ez k; lia). rewrite Pos2Z.inj_add.
    rewrite <- !Z.mul_assoc, <- !Z.pow_add_r by (subst ez k; lia).
    replace (53 - da + (da - 53 - ez)) with (- ez) by lia.
    replace (53 - db + (db - 53 - ez)) with (- ez) by lia.
    replace (53 - dab + k) with (- ez) by (subst k; lia).
    ring. }
  rewrite Hm. cbn [binary_normalize]. unfold binary_round.
  assert (Hdq : Z.pos (digits2_pos q) = 53).
  { unfold q. rewrite shiftlPos_digits by lia. fold dab. lia. }
  assert (Hf : fexp64 (Z.pos (digits2_pos (shiftlPos q k)) + ez) = dab - 53).
  { rewrite shiftlPos_digits, Hdq by (subst k ez; lia).
    unfold SpecFloat.fexp, SpecFloat.emin, prec, emax. subst k ez. lia. }
  rewrite Hf, shl_align_id by (subst ez; lia).
  replace (dab - 53) with (ez + k) by (subst k; lia).
  apply binary_round_aux_shifted.
  - exact Hdq.
  - subst k ez. lia.
  - unfold SpecFloat.emin, prec, emax. subst ez. lia.
  - unfold prec, emax. subst k ez. lia.
Qed.

Local Open Scope float_scope.

Lemma is_zero_spec f : is_zero f = true -> exists s, Prim2SF f = S754_zero s.
Proof.
  unfold is_zero. rewrite eqb_spec. change (Prim2SF zero) with (S754_zero false).
  destruct (Prim2SF f) as [s | s | | s m e]; intros H; try discriminate.
  - now exists s.
  - destruct s; discriminate.
  - destruct s; discriminate.
Qed.

(** The guard of the crossing test excludes a zero divisor. *)
Lemma guard_divisor_nonzero y yi yj :
  xorb (y <? yi) (y <? yj) = true -> is_zero (yj - yi) = false.
Proof.
  intros Hg. destruct (is_zero (yj - yi)) eqn:Hz; [exfalso | reflexivity].
  apply is_zero_spec in Hz as [s Hs]. rewrite sub_spec in Hs.
  revert Hs. apply SF64sub_nonzero with (Y := Prim2SF y); try apply Prim2SF_valid.
  rewrite <- !ltb_spec. intros E. rewrite E, xorb_nilpotent in Hg. discriminate.
Qed.

Lemma SFeqb_finite_eq s1 m1 e1 s2 m2 e2 :
  SFeqb (S754_finite s1 m1 e1) (S754_finite s2 m2 e2) = true ->
  S754_finite s1 m1 e1 = S754_finite s2 m2 e2.
Proof.
  unfold SFeqb, SFcompare.
  destruct s1, s2; try discriminate;
    destruct (Z.compare e1 e2) eqn:He; try discriminate;
    destruct (Pos.compare_cont Eq m1 m2) eqn:Hm; try discriminate;
    intros _; apply Z.compare_eq in He; apply Pos.compare_eq in Hm; congruence.
Qed.

(** Numbers that compare equal compare alike with every third Number. *)
Lemma eqb_ltb_compat y a b : (a =? b) = true -> (y <? a) = (y <? b).
Proof.
  rewrite eqb_spec, !ltb_spec. intros E.
  destruct (Prim2SF a) as [sa | sa | | sa ma ea] eqn:Ha,
           (Prim2SF b) as [sb | sb | | sb mb eb] eqn:Hb;
    try discriminate;
    try (destruct sa, sb; discriminate).
  - apply SFltb_zero_sign.
  - destruct sa, sb; try discriminate; reflexivity.
  - apply SFeqb_finite_eq in E. now rewrite E.
Qed.

Lemma SFcompare_refl X : X <> S754_nan -> SFcompare X X = Some Eq.
Proof.
  destruct X as [s | s | | s m e]; intros H; try congruence.
  - reflexivity.
  - destruct s; reflexivity.
  - cbn. rewrite Z.compare_refl, Pos.compare_cont_refl. destruct s; reflexivity.
Qed.

Lemma is_nan_eq x : is_nan x = true -> x = nan.
Proof.
  unfold is_nan. rewrite eqb_spec. unfold SFeqb. intros H.
  apply Prim2SF_inj. change (Prim2SF nan) with S754_nan.
  destruct (Prim2SF x) eqn:E; try reflexivity;
    rewrite SFcompare_refl in H by discriminate; discriminate.
Qed.

Lemma ltb_irrefl x : (x <? x) = false.
Proof.
  rewrite ltb_spec. unfold SFltb.
  destruct (Prim2SF x) eqn:E; try reflexivity;
    rewrite SFcompare_refl by discriminate; reflexivity.
Qed.

Lemma Math_min_idem x : JS.Math_min x x = x.
Proof.
  unfold JS.Math_min. rewrite orb_diag, ltb_irrefl.
  destruct (is_nan x) eqn:E.
  - symmetry. now apply is_nan_eq.
  - now destruct (get_sign x).
Qed.

Lemma Math_max_idem x : JS.Math_max x x = x.
Proof.
  unfold JS.Math_max. rewrite orb_diag, ltb_irrefl.
  destruct (is_nan x) eqn:E.
  - symmetry. now apply is_nan_eq.
  - now destruct (get_sign x).
Qed.

Lemma zeroOrNaN_of_SF x :
  (exists s, Prim2SF x = S754_zero s) \/ Prim2SF x = S754_nan -> zeroOrNaN x.
Proof.
  unfold zeroOrNaN. intros [[s H] | H]; rewrite <- (SF2Prim_Prim2SF x), H.
  - destruct s; cbn; auto.
  - cbn; auto.
Qed.

Lemma sub_diag_zeroOrNaN x : zeroOrNaN (x - x).
Proof.
  apply zeroOrNaN_of_SF. rewrite sub_spec.
  destruct (Prim2SF x) as [s | s | | s m e].
  - left. exists false. destruct s; reflexivity.
  - right. destruct s; reflexivity.
  - right. reflexivity.
  - left. exists false. unfold SF64sub, SFsub. rewrite Z.sub_diag. reflexivity.
Qed.

Lemma div_zeroOrNaN x g : zeroOrNaN x -> zeroOrNaN (x / g).
Proof.
  intros H. apply zeroOrNaN_of_SF. rewrite div_spec.
  destruct H as [-> | [-> | ->]];
    [change (Prim2SF zero) with (S754_zero false)
    | change (Prim2SF neg_zero) with (S754_zero true)
    | change (Prim2SF nan) with S754_nan ];
    destruct (Prim2SF g) as [s | s | | s m e]; cbn; eauto.
Qed.

Lemma loopCount_ceil_zeroOrNaN x : zeroOrNaN x -> JS.loopCount (JS.Math_ceil x) = Some 0%nat.
Proof. intros [-> | [-> | ->]]; reflexivity. Qed.

Lemma Prim2SF_floatOfZ_0 : Prim2SF (JS.floatOfZ 0) = S754_zero false.
Proof. reflexivity. Qed.

Lemma Prim2SF_floatOfZ_pos p :
  (Z.pos p < 2 ^ 53)%Z -> Prim2SF (JS.floatOfZ (Z.pos p)) = canonPos p.
Proof.
  intros H. unfold JS.floatOfZ. cbn [Z.leb Z.compare].
  rewrite of_uint63_spec, Uint63.of_Z_spec.
  rewrite Z.mod_small by (unfold Uint63.wB; cbn; lia).
  apply binary_normalize_canonPos, digits_le_53, H.
Qed.

(** Integer products and sums below 2^53 are exact in binary64. *)
Lemma floatOfZ_mul a b :
  (0 <= a < 2 ^ 53)%Z -> (0 <= b < 2 ^ 53)%Z -> (a * b < 2 ^ 53)%Z ->
  JS.floatOfZ a * JS.floatOfZ b = JS.floatOfZ (a * b).
Proof.
  intros Ha Hb Hab. apply Prim2SF_inj. rewrite mul_spec.
  destruct a as [| a | a]; [| | lia]; destruct b as [| b | b]; try lia.
  - reflexivity.
  - cbn [Z.mul]. rewrite Prim2SF_floatOfZ_0, Prim2SF_floatOfZ_pos by lia. reflexivity.
  - rewrite Z.mul_0_r, Prim2SF_floatOfZ_0, Prim2SF_floatOfZ_pos by lia. reflexivity.
  - change (Z.pos a * Z.pos b)%Z with (Z.pos (a * b)) in *.
    rewrite !Prim2SF_floatOfZ_pos by nia.
    apply SF64mul_canonPos, digits_le_53, Hab.
Qed.

Lemma floatOfZ_add a b :
  (0 <= a)%Z -> (0 <= b)%Z -> (a + b < 2 ^ 53)%Z ->
  JS.floatOfZ a + JS.floatOfZ b = JS.floatOfZ (a + b).
Proof.
  intros Ha Hb Hab. apply Prim2SF_inj. rewrite add_spec.
  destruct a as [| a | a]; [| | lia]; destruct b as [| b | b]; try lia.
  - reflexivity.
  - cbn [Z.add]. rewrite Prim2SF_floatOfZ_0, Prim2SF_floatOfZ_pos by lia. reflexivity.
  - rewrite Z.add_0_r, Prim2SF_floatOfZ_0, Prim2SF_floatOfZ_pos by lia. reflexivity.
  - change (Z.pos a + Z.pos b)%Z with (Z.pos (a + b)) in *.
    rewrite !Prim2SF_floatOfZ_pos by lia.
    apply SF64add_canonPos, digits_le_53, Hab.
Qed.


Lemma valid_digits s m e :
  valid_binary (S754_finite s m e) = true ->
  (Z.pos (digits2_pos m) <= 53)%Z /\ ((0 <= e)%Z -> Z.pos (digits2_pos m) = 53%Z).
Proof.
  cbn [SpecFloat.valid_binary]. unfold bounded, canonical_mantissa.
  intros H. apply andb_prop in H as [H _]. apply Z.eqb_eq in H.
  unfold SpecFloat.fexp, SpecFloat.emin, prec, emax in H. lia.
Qed.

Lemma ceilZ_floatOfZ_pos p : (Z.pos p < 2 ^ 53)%Z -> JS.ceilZ (JS.floatOfZ (Z.pos p)) = Z.pos p.
Proof.
  intros H. unfold JS.ceilZ. rewrite Prim2SF_floatOfZ_pos by assumption.
  unfold canonPos. cbn [cond_Zopp].
  pose proof (digits_le_53 p H) as Hd.
  set (d := Z.pos (digits2_pos p)) in *.
  rewrite shiftlPos_Z by lia.
  destruct (0 <=? d - 53)%Z eqn:E.
  - apply Z.leb_le in E. replace (d - 53)%Z with 0%Z by lia.
    replace (53 - d)%Z with 0%Z by lia. cbn. lia.
  - apply Z.leb_gt in E. replace (- (d - 53))%Z with (53 - d)%Z by lia.
    rewrite <- Z.mul_opp_l, Z.div_mul by (apply Z.pow_nonzero; lia). lia.
Qed.

Lemma loopCount_positive x n :
  JS.loopCount x = Some (S n) ->
  (0 <? x) = true /\ (x <=? 9007199254740992) = true /\ Z.of_nat (S n) = JS.ceilZ x.
Proof.
  unfold JS.loopCount.
  destruct (0 <? x); [| discriminate].
  destruct (x <=? 9007199254740992); [| discriminate].
  intros H. injection H as H. repeat split. lia.
Qed.

Lemma floatOfZ_neg_not_positive p :
  (Z.pos p < 2 ^ 53)%Z -> (0 <? JS.floatOfZ (Z.neg p)) = false.
Proof.
  intros H. rewrite ltb_spec. change (Prim2SF 0) with (S754_zero false).
  unfold JS.floatOfZ. cbn [Z.leb Z.compare Z.opp]. rewrite opp_spec.
  pose proof (Prim2SF_floatOfZ_pos p H) as Hp.
  unfold JS.floatOfZ in Hp. cbn [Z.leb Z.compare] in Hp. rewrite Hp.
  reflexivity.
Qed.

(** A positive loop bound that [Math.ceil] returned is the Number of the
    loop count. *)
Lemma loopCount_Math_ceil q n :
  JS.loopCount (JS.Math_ceil q) = Some (S n) -> JS.Math_ceil q = JS.floatOfNat (S n).
Proof.
  intros H. apply loopCount_positive in H as (Hpos & Hle & Hn).
  unfold JS.floatOfNat. rewrite Hn. clear Hn.
  revert Hpos Hle. unfold JS.Math_ceil.
  pose proof (Prim2SF_valid q) as V.
  destruct (Prim2SF q) as [s | s | | s m e] eqn:E.
  - rewrite ltb_spec, E. discriminate.
  - rewrite ltb_spec, leb_spec, E. destruct s; discriminate.
  - rewrite ltb_spec, E. discriminate.
  - destruct (valid_digits _ _ _ V) as [Hd53 Hd].
    pose proof (digits2_pos_bounds m) as [Hlo Hhi].
    destruct (0 <=? e)%Z eqn:He.
    + apply Z.leb_le in He. specialize (Hd He). rewrite Hd in Hlo, Hhi.
      rewrite ltb_spec, leb_spec, E.
      change (Prim2SF 0) with (S754_zero false).
      change (Prim2SF 9007199254740992) with (S754_finite false 4503599627370496 1).
      destruct s; [discriminate |]. intros _.
      unfold SFleb, SFcompare. unfold JS.ceilZ. rewrite E. cbn [cond_Zopp].
      apply Z.leb_le in He as He'. rewrite He'.
      destruct (Z.compare e 1) eqn:C.
      * apply Z.compare_eq in C. subst e.
        destruct (Pos.compare_cont Eq m 4503599627370496) eqn:Cm; try discriminate.
        -- apply Pos.compare_eq in Cm. subst m. intros _.
           apply Prim2SF_inj. rewrite E. vm_compute. reflexivity.
        -- assert (Hlt : (m < 4503599627370496)%positive) by exact Cm.
           apply Pos2Z.pos_lt_pos in Hlt.
           change (2 ^ (53 - 1))%Z with 4503599627370496%Z in Hlo.
           exfalso. apply (Z.lt_irrefl (Z.pos m)).
           apply Z.lt_le_trans with (1 := Hlt). apply Hlo.
      * change (e < 1)%Z in C. assert (e = 0%Z) by (clear - C He; lia).
        subst e. intros _.
        apply Prim2SF_inj. rewrite E, Z.mul_1_r.
        rewrite Prim2SF_floatOfZ_pos by lia. unfold canonPos. rewrite Hd. reflexivity.
      * discriminate.
    + apply Z.leb_gt in He.
      assert (Hz : (- 2 ^ 53 < JS.ceilZ q < 2 ^ 53)%Z).
      { unfold JS.ceilZ. rewrite E.
        apply Z.leb_gt in He as He'. rewrite He'.
        assert (Hm : (Z.pos m < 2 ^ 53)%Z).
        { apply Z.lt_le_trans with (1 := Hhi). apply Z.pow_le_mono_r; lia. }
        assert (Hp : (0 < 2 ^ (- e))%Z) by (apply Z.pow_pos_nonneg; lia).
        destruct s; cbn [cond_Zopp].
        - rewrite Z.opp_involutive.
          assert (0 <= Z.pos m / 2 ^ (- e) <= Z.pos m)%Z.
          { split; [apply Z.div_pos; lia |]. apply Z.div_le_upper_bound; nia. }
          lia.
        - assert (- Z.pos m <= - Z.pos m / 2 ^ (- e) <= 0)%Z.
          { split.
            - apply Z.div_le_lower_bound; nia.
            - apply Z.div_le_upper_bound; nia. }
          lia. }
      destruct (JS.ceilZ q =? 0)%Z eqn:Hz0.
      * destruct s; discriminate.
      * apply Z.eqb_neq in Hz0.
        destruct (JS.ceilZ q) as [| p | p]; [contradiction | |].
        -- intros _ _. now rewrite ceilZ_floatOfZ_pos by lia.
        -- rewrite floatOfZ_neg_not_positive by lia. discriminate.
Qed.

End Binary64.

(** ** The order of Numbers *)

Section FloatOrder.

Local Open Scope Z_scope.

Ltac key_lia :=
  unfold keylt3, keyle in *;
  repeat match goal with
         | k : FloatKey |- _ => destruct k as [[[? ?] ?] ?]
         end;
  lia.

Ltac zero_keys :=
  unfold minKey, maxKey;
  try change (Prim2SF neg_zero) with (S754_zero true);
  try change (Prim2SF zero) with (S754_zero false);
  cbn [SFkey keyle]; lia.

Lemma keyle_refl a : keyle a a.
Proof. key_lia. Qed.

Lemma keyle_trans a b c : keyle a b -> keyle b c -> keyle a c.
Proof. key_lia. Qed.

Lemma keyle_antisym a b : keyle a b -> keyle b a -> a = b.
Proof.
  destruct a as [[[a1 a2] a3] a4], b as [[[b1 b2] b3] b4]. unfold keyle.
  intros H1 H2. repeat f_equal; lia.
Qed.

Lemma keylt3_keyle a b : keylt3 a b -> keyle a b.
Proof. key_lia. Qed.

Lemma keyle_not_keylt3 a b : keyle a b -> ~ keylt3 b a.
Proof. key_lia. Qed.

Lemma SFkey_inj c X Y :
  (c < -2 \/ 2 < c) -> SFkey c X = SFkey c Y -> X = Y.
Proof.
  intros Hc.
  destruct X as [[] | [] | | [] mx ex], Y as [[] | [] | | [] my ey];
    cbn [SFkey]; intros H; try reflexivity;
    try (exfalso; injection H; intros; lia).
  - injection H as He Hm. f_equal; [apply pos_eq_of_Z |]; lia.
  - injection H as He Hm. f_equal; [apply pos_eq_of_Z |]; lia.
Qed.

(** [<] and [<=] on binary64 values are the order of the keys. *)
Lemma SFltb_key c X Y :
  SFltb X Y = true <->
  X <> S754_nan /\ Y <> S754_nan /\ keylt3 (SFkey c X) (SFkey c Y).
Proof.
  unfold SFltb.
  destruct X as [[] | [] | | [] mx ex], Y as [[] | [] | | [] my ey];
    cbn [SFcompare SFkey keylt3];
    try (split; [discriminate | intros (H1 & H2 & H3); try congruence; lia]);
    try (split; [intros _; repeat split; try discriminate; lia | reflexivity]).
  - destruct (Z.compare_spec ex ey) as [E | E | E].
    + subst ey. rewrite Pos.compare_cont_spec. cbn [Pos.switch_Eq].
      destruct (Pos.compare_spec mx my) as [M | M | M]; cbn [CompOpp];
        (split; [try discriminate; intros _; repeat split; try discriminate; lia
                | intros (_ & _ & H); try reflexivity; lia]).
    + split; [discriminate | intros (_ & _ & H); lia].
    + split; [intros _; repeat split; try discriminate; lia | reflexivity].
  - destruct (Z.compare_spec ex ey) as [E | E | E].
    + subst ey. rewrite Pos.compare_cont_spec. cbn [Pos.switch_Eq].
      destruct (Pos.compare_spec mx my) as [M | M | M];
        (split; [try discriminate; intros _; repeat split; try discriminate; lia
                | intros (_ & _ & H); try reflexivity; lia]).
    + split; [intros _; repeat split; try discriminate; lia | reflexivity].
    + split; [discriminate | intros (_ & _ & H); lia].
Qed.

Lemma SFleb_key c X Y :
  SFleb X Y = true <->
  X <> S754_nan /\ Y <> S754_nan /\ ~ keylt3 (SFkey c Y) (SFkey c X).
Proof.
  unfold SFleb.
  destruct X as [[] | [] | | [] mx ex], Y as [[] | [] | | [] my ey];
    cbn [SFcompare SFkey keylt3];
    try (split; [discriminate | intros (H1 & H2 & H3); try congruence; lia]);
    try (split; [intros _; repeat split; try discriminate; lia | reflexivity]).
  - destruct (Z.compare_spec ex ey) as [E | E | E].
    + subst ey. rewrite Pos.compare_cont_spec. cbn [Pos.switch_Eq].
      destruct (Pos.compare_spec mx my) as [M | M | M]; cbn [CompOpp];
        (split; [try discriminate; intros _; repeat split; try discriminate; lia
                | intros (_ & _ & H); try reflexivity; lia]).
    + split; [discriminate | intros (_ & _ & H); lia].
    + split; [intros _; repeat split; try discriminate; lia | reflexivity].
  - destruct (Z.compare_spec ex ey) as [E | E | E].
    + subst ey. rewrite Pos.compare_cont_spec. cbn [Pos.switch_Eq].
      destruct (Pos.compare_spec mx my) as [M | M | M];
        (split; [try discriminate; intros _; repeat split; try discriminate; lia
                | intros (_ & _ & H); try reflexivity; lia]).
    + split; [intros _; repeat split; try discriminate; lia | reflexivity].
    + split; [discriminate | intros (_ & _ & H); lia].
Qed.

(** Values that are not NaN and of which neither is below the other are
    equal, or are both zeros. *)
Lemma SFkey_tie c X Y :
  X <> S754_nan -> Y <> S754_nan ->
  ~ keylt3 (SFkey c X) (SFkey c Y) -> ~ keylt3 (SFkey c Y) (SFkey c X) ->
  X = Y \/ exists s t, X = S754_zero s /\ Y = S754_zero t.
Proof.
  destruct X as [[] | [] | | [] mx ex], Y as [[] | [] | | [] my ey];
    cbn [SFkey keylt3]; intros HX HY H1 H2;
    try congruence; try (exfalso; lia); eauto.
  - left. f_equal; [apply pos_eq_of_Z |]; lia.
  - left. f_equal; [apply pos_eq_of_Z |]; lia.
Qed.

Local Open Scope float_scope.

Lemma is_nan_Prim2SF x : is_nan x = true <-> Prim2SF x = S754_nan.
Proof.
  split.
  - intros H. apply is_nan_eq in H. subst x. reflexivity.
  - intros H. unfold is_nan. rewrite eqb_spec, H. reflexivity.
Qed.

Lemma is_nan_false x : is_nan x = false <-> Prim2SF x <> S754_nan.
Proof.
  rewrite <- is_nan_Prim2SF. destruct (is_nan x); split; congruence.
Qed.

Lemma ltb_key c x y :
  (x <? y) = true <->
  is_nan x = false /\ is_nan y = false
  /\ keylt3 (SFkey c (Prim2SF x)) (SFkey c (Prim2SF y)).
Proof. rewrite ltb_spec, (SFltb_key c), !is_nan_false. reflexivity. Qed.

Lemma leb_key c x y :
  (x <=? y) = true <->
  is_nan x = false /\ is_nan y = false
  /\ ~ keylt3 (SFkey c (Prim2SF y)) (SFkey c (Prim2SF x)).
Proof. rewrite leb_spec, (SFleb_key c), !is_nan_false. reflexivity. Qed.

Lemma minKey_inj x y : minKey x = minKey y -> x = y.
Proof.
  intros H. apply Prim2SF_inj. apply (SFkey_inj (-3)); [lia | exact H].
Qed.

Lemma maxKey_inj x y : maxKey x = maxKey y -> x = y.
Proof.
  intros H. apply Prim2SF_inj. apply (SFkey_inj 3); [lia | exact H].
Qed.

(** A zero is one of the two zeros. *)
Lemma zero_cases x s : Prim2SF x = S754_zero s -> x = (if s then neg_zero else zero).
Proof.
  intros H. apply Prim2SF_inj. rewrite H. destruct s; reflexivity.
Qed.

(** [Math.min] returns the argument with the smaller key, NaN first. *)
Lemma Math_min_key a b :
  (JS.Math_min a b = a /\ keyle (minKey a) (minKey b))
  \/ (JS.Math_min a b = b /\ keyle (minKey b) (minKey a)).
Proof.
  unfold JS.Math_min.
  destruct (is_nan a) eqn:Na.
  { left. apply is_nan_eq in Na. subst a. split; [reflexivity |].
    unfold minKey. change (Prim2SF nan) with S754_nan.
    destruct (Prim2SF b) as [[] | [] | | [] m e]; cbn; lia. }
  destruct (is_nan b) eqn:Nb.
  { right. apply is_nan_eq in Nb. subst b. split; [reflexivity |].
    unfold minKey. change (Prim2SF nan) with S754_nan.
    destruct (Prim2SF a) as [[] | [] | | [] m e]; cbn; lia. }
  cbn [orb].
  destruct (a <? b) eqn:Lab.
  { left. split; [reflexivity |]. apply (ltb_key (-3)) in Lab as (_ & _ & H).
    now apply keylt3_keyle. }
  destruct (b <? a) eqn:Lba.
  { right. split; [reflexivity |]. apply (ltb_key (-3)) in Lba as (_ & _ & H).
    now apply keylt3_keyle. }
  assert (H1 : ~ keylt3 (minKey a) (minKey b)).
  { intros H. assert (E : (a <? b) = true) by (apply (ltb_key (-3)); auto). congruence. }
  assert (H2 : ~ keylt3 (minKey b) (minKey a)).
  { intros H. assert (E : (b <? a) = true) by (apply (ltb_key (-3)); auto). congruence. }
  apply is_nan_false in Na, Nb.
  destruct (SFkey_tie (-3) _ _ Na Nb H1 H2) as [E | (s & t & Ea & Eb)].
  - apply Prim2SF_inj in E. subst b. left. split; [now destruct (get_sign a) |].
    apply keyle_refl.
  - apply zero_cases in Ea, Eb. subst a b. destruct s, t.
    + left. split; [reflexivity |]. zero_keys.
    + left. split; [reflexivity |]. zero_keys.
    + right. split; [reflexivity |]. zero_keys.
    + right. split; [reflexivity |]. zero_keys.
Qed.

(** [Math.max] returns the argument with the larger key, NaN last. *)
Lemma Math_max_key a b :
  (JS.Math_max a b = a /\ keyle (maxKey b) (maxKey a))
  \/ (JS.Math_max a b = b /\ keyle (maxKey a) (maxKey b)).
Proof.
  unfold JS.Math_max.
  destruct (is_nan a) eqn:Na.
  { left. apply is_nan_eq in Na. subst a. split; [reflexivity |].
    unfold maxKey. change (Prim2SF nan) with S754_nan.
    destruct (Prim2SF b) as [[] | [] | | [] m e]; cbn; lia. }
  destruct (is_nan b) eqn:Nb.
  { right. apply is_nan_eq in Nb. subst b. split; [reflexivity |].
    unfold maxKey. change (Prim2SF nan) with S754_nan.
    destruct (Prim2SF a) as [[] | [] | | [] m e]; cbn; lia. }
  cbn [orb].
  destruct (a <? b) eqn:Lab.
  { right. split; [reflexivity |]. apply (ltb_key 3) in Lab as (_ & _ & H).
    now apply keylt3_keyle. }
  destruct (b <? a) eqn:Lba.
  { left. split; [reflexivity |]. apply (ltb_key 3) in Lba as (_ & _ & H).
    now apply keylt3_keyle. }
  assert (H1 : ~ keylt3 (maxKey a) (maxKey b)).
  { intros H. assert (E : (a <? b) = true) by (apply (ltb_key 3); auto). congruence. }
  assert (H2 : ~ keylt3 (maxKey b) (maxKey a)).
  { intros H. assert (E : (b <? a) = true) by (apply (ltb_key 3); auto). congruence. }
  apply is_nan_false in Na, Nb.
  destruct (SFkey_tie 3 _ _ Na Nb H1 H2) as [E | (s & t & Ea & Eb)].
  - apply Prim2SF_inj in E. subst b. left. split; [now destruct (get_sign a) |].
    apply keyle_refl.
  - apply zero_cases in Ea, Eb. subst a b. destruct s, t.
    + left. split; [reflexivity |]. zero_keys.
    + right. split; [reflexivity |]. zero_keys.
    + left. split; [reflexivity |]. zero_keys.
    + left. split; [reflexivity |]. zero_keys.
Qed.

Lemma leb_of_minKey r v :
  is_nan r = false -> is_nan v = false -> keyle (minKey r) (minKey v) -> (r <=? v) = true.
Proof.
  intros Hr Hv H. apply (leb_key (-3)). repeat split; try assumption.
  now apply keyle_not_keylt3.
Qed.

Lemma leb_of_maxKey r v :
  is_nan r = false -> is_nan v = false -> keyle (maxKey v) (maxKey r) -> (v <=? r) = true.
Proof.
  intros Hr Hv H. apply (leb_key 3). repeat split; try assumption.
  now apply keyle_not_keylt3.
Qed.

Lemma minKey_nan_least r v :
  is_nan v = true -> keyle (minKey r) (minKey v) -> r = nan.
Proof.
  intros Hv H. apply is_nan_eq in Hv. subst v. apply is_nan_eq, is_nan_Prim2SF.
  revert H. unfold minKey. change (Prim2SF nan) with S754_nan.
  destruct (Prim2SF r) as [[] | [] | | [] m e]; cbn [SFkey keyle]; intros H;
    first [reflexivity | exfalso; lia].
Qed.

Lemma maxKey_nan_greatest r v :
  is_nan v = true -> keyle (maxKey v) (maxKey r) -> r = nan.
Proof.
  intros Hv H. apply is_nan_eq in Hv. subst v. apply is_nan_eq, is_nan_Prim2SF.
  revert H. unfold maxKey. change (Prim2SF nan) with S754_nan.
  destruct (Prim2SF r) as [[] | [] | | [] m e]; cbn [SFkey keyle]; intros H;
    first [reflexivity | exfalso; lia].
Qed.

(** The comparisons chain as an order does. *)
Lemma ltb_false_of_leb a b y :
  (a <=? b) = true -> (b <=? y) = true -> (y <? a) = false.
Proof.
  intros H1 H2. apply (leb_key 0) in H1 as (Na & Nb & H1), H2 as (_ & Ny & H2).
  destruct (y <? a) eqn:E; [| reflexivity].
  apply (ltb_key 0) in E as (_ & _ & E). exfalso.
  revert H1 H2 E.
  generalize (SFkey 0 (Prim2SF a)), (SFkey 0 (Prim2SF b)), (SFkey 0 (Prim2SF y)).
  intros [[[? ?] ?] ?] [[[? ?] ?] ?] [[[? ?] ?] ?]. unfold keylt3. lia.
Qed.

Lemma ltb_leb_trans y a b :
  (y <? a) = true -> (a <=? b) = true -> (y <? b) = true.
Proof.
  intros H1 H2. apply (ltb_key 0) in H1 as (Ny & Na & H1).
  apply (leb_key 0) in H2 as (_ & Nb & H2).
  apply (ltb_key 0). repeat split; try assumption.
  revert H1 H2.
  generalize (SFkey 0 (Prim2SF a)), (SFkey 0 (Prim2SF b)), (SFkey 0 (Prim2SF y)).
  intros [[[? ?] ?] ?] [[[? ?] ?] ?] [[[? ?] ?] ?]. unfold keylt3. lia.
Qed.

Lemma leb_ltb_trans a b y :
  (a <=? b) = true -> (b <? y) = true -> (a <? y) = true.
Proof.
  intros H1 H2. apply (leb_key 0) in H1 as (Na & Nb & H1).
  apply (ltb_key 0) in H2 as (_ & Ny & H2).
  apply (ltb_key 0). repeat split; try assumption.
  revert H1 H2.
  generalize (SFkey 0 (Prim2SF a)), (SFkey 0 (Prim2SF b)), (SFkey 0 (Prim2SF y)).
  intros [[[? ?] ?] ?] [[[? ?] ?] ?] [[[? ?] ?] ?]. unfold keylt3. lia.
Qed.

Lemma leb_not_nan_l a b : (a <=? b) = true -> is_nan a = false.
Proof. intros H. now apply (leb_key 0) in H. Qed.

Lemma ltb_not_nan_r a b : (a <? b) = true -> is_nan b = false.
Proof. intros H. now apply (ltb_key 0) in H. Qed.

Lemma ltb_nan_l y : is_nan y = true -> forall v, (y <? v) = false.
Proof.
  intros H v. destruct (y <? v) eqn:E; [| reflexivity].
  apply (ltb_key 0) in E as (N & _). congruence.
Qed.

Lemma sub_nan_r x : x - nan = nan.
Proof.
  apply Prim2SF_inj. rewrite sub_spec. change (Prim2SF nan) with S754_nan.
  now destruct (Prim2SF x).
Qed.

Lemma zeroOrNaN_nan : zeroOrNaN nan.
Proof. right. now right. Qed.

(** Adding a Number to a zero and taking it away again leaves a zero, or
    NaN if the Number is not finite. *)
Lemma add_sub_zeroOrNaN a t : zeroOrNaN a -> zeroOrNaN (a + t - t).
Proof.
  intros Ha. apply zeroOrNaN_of_SF. rewrite sub_spec, add_spec.
  destruct Ha as [-> | [-> | ->]];
    [change (Prim2SF zero) with (S754_zero false)
    | change (Prim2SF neg_zero) with (S754_zero true)
    | change (Prim2SF nan) with S754_nan ];
    destruct (Prim2SF t) as [[] | [] | | s m e]; cbn; eauto;
    left; exists false; unfold SF64sub, SFsub; rewrite Z.sub_diag; reflexivity.
Qed.

Lemma float_neq (a b : float) : Prim2SF a <> Prim2SF b -> a <> b.
Proof. intros H E. apply H. now rewrite E. Qed.

End FloatOrder.

(** Rounding keeps the sign and gives no NaN. *)
Section Rounding.

Local Open Scope Z_scope.

Lemma binary_round_aux_sign s m e l :
  match binary_round_aux prec emax s m e l with
  | S754_nan => True
  | S754_zero s' | S754_infinity s' | S754_finite s' _ _ => s' = s
  end.
Proof.
  unfold binary_round_aux.
  destruct (shr_fexp prec emax m e l) as [mrs' e'].
  destruct (shr_fexp prec emax _ e' loc_Exact) as [mrs'' e''].
  destruct (shr_m mrs''); [reflexivity | | exact I].
  destruct (e'' <=? emax - prec)%Z; reflexivity.
Qed.

Lemma SFnonneg_mul x y : SFnonneg x -> SFnonneg y -> SFnonneg (SF64mul x y).
Proof.
  unfold SF64mul, SFmul.
  destruct x as [sx | sx | | sx mx ex], y as [sy | sy | | sy my ey]; cbn [SFnonneg];
    intros Hx Hy; subst; try reflexivity; try exact I.
  pose proof (binary_round_aux_sign (xorb false false) (Z.pos (mx * my)) (ex + ey) loc_Exact)
    as H.
  destruct (binary_round_aux _ _ _ _ _ _); cbn [SFnonneg]; auto.
Qed.

Lemma SFnonneg_div x y : SFnonneg x -> SFnonneg y -> SFnonneg (SF64div x y).
Proof.
  unfold SF64div, SFdiv.
  destruct x as [sx | sx | | sx mx ex], y as [sy | sy | | sy my ey]; cbn [SFnonneg];
    intros Hx Hy; subst; try reflexivity; try exact I.
  destruct (SFdiv_core_binary prec emax (Z.pos mx) ex (Z.pos my) ey) as [[mz ez] lz].
  pose proof (binary_round_aux_sign (xorb false false) mz ez lz) as H.
  destruct (binary_round_aux _ _ _ _ _ _); cbn [SFnonneg]; auto.
Qed.

Lemma SFnonneg_abs x : SFnonneg (SFabs x).
Proof. destruct x; cbn; auto. Qed.

Lemma SFnonneg_not_negative x : SFnonneg x -> SFltb x (S754_zero false) = false.
Proof.
  destruct x as [s | s | | s m e]; cbn [SFnonneg]; intros H; try subst s; reflexivity.
Qed.

Lemma binary_round_aux_not_nan sx m e l :
  0 < m -> SpecFloat.emin prec emax <= e ->
  binary_round_aux prec emax sx m e l <> S754_nan.
Proof.
  intros Hm He. unfold binary_round_aux.
  pose proof (shr_fexp_pos m e l Hm He) as [H1 H1e].
  destruct (shr_fexp prec emax m e l) as [mrs' e']. cbn [fst snd] in *.
  pose proof (round_nearest_even_ge (shr_m mrs') (loc_of_shr_record mrs')) as Hr.
  set (m2 := round_nearest_even (shr_m mrs') (loc_of_shr_record mrs')) in *.
  assert (Hm2 : 0 < m2) by lia.
  pose proof (shr_fexp_pos m2 e' loc_Exact Hm2 H1e) as [H2 _].
  destruct (shr_fexp prec emax m2 e' loc_Exact) as [mrs'' e'']. cbn [fst snd] in *.
  destruct (shr_m mrs'') as [| q | q]; try lia.
  destruct (e'' <=? emax - prec); discriminate.
Qed.

Lemma binary_normalize_not_nan m sz : binary_normalize prec emax m 0 sz <> S754_nan.
Proof.
  destruct m as [| p | p]; cbn [binary_normalize]; [discriminate | |];
    unfold binary_round;
    destruct (shl_align p 0 (SpecFloat.fexp prec emax (Z.pos (digits2_pos p) + 0)))
      as [mz ez] eqn:Hal;
    (apply binary_round_aux_not_nan; [lia |]);
    unfold shl_align in Hal;
    destruct (SpecFloat.fexp prec emax (Z.pos (digits2_pos p) + 0) - 0);
    injection Hal as _ <-;
    first [apply fexp64_ge_emin | unfold SpecFloat.emin, prec, emax; lia].
Qed.

(** The Number of an integer is not NaN. *)
Lemma floatOfZ_not_nan z : is_nan (JS.floatOfZ z) = false.
Proof.
  apply is_nan_false. unfold JS.floatOfZ.
  destruct (0 <=? z)%Z.
  - rewrite of_uint63_spec. apply binary_normalize_not_nan.
  - rewrite opp_spec, of_uint63_spec.
    pose proof (binary_normalize_not_nan
                  (Uint63.to_Z (Uint63.of_Z (- z))) false) as H.
    destruct (binary_normalize _ _ _ _ _); cbn [SFopp]; congruence.
Qed.

Lemma shr_fexp_nonneg m e l :
  0 <= m -> 0 <= shr_m (fst (shr_fexp prec emax m e l)).
Proof.
  intros Hm. unfold shr_fexp, shr.
  assert (Hrec : shr_m (shr_record_of_loc m l) = m).
  { destruct l as [| []]; reflexivity. }
  destruct (SpecFloat.fexp prec emax (Zdigits2 m + e) - e) as [| n | n]; cbn [fst];
    rewrite ?Hrec; try assumption.
  rewrite iter_shr_1_m by (rewrite Hrec; lia). rewrite Hrec.
  apply Z.div_pos; [assumption | apply Z.pow_pos_nonneg; lia].
Qed.

(** Rounding a non-negative mantissa never gives NaN, whatever the
    exponent. *)
Lemma binary_round_aux_never_nan sx m e l :
  0 <= m -> binary_round_aux prec emax sx m e l <> S754_nan.
Proof.
  intros Hm. unfold binary_round_aux.
  pose proof (shr_fexp_nonneg m e l Hm) as H1.
  destruct (shr_fexp prec emax m e l) as [mrs' e']. cbn [fst] in H1.
  pose proof (round_nearest_even_ge (shr_m mrs') (loc_of_shr_record mrs')) as Hr.
  set (m2 := round_nearest_even (shr_m mrs') (loc_of_shr_record mrs')) in *.
  pose proof (shr_fexp_nonneg m2 e' loc_Exact ltac:(lia)) as H2.
  destruct (shr_fexp prec emax m2 e' loc_Exact) as [mrs'' e'']. cbn [fst] in H2.
  destruct (shr_m mrs'') as [| q | q]; try lia; [discriminate |].
  destruct (e'' <=? emax - prec); discriminate.
Qed.

Lemma binary_round_never_nan sx mx ex : binary_round prec emax sx mx ex <> S754_nan.
Proof.
  unfold binary_round. destruct (shl_align mx ex _) as [mz ez].
  apply binary_round_aux_never_nan. lia.
Qed.

Lemma binary_round_sign sx mx ex :
  match binary_round prec emax sx mx ex with
  | S754_nan => True
  | S754_zero s' | S754_infinity s' | S754_finite s' _ _ => s' = sx
  end.
Proof.
  unfold binary_round. destruct (shl_align mx ex _) as [mz ez].
  apply binary_round_aux_sign.
Qed.

(** The sum of two Numbers that are not negative and not NaN is neither. *)
Lemma SFadd_nonneg x y :
  SFnonneg x -> SFnonneg y -> x <> S754_nan -> y <> S754_nan ->
  SFnonneg (SF64add x y) /\ SF64add x y <> S754_nan.
Proof.
  unfold SF64add, SFadd.
  destruct x as [sx | sx | | sx mx ex], y as [sy | sy | | sy my ey]; cbn [SFnonneg];
    intros Hx Hy Nx Ny; subst; try congruence; try (split; [reflexivity | discriminate]).
  cbn [cond_Zopp].
  change (Z.pos ?a + Z.pos ?b) with (Z.pos (a + b)). cbn [binary_normalize].
  pose proof (binary_round_sign false
    (fst (shl_align mx ex (Z.min ex ey)) + fst (shl_align my ey (Z.min ex ey)))
    (Z.min ex ey)) as S.
  pose proof (binary_round_never_nan false
    (fst (shl_align mx ex (Z.min ex ey)) + fst (shl_align my ey (Z.min ex ey)))
    (Z.min ex ey)) as N.
  split; [| exact N].
  destruct (binary_round _ _ _ _ _); cbn [SFnonneg]; auto.
Qed.

(** So is its product with a positive finite Number. *)
Lemma SFmul_nonneg x m e :
  SFnonneg x -> x <> S754_nan ->
  SFnonneg (SF64mul x (S754_finite false m e))
  /\ SF64mul x (S754_finite false m e) <> S754_nan.
Proof.
  unfold SF64mul, SFmul.
  destruct x as [sx | sx | | sx mx ex]; cbn [SFnonneg]; intros Hx Nx; subst;
    try congruence; try (split; [reflexivity | discriminate]).
  cbn [xorb].
  pose proof (binary_round_aux_sign false (Z.pos (mx * m)) (ex + e) loc_Exact) as S.
  pose proof (binary_round_aux_never_nan false (Z.pos (mx * m)) (ex + e) loc_Exact
                ltac:(lia)) as N.
  split; [| exact N].
  destruct (binary_round_aux _ _ _ _ _ _); cbn [SFnonneg]; auto.
Qed.

Lemma floatOfZ_nonneg z :
  0 <= z ->
  SFnonneg (Prim2SF (JS.floatOfZ z)) /\ Prim2SF (JS.floatOfZ z) <> S754_nan.
Proof.
  intros Hz. split; [| apply is_nan_false, floatOfZ_not_nan].
  unfold JS.floatOfZ. apply Z.leb_le in Hz. rewrite Hz.
  rewrite of_uint63_spec.
  pose proof (Uint63.to_Z_bounded (Uint63.of_Z z)) as [B _].
  destruct (Uint63.to_Z (Uint63.of_Z z)) as [| p | p]; try lia; cbn [binary_normalize].
  - reflexivity.
  - pose proof (binary_round_sign false p 0) as S.
    destruct (binary_round _ _ _ _ _); cbn [SFnonneg]; auto.
Qed.

(** [i * lngCells + j + 1] is not NaN when [lngCells] let the inner loop
    run, whatever rounding does to it. *)
Lemma cellNumber_not_nan L i j :
  (0 <? L)%float = true -> (L <=? 9007199254740992)%float = true ->
  is_nan (cellNumber L i j) = false.
Proof.
  intros P B. apply is_nan_false. unfold cellNumber.
  rewrite !add_spec, mul_spec.
  destruct (floatOfZ_nonneg (Z.of_nat i) ltac:(lia)) as [Si Ni].
  destruct (floatOfZ_nonneg (Z.of_nat j) ltac:(lia)) as [Sj Nj].
  fold (JS.floatOfNat i) in Si, Ni. fold (JS.floatOfNat j) in Sj, Nj.
  apply (ltb_key 0) in P as (_ & _ & P). apply (leb_key 0) in B as (_ & _ & B).
  change (Prim2SF 0) with (S754_zero false) in P.
  change (Prim2SF 9007199254740992) with (S754_finite false 4503599627370496 1) in B.
  destruct (Prim2SF L) as [[] | [] | | [] m e]; cbn [SFkey keylt3] in P, B; try lia.
  destruct (SFmul_nonneg _ m e Si Ni) as [S1 N1].
  destruct (SFadd_nonneg _ _ S1 Sj N1 Nj) as [S2 N2].
  change (Prim2SF 1) with (S754_finite false 4503599627370496 (-52)).
  apply (SFadd_nonneg _ (S754_finite false 4503599627370496 (-52)) S2 eq_refl N2).
  discriminate.
Qed.

(** A loop that ends runs at most 2^53 times. *)
Lemma loopCount_le x n : JS.loopCount x = Some n -> (Z.of_nat n <= 2 ^ 53)%Z.
Proof.
  destruct n as [| n]; [lia |].
  intros H. apply loopCount_positive in H as (Hpos & Hle & ->).
  apply (ltb_key 0) in Hpos as (_ & _ & Hpos).
  apply (leb_key 0) in Hle as (_ & _ & Hle).
  pose proof (Prim2SF_valid x) as V. unfold JS.ceilZ.
  change (Prim2SF 0) with (S754_zero false) in Hpos.
  change (Prim2SF 9007199254740992) with (S754_finite false 4503599627370496 1) in Hle.
  destruct (Prim2SF x) as [[] | [] | | [] m e]; cbn [SFkey keylt3] in Hpos, Hle; try lia.
  destruct (valid_digits _ _ _ V) as [Hd53 Hd].
  pose proof (digits2_pos_bounds m) as [Hlo Hhi]. cbn [cond_Zopp].
  assert (Hm : (Z.pos m < 2 ^ 53)%Z).
  { apply Z.lt_le_trans with (1 := Hhi). apply Z.pow_le_mono_r; lia. }
  destruct (0 <=? e)%Z eqn:He.
  - apply Z.leb_le in He. specialize (Hd He). rewrite Hd in Hlo.
    change (2 ^ (53 - 1))%Z with 4503599627370496%Z in Hlo.
    change (2 ^ 53)%Z with 9007199254740992%Z in *.
    assert (e = 0 \/ e = 1)%Z as [-> | ->] by lia.
    + rewrite Z.mul_1_r. lia.
    + assert (Z.pos m = 4503599627370496)%Z by lia.
      change (2 ^ 1)%Z with 2%Z. lia.
  - apply Z.leb_gt in He.
    assert (Hp : (0 < 2 ^ (- e))%Z) by (apply Z.pow_pos_nonneg; lia).
    assert (- Z.pos m <= - Z.pos m / 2 ^ (- e) <= 0)%Z.
    { split.
      - apply Z.div_le_lower_bound; nia.
      - apply Z.div_le_upper_bound; nia. }
    lia.
Qed.

(** Consecutive loop counters: [i + 1] is the Number of the next integer. *)
Lemma floatOfNat_succ i : (Z.of_nat (S i) < 2 ^ 53)%Z ->
  (JS.floatOfNat i + 1)%float = JS.floatOfNat (S i).
Proof.
  intros H. unfold JS.floatOfNat. change 1%float with (JS.floatOfZ 1).
  rewrite floatOfZ_add by lia. f_equal. lia.
Qed.

End Rounding.

(** ** Crossing tests of upright and level edges *)

Section CellBox.

Local Open Scope Z_scope.

Lemma binary_round_not_nan sx mx ex :
  SpecFloat.emin prec emax <= ex -> binary_round prec emax sx mx ex <> S754_nan.
Proof.
  intros He. unfold binary_round.
  destruct (shl_align mx ex (SpecFloat.fexp prec emax (Z.pos (digits2_pos mx) + ex)))
    as [mz ez] eqn:Hal.
  apply binary_round_aux_not_nan; [lia |].
  unfold shl_align in Hal.
  destruct (SpecFloat.fexp prec emax (Z.pos (digits2_pos mx) + ex) - ex);
    injection Hal as _ <-; first [assumption | apply fexp64_ge_emin].
Qed.

Lemma binary_normalize_emin_not_nan m e sz :
  SpecFloat.emin prec emax <= e -> binary_normalize prec emax m e sz <> S754_nan.
Proof.
  intros He. destruct m; cbn [binary_normalize]; [discriminate | |];
    now apply binary_round_not_nan.
Qed.

Local Open Scope float_scope.

Lemma leb_negb_ltb a b :
  is_nan a = false -> is_nan b = false -> (a <=? b) = negb (b <? a).
Proof.
  intros Na Nb.
  destruct (b <? a) eqn:L; cbn [negb].
  - destruct (a <=? b) eqn:E; [| reflexivity].
    apply (leb_key 0) in E as (_ & _ & E). apply (ltb_key 0) in L as (_ & _ & L). tauto.
  - apply (leb_key 0). repeat split; try assumption.
    intros H. assert (E : (b <? a) = true) by (apply (ltb_key 0); auto). congruence.
Qed.

Lemma finite_not_nan x : finite x = true -> is_nan x = false.
Proof.
  unfold finite. intros H. apply is_nan_false. intros E. rewrite E in H. discriminate.
Qed.

(** The difference of two Numbers that are not NaN is NaN only if they are
    the same infinity. *)
Lemma sub_nan_same a b :
  is_nan a = false -> is_nan b = false -> is_nan (a - b) = true -> a = b.
Proof.
  intros Na Nb H. apply is_nan_false in Na, Nb. apply is_nan_Prim2SF in H.
  rewrite sub_spec in H. apply Prim2SF_inj.
  pose proof (Prim2SF_valid a) as Va. pose proof (Prim2SF_valid b) as Vb.
  destruct (Prim2SF a) as [[] | [] | | sa ma ea], (Prim2SF b) as [[] | [] | | sb mb eb];
    try congruence; try discriminate H.
  exfalso. revert H. unfold SF64sub, SFsub.
  apply binary_normalize_emin_not_nan.
  apply valid_binary_emin in Va, Vb. lia.
Qed.

(** On a vertical edge at [x1] the crossing abscissa
    [(x1 - x1) * (y - yi) / (yj - yi) + x1] is [x1]. *)
Lemma SF_vertical_abscissa X1 A B :
  (match X1 with S754_zero _ | S754_finite _ _ _ => True | _ => False end) ->
  (match A with S754_zero _ | S754_finite _ _ _ => True | _ => False end) ->
  (match B with S754_infinity _ | S754_finite _ _ _ => True | _ => False end) ->
  SFeqb (SF64add (SF64div (SF64mul (SF64sub X1 X1) A) B) X1) X1 = true.
Proof.
  intros H1 HA HB.
  assert (E0 : exists s, SF64sub X1 X1 = S754_zero s).
  { destruct X1 as [[] | | | s m e]; try contradiction; try (eexists; reflexivity).
    exists false. unfold SF64sub, SFsub. now rewrite Z.sub_diag. }
  destruct E0 as [s0 ->].
  assert (E1 : exists s, SF64mul (S754_zero s0) A = S754_zero s).
  { destruct A as [sa | | | sa ma ea]; try contradiction; eexists; reflexivity. }
  destruct E1 as [s1 ->].
  assert (E2 : exists s, SF64div (S754_zero s1) B = S754_zero s).
  { destruct B as [| sb | | sb mb eb]; try contradiction; eexists; reflexivity. }
  destruct E2 as [s2 ->].
  destruct X1 as [s | | | s m e]; try contradiction.
  - destruct s2, s; reflexivity.
  - cbn [SF64add SFadd]. unfold SFeqb. now rewrite SFcompare_refl.
Qed.

Lemma vertical_edge_abscissa x1 y yi yj :
  finite x1 = true -> finite (y - yi) = true ->
  is_nan (yj - yi) = false -> is_zero (yj - yi) = false ->
  ((x1 - x1) * (y - yi) / (yj - yi) + x1 =? x1) = true.
Proof.
  unfold finite. intros Hx Ha Hb Hz.
  rewrite eqb_spec, add_spec, div_spec, mul_spec, (sub_spec x1 x1).
  apply is_nan_false in Hb.
  apply SF_vertical_abscissa.
  - destruct (Prim2SF x1); try discriminate; exact I.
  - destruct (Prim2SF (y - yi)); try discriminate; exact I.
  - destruct (Prim2SF (yj - yi)) as [s | | |] eqn:E; try congruence; try exact I.
    unfold is_zero in Hz. rewrite eqb_spec, E in Hz. discriminate.
Qed.

(** The crossing test of a vertical edge. *)
Lemma crosses_vertical x y x1 yi yj :
  finite x1 = true -> finite (y - yi) = true ->
  is_nan yi = false -> is_nan yj = false ->
  crosses x y x1 yi x1 yj = xorb (y <? yi) (y <? yj) && (x <? x1).
Proof.
  intros Hx Ha Ni Nj. unfold crosses.
  destruct (xorb (y <? yi) (y <? yj)) eqn:G; [| reflexivity]. cbn [andb].
  apply eqb_ltb_compat, vertical_edge_abscissa; try assumption.
  - destruct (is_nan (yj - yi)) eqn:N; [| reflexivity].
    apply (sub_nan_same yj yi Nj Ni) in N. subst yj.
    rewrite xorb_nilpotent in G. discriminate.
  - exact (guard_divisor_nonzero _ _ _ G).
Qed.

(** The crossing test of a horizontal edge. *)
Lemma crosses_horizontal x y xi xj y1 : crosses x y xi y1 xj y1 = false.
Proof. unfold crosses. now rewrite xorb_nilpotent. Qed.

Lemma ltb_leb_false y a b : (a <=? b) = true -> (y <? b) = false -> (y <? a) = false.
Proof.
  intros H1 H2. destruct (y <? a) eqn:E; [| reflexivity].
  rewrite (ltb_leb_trans _ _ _ E H1) in H2. discriminate.
Qed.

End CellBox.

(** ** The grid loop *)

Section GridFacts.

Variable cos_approx : float -> float.
Variable gridSizeMeters : float.
Variable radians : float -> float.
Variable cellInField : float -> float -> float -> float -> Ring -> bool.
Variable cellOptions : PathOptions.

Local Abbreviation cell := (candidateCell cos_approx gridSizeMeters radians cellOptions).
Local Abbreviation cellsUpTo := (candidateCells cos_approx gridSizeMeters radians cellOptions).
Local Abbreviation candGrid := (candidateGrid cos_approx gridSizeMeters radians cellOptions).
Local Abbreviation grid :=
  (fieldGrid cos_approx gridSizeMeters radians cellInField cellOptions).

Lemma in_candidateCells bounds rows cols c :
  In c (cellsUpTo bounds rows cols) <->
  (row c < rows)%nat /\ (col c < cols)%nat /\ c = cell bounds (row c) (col c).
Proof.
  unfold candidateCells. rewrite in_flat_map. split.
  - intros (i & Hi & Hc). apply in_map_iff in Hc as (j & <- & Hj).
    apply in_seq in Hi, Hj. cbn [row col candidateCell]. repeat split; lia.
  - intros (Hi & Hj & Hc). exists (row c). split; [apply in_seq; lia |].
    apply in_map_iff. exists (col c). split; [now symmetry | apply in_seq; lia].
Qed.


Lemma candidateCells_length bounds rows cols :
  List.length (cellsUpTo bounds rows cols) = (rows * cols)%nat.
Proof.
  unfold candidateCells. generalize 0%nat at 2.
  induction rows as [| rows IH]; intros start; cbn [seq flat_map].
  - reflexivity.
  - rewrite length_app, length_map, length_seq, IH. reflexivity.
Qed.

(** A returned candidate grid is the full [rows] by [cols] rectangle; the
    column bound is read only when there is a row. *)
Lemma candidateGrid_returns bounds cands :
  candGrid bounds = Returns cands ->
  exists rows, JS.loopCount (latCells gridSizeMeters bounds) = Some rows /\
    ((rows = 0%nat /\ cands = []) \/
     exists cols,
       JS.loopCount (lngCells cos_approx gridSizeMeters radians bounds) = Some cols /\
       cands = cellsUpTo bounds rows cols).
Proof.
  unfold candidateGrid.
  destruct (JS.loopCount (latCells gridSizeMeters bounds)) as [rows |]; [| discriminate].
  intros H. exists rows. split; [reflexivity |].
  destruct rows as [| rows]; [left; split; congruence |].
  destruct (JS.loopCount (lngCells cos_approx gridSizeMeters radians bounds)) as [cols |];
    [| discriminate].
  right. exists cols. split; congruence.
Qed.

(** The returned grid is the candidate grid filtered by the membership test. *)
Lemma fieldGrid_returns coords cells :
  grid coords = Returns cells ->
  exists bounds cands,
    getBoundsFromCoordinates coords = Some bounds /\
    candGrid bounds = Returns cands /\
    cells = filter (included cellInField coords) cands.
Proof.
  unfold fieldGrid.
  destruct (getBoundsFromCoordinates coords) as [bounds |]; [| discriminate].
  destruct (candGrid bounds) as [cands | |] eqn:Hc; cbn [mapOutcome]; try discriminate.
  intros H. exists bounds, cands. repeat split; congruence.
Qed.

(** Where a cell of the returned grid comes from. *)
Lemma in_fieldGrid coords bounds cells c :
  getBoundsFromCoordinates coords = Some bounds ->
  grid coords = Returns cells ->
  In c cells ->
  exists rows cols,
    JS.loopCount (latCells gridSizeMeters bounds) = Some rows /\
    JS.loopCount (lngCells cos_approx gridSizeMeters radians bounds) = Some cols /\
    candGrid bounds = Returns (cellsUpTo bounds rows cols) /\
    (row c < rows)%nat /\ (col c < cols)%nat /\
    c = cell bounds (row c) (col c) /\
    included cellInField coords c = true.
Proof.
  intros Hb Hg Hin.
  apply fieldGrid_returns in Hg as (bounds' & cands & Hb' & Hc & ->).
  rewrite Hb in Hb'. injection Hb' as <-.
  apply filter_In in Hin as [Hin Hinc].
  pose proof Hc as Hc'.
  apply candidateGrid_returns in Hc' as (rows & Hrows & [[_ ->] | (cols & Hcols & ->)]);
    [destruct Hin |].
  apply in_candidateCells in Hin as (Hi & Hj & Heq).
  exists rows, cols. repeat split; assumption.
Qed.

End GridFacts.

(** [generateFieldGrid] of a script on a polygon with outer ring [ring]. *)
Lemma generateFieldGrid_polygon s cos_approx ring cells :
  generateFieldGrid s cos_approx (polygonOf ring) = Returns (Some cells) <->
  fieldGrid cos_approx (gridSizeMetersOf s) (radiansOf s) (cellInFieldOf s)
    (cellOptionsOf s) ring = Returns cells.
Proof.
  destruct s; cbn [generateFieldGrid];
    unfold Main.generateFieldGrid, Mobile.generateFieldGrid, generateFieldGridWith, polygonOf;
    cbn [coordinates gridSizeMetersOf radiansOf cellInFieldOf cellOptionsOf];
    match goal with |- context [mapOutcome Some ?g] => destruct g end;
    cbn [mapOutcome]; split; intros H; try discriminate; congruence.
Qed.

(** Where a cell of a script's grid comes from. *)
Lemma in_generateFieldGrid s cos_approx ring bounds cells c :
  getBoundsFromCoordinates ring = Some bounds ->
  generateFieldGrid s cos_approx (polygonOf ring) = Returns (Some cells) ->
  In c cells ->
  exists rows cols,
    rowCount s bounds = Some rows /\
    columnCount s cos_approx bounds = Some cols /\
    candidatesOf s cos_approx bounds
      = Returns (candidateCells cos_approx (gridSizeMetersOf s) (radiansOf s)
                   (cellOptionsOf s) bounds rows cols) /\
    (row c < rows)%nat /\ (col c < cols)%nat /\
    c = candidateCell cos_approx (gridSizeMetersOf s) (radiansOf s) (cellOptionsOf s)
          bounds (row c) (col c) /\
    cellInFieldOf s (cellLat1 c) (cellLng1 c) (cellLat2 c) (cellLng2 c) ring = true.
Proof.
  intros Hb Hg Hin. apply generateFieldGrid_polygon in Hg.
  exact (in_fieldGrid _ _ _ _ _ _ _ _ _ Hb Hg Hin).
Qed.

(** [generateFieldGrid] on a polygon whose outer ring has a bounding box. *)
Lemma generateFieldGrid_bounds s cos_approx ring bounds :
  getBoundsFromCoordinates ring = Some bounds ->
  generateFieldGrid s cos_approx (polygonOf ring)
  = mapOutcome Some
      (mapOutcome (filter (included (cellInFieldOf s) ring))
         (candidatesOf s cos_approx bounds)).
Proof.
  intros Hb.
  destruct s; cbn [generateFieldGrid];
    unfold Main.generateFieldGrid, Mobile.generateFieldGrid, generateFieldGridWith,
      polygonOf, fieldGrid, candidatesOf;
    cbn [coordinates]; rewrite Hb; reflexivity.
Qed.

(** ** Cell numbers *)

(** The binary64 evaluation of [i * lngCells + j + 1] is the integer it
    reads as, exactly, for every cell of a grid of fewer than 2^53 cells. *)
Lemma cellNumber_binary64 (lngCells : float) rows cols i j :
  JS.loopCount lngCells = Some cols ->
  (exists q, lngCells = JS.Math_ceil q) ->
  (i < rows)%nat -> (j < cols)%nat ->
  (Z.of_nat rows * Z.of_nat cols < 2 ^ 53)%Z ->
  cellNumber lngCells i j
  = JS.floatOfZ (Z.of_nat i * Z.of_nat cols + Z.of_nat j + 1).
Proof.
  intros Hcols [q ->] Hi Hj Hsize.
  destruct cols as [| n]; [lia |].
  rewrite (loopCount_Math_ceil _ _ Hcols).
  unfold cellNumber, JS.floatOfNat.
  assert (Hic : (Z.of_nat i * Z.of_nat (S n) + Z.of_nat j + 1 <= Z.of_nat rows * Z.of_nat (S n))%Z)
    by nia.
  rewrite floatOfZ_mul by nia.
  rewrite floatOfZ_add by nia.
  change 1%float with (JS.floatOfZ 1).
  rewrite floatOfZ_add by nia.
  reflexivity.
Qed.

(** A column bound that let the inner loop run is the Number of the column
    count. *)
Lemma lngCells_floatOfNat cos_approx g r bounds cols :
  JS.loopCount (lngCells cos_approx g r bounds) = Some cols -> (0 < cols)%nat ->
  lngCells cos_approx g r bounds = JS.floatOfNat cols.
Proof.
  intros H Hpos. destruct cols as [| n]; [lia |].
  unfold lngCells in *. now apply loopCount_Math_ceil.
Qed.

(** The Numbers of the positive integers below 2^53 are ordered as the
    integers are. *)
Lemma floatOfZ_ltb a b :
  (0 < a)%Z -> (a < b)%Z -> (b < 2 ^ 53)%Z ->
  (JS.floatOfZ a <? JS.floatOfZ b)%float = true.
Proof.
  intros Ha Hab Hb.
  destruct a as [| p | p]; try lia. destruct b as [| q | q]; try lia.
  rewrite ltb_spec, !Prim2SF_floatOfZ_pos by lia.
  pose proof (digits2_pos_bounds p) as [Hp1 Hp2].
  pose proof (digits2_pos_bounds q) as [Hq1 Hq2].
  assert (Dp : (Z.pos (digits2_pos p) <= 53)%Z) by (apply digits_le_53; lia).
  assert (Dq : (Z.pos (digits2_pos q) <= 53)%Z) by (apply digits_le_53; lia).
  unfold canonPos, SFltb, SFcompare.
  set (dp := Z.pos (digits2_pos p)) in *. set (dq := Z.pos (digits2_pos q)) in *.
  assert (Hd : (dp <= dq)%Z).
  { destruct (Z_le_gt_dec dp dq) as [H | H]; [exact H | exfalso].
    assert (2 ^ dq <= 2 ^ (dp - 1))%Z by (apply Z.pow_le_mono_r; lia). lia. }
  destruct (Z.compare (dp - 53) (dq - 53)) eqn:C.
  - apply Z.compare_eq in C. assert (E : dq = dp) by lia. rewrite E.
    assert (L : (Z.pos (shiftlPos p (53 - dp)) < Z.pos (shiftlPos q (53 - dp)))%Z).
    { rewrite !shiftlPos_Z by lia.
      apply Z.mul_lt_mono_pos_r; [apply Z.pow_pos_nonneg; lia | lia]. }
    change (Pos.compare (shiftlPos p (53 - dp)) (shiftlPos q (53 - dp)) = Lt) in L.
    change (Pos.compare_cont Eq ?x ?y) with (Pos.compare x y). now rewrite L.
  - reflexivity.
  - apply Z.compare_gt_iff in C. lia.
Qed.

Lemma increasing_app l1 l2 :
  increasing l1 -> increasing l2 ->
  (forall x y, In x l1 -> In y l2 -> (x <? y)%float = true) ->
  increasing (l1 ++ l2).
Proof.
  induction l1 as [| a l1 IH]; intros H1 H2 H; [exact H2 |].
  cbn [app increasing]. destruct H1 as [Ha H1]. split.
  - apply Forall_app. split; [exact Ha |].
    apply Forall_forall. intros y Hy. apply H; [now left | exact Hy].
  - apply IH; try assumption. intros x y Hx Hy. apply H; [now right | exact Hy].
Qed.

Lemma increasing_filter (A : Type) (f : A -> bool) (g : A -> float) l :
  increasing (map g l) -> increasing (map g (filter f l)).
Proof.
  induction l as [| a l IH]; [exact id |].
  cbn [map increasing filter]. intros [Ha H].
  destruct (f a); [| now apply IH].
  cbn [map increasing]. split; [| now apply IH].
  apply Forall_forall. intros y Hy. rewrite Forall_forall in Ha. apply Ha.
  apply in_map_iff in Hy as (c & <- & Hc). apply in_map. now apply filter_In in Hc.
Qed.

Lemma increasing_NoDup l : increasing l -> NoDup l.
Proof.
  induction l as [| a l IH]; [constructor |].
  intros [Ha H]. constructor; [| now apply IH].
  intros Hin. rewrite Forall_forall in Ha. specialize (Ha a Hin).
  rewrite ltb_irrefl in Ha. discriminate.
Qed.


Lemma increasing_injective (cells : list GridCell) :
  increasing (map number cells) ->
  forall c d, In c cells -> In d cells -> number c = number d -> c = d.
Proof.
  induction cells as [| a cells IH]; intros Hinc c d Hc Hd E; [destruct Hc |].
  destruct Hinc as [Ha Hinc]. rewrite Forall_forall in Ha.
  destruct Hc as [<- | Hc], Hd as [<- | Hd]; try reflexivity.
  - specialize (Ha (number d) (in_map number _ _ Hd)).
    rewrite E, ltb_irrefl in Ha. discriminate.
  - specialize (Ha (number c) (in_map number _ _ Hc)).
    rewrite <- E, ltb_irrefl in Ha. discriminate.
  - now apply IH.
Qed.

Section GridNumbers.

Variable cos_approx : float -> float.
Variable gridSizeMeters : float.
Variable radians : float -> float.
Variable cellOptions : PathOptions.

Local Abbreviation cell := (candidateCell cos_approx gridSizeMeters radians cellOptions).

(** A candidate grid of [rows] by [cols] cells, fewer than 2^53. *)
Variable bounds : Bounds.
Variables rows cols : nat.
Hypothesis Hcols :
  JS.loopCount (lngCells cos_approx gridSizeMeters radians bounds) = Some cols.
Hypothesis Hsize : (Z.of_nat rows * Z.of_nat cols < 2 ^ 53)%Z.

Lemma number_candidateCell i j :
  (i < rows)%nat -> (j < cols)%nat ->
  number (cell bounds i j) = JS.floatOfZ (Z.of_nat i * Z.of_nat cols + Z.of_nat j + 1).
Proof.
  intros Hi Hj. cbn [number candidateCell].
  apply (cellNumber_binary64 _ rows); try assumption.
  unfold lngCells. eexists. reflexivity.
Qed.

Lemma number_candidateCell_lt i j i' j' :
  (i < rows)%nat -> (j < cols)%nat -> (i' < rows)%nat -> (j' < cols)%nat ->
  (i * cols + j < i' * cols + j')%nat ->
  (number (cell bounds i j) <? number (cell bounds i' j'))%float = true.
Proof.
  intros Hi Hj Hi' Hj' Hlt. rewrite !number_candidateCell by assumption.
  apply floatOfZ_ltb; nia.
Qed.

Lemma increasing_row i start len :
  (i < rows)%nat -> (start + len <= cols)%nat ->
  increasing (map number (map (cell bounds i) (seq start len))).
Proof.
  intros Hi. revert start. induction len as [| len IH]; intros start H; [exact I |].
  cbn [seq map increasing]. split; [| apply IH; lia].
  apply Forall_forall. intros y Hy.
  apply in_map_iff in Hy as (c & <- & Hc). apply in_map_iff in Hc as (j & <- & Hj).
  apply in_seq in Hj. apply number_candidateCell_lt; lia.
Qed.

Lemma increasing_rows start len :
  (start + len <= rows)%nat ->
  increasing (map number
    (flat_map (fun i => map (cell bounds i) (seq 0 cols)) (seq start len))).
Proof.
  revert start. induction len as [| len IH]; intros start H; [exact I |].
  cbn [seq flat_map]. rewrite map_app. apply increasing_app.
  - apply increasing_row; lia.
  - apply IH. lia.
  - intros x y Hx Hy.
    apply in_map_iff in Hx as (c & <- & Hc). apply in_map_iff in Hc as (j & <- & Hj).
    apply in_map_iff in Hy as (d & <- & Hd). apply in_flat_map in Hd as (i & Hi & Hd).
    apply in_map_iff in Hd as (k & <- & Hk).
    apply in_seq in Hj, Hi, Hk. apply number_candidateCell_lt; nia.
Qed.

Lemma increasing_candidateCells :
  increasing (map number
    (candidateCells cos_approx gridSizeMeters radians cellOptions bounds rows cols)).
Proof. apply increasing_rows. lia. Qed.

End GridNumbers.

(** * Properties of the grid engine *)

(** ** Identity of a cell *)

Ltac in_list := repeat (first [ left; reflexivity | right ]).

(** C1 -- Identity stability.  The number of a cell of the returned grid is
    [cellNumber cols row col], the Number [row * cols + col + 1], where
    [cols] is the column count computed from the bounding box and the
    script's cell size alone; so two rings with the same bounding box, under
    the same script, give the same number to a cell (same row and column)
    that both grids contain. *)
Theorem identity_stability (s : Script) (cos_approx : float -> float)
  (ring1 ring2 : Ring) (bounds : Bounds)
  (cells1 cells2 : list GridCell) (c1 c2 : GridCell) :
  getBoundsFromCoordinates ring1 = Some bounds ->
  getBoundsFromCoordinates ring2 = Some bounds ->
  generateFieldGrid s cos_approx (polygonOf ring1) = Returns (Some cells1) ->
  generateFieldGrid s cos_approx (polygonOf ring2) = Returns (Some cells2) ->
  In c1 cells1 -> In c2 cells2 ->
  row c1 = row c2 -> col c1 = col c2 ->
  exists cols,
    columnCount s cos_approx bounds = Some cols /\
    number c1 = cellNumber (JS.floatOfNat cols) (row c1) (col c1) /\
    number c2 = cellNumber (JS.floatOfNat cols) (row c2) (col c2) /\
    number c1 = number c2.
Proof.
  intros Hb1 Hb2 Hg1 Hg2 Hin1 Hin2 Hrow Hcol.
  destruct (in_generateFieldGrid _ _ _ _ _ _ Hb1 Hg1 Hin1)
    as (rows1 & cols1 & _ & Hcols1 & _ & _ & Hj1 & Hc1 & _).
  destruct (in_generateFieldGrid _ _ _ _ _ _ Hb2 Hg2 Hin2)
    as (rows2 & cols2 & _ & Hcols2 & _ & _ & _ & Hc2 & _).
  pose proof Hcols1 as Hcols.
  rewrite Hcols1 in Hcols2. injection Hcols2 as <-.
  exists cols1.
  assert (L : lngCells cos_approx (gridSizeMetersOf s) (radiansOf s) bounds
              = JS.floatOfNat cols1) by (apply lngCells_floatOfNat; [exact Hcols | lia]).
  assert (N1 : number c1 = cellNumber (JS.floatOfNat cols1) (row c1) (col c1))
    by (rewrite Hc1 at 1; cbn [number candidateCell]; now rewrite L).
  assert (N2 : number c2 = cellNumber (JS.floatOfNat cols1) (row c2) (col c2))
    by (rewrite Hc2 at 1; cbn [number candidateCell]; now rewrite L).
  repeat split; try assumption.
  rewrite N1, N2, Hrow, Hcol. reflexivity.
Qed.

Lemma identity_stability_witness :
  exists cols,
    columnCount MainJs Examples.unusedCos Examples.triangleBounds = Some cols /\
    number Examples.triangleCell
      = cellNumber (JS.floatOfNat cols)
          (row Examples.triangleCell) (col Examples.triangleCell) /\
    number Examples.triangleCell
      = cellNumber (JS.floatOfNat cols)
          (row Examples.triangleCell) (col Examples.triangleCell) /\
    number Examples.triangleCell = number Examples.triangleCell.
Proof.
  eapply (identity_stability MainJs Examples.unusedCos
            Examples.triangle Examples.mirrored Examples.triangleBounds).
  - vm_compute; reflexivity.
  - vm_compute; reflexivity.
  - vm_compute; reflexivity.
  - vm_compute; reflexivity.
  - vm_compute; in_list.
  - vm_compute; in_list.
  - reflexivity.
  - reflexivity.
Defined.


(** ** Metres to degrees *)

Lemma getBounds_center coords bounds :
  getBoundsFromCoordinates coords = Some bounds ->
  lat (b_center bounds) = ((lat (b_min bounds) + lat (b_max bounds)) / 2)%float.
Proof.
  unfold getBoundsFromCoordinates. destruct coords as [| [lng0 lat0] rest]; [discriminate |].
  cbv beta iota.
  destruct (fold_left _ _ _) as [[[minLat maxLat] minLng] maxLng].
  intros H. injection H as <-. reflexivity.
Qed.

(** C6 -- Coordinate conversion.  The corners of every cell of the grid
    are laid out from the south-west corner of the bounding box in steps of
    [gridSizeMeters] times the scale factors, where the latitude scale is
    the constant [1 / 111320] and the longitude scale is
    [1 / (111320 * Math.cos(radians(referenceLatitude)))] with
    [referenceLatitude] the latitude of the centre of the bounding box;
    [main.js] converts to radians as [degrees * Math.PI / 180], [mobile.js]
    as [Math.PI / 180 * degrees]. *)
Theorem coordinate_conversion (s : Script) (cos_approx : float -> float)
  (ring : Ring) (bounds : Bounds) (cells : list GridCell) (c : GridCell) :
  getBoundsFromCoordinates ring = Some bounds ->
  generateFieldGrid s cos_approx (polygonOf ring) = Returns (Some cells) ->
  In c cells ->
  exists referenceLatitude latDegreePerMeter lngDegreePerMeter : float,
    referenceLatitude = ((lat (b_min bounds) + lat (b_max bounds)) / 2)%float /\
    latDegreePerMeter = (1 / 111320)%float /\
    lngDegreePerMeter
      = (1 / (111320 * JS.Math_cos cos_approx
                         match s with
                         | MainJs => referenceLatitude * JS.Math_PI / 180
                         | MobileJs => JS.Math_PI / 180 * referenceLatitude
                         end))%float /\
    cellLat1 c = (lat (b_min bounds)
                  + JS.floatOfNat (row c) * (gridSizeMetersOf s * latDegreePerMeter))%float /\
    cellLat2 c = (lat (b_min bounds)
                  + (JS.floatOfNat (row c) + 1) * (gridSizeMetersOf s * latDegreePerMeter))%float /\
    cellLng1 c = (lng (b_min bounds)
                  + JS.floatOfNat (col c) * (gridSizeMetersOf s * lngDegreePerMeter))%float /\
    cellLng2 c = (lng (b_min bounds)
                  + (JS.floatOfNat (col c) + 1) * (gridSizeMetersOf s * lngDegreePerMeter))%float.
Proof.
  intros Hb Hg Hin.
  destruct (in_generateFieldGrid _ _ _ _ _ _ Hb Hg Hin)
    as (rows & cols & _ & _ & _ & _ & _ & Hc & _).
  exists (lat (b_center bounds)), (latDegreePerMeter),
    (lngDegreePerMeter cos_approx (radiansOf s) bounds).
  split; [exact (getBounds_center _ _ Hb) |].
  split; [reflexivity |].
  split; [destruct s; reflexivity |].
  repeat split; rewrite Hc at 1; reflexivity.
Qed.

Lemma coordinate_conversion_witness :
  exists referenceLatitude latDegreePerMeter lngDegreePerMeter : float,
    referenceLatitude
      = ((lat (b_min Examples.triangleBounds) + lat (b_max Examples.triangleBounds)) / 2)%float /\
    latDegreePerMeter = (1 / 111320)%float /\
    lngDegreePerMeter
      = (1 / (111320 * JS.Math_cos Examples.unusedCos
                         (referenceLatitude * JS.Math_PI / 180)))%float /\
    cellLat1 Examples.triangleCell
      = (lat (b_min Examples.triangleBounds)
         + JS.floatOfNat (row Examples.triangleCell)
           * (gridSizeMetersOf MainJs * latDegreePerMeter))%float /\
    cellLat2 Examples.triangleCell
      = (lat (b_min Examples.triangleBounds)
         + (JS.floatOfNat (row Examples.triangleCell) + 1)
           * (gridSizeMetersOf MainJs * latDegreePerMeter))%float /\
    cellLng1 Examples.triangleCell
      = (lng (b_min Examples.triangleBounds)
         + JS.floatOfNat (col Examples.triangleCell)
           * (gridSizeMetersOf MainJs * lngDegreePerMeter))%float /\
    cellLng2 Examples.triangleCell
      = (lng (b_min Examples.triangleBounds)
         + (JS.floatOfNat (col Examples.triangleCell) + 1)
           * (gridSizeMetersOf MainJs * lngDegreePerMeter))%float.
Proof.
  eapply (coordinate_conversion MainJs Examples.unusedCos Examples.triangle).
  - vm_compute; reflexivity.
  - vm_compute; reflexivity.
  - vm_compute; in_list.
Defined.

(** ** Ray casting *)

Section RayCastingFacts.

Variables X Y : Point -> float.

Lemma crossesChecked_total x y xi yi xj yj :
  crossesChecked x y xi yi xj yj = Some (crosses x y xi yi xj yj).
Proof.
  unfold crossesChecked, crosses.
  destruct (xorb (y <? yi)%float (y <? yj)%float) eqn:Hg; [| reflexivity].
  rewrite (guard_divisor_nonzero _ _ _ Hg). reflexivity.
Qed.

Lemma rayLoopChecked_total x y rest : forall pj inside,
  rayLoopChecked X Y x y pj rest inside = Some (rayLoop X Y x y pj rest inside).
Proof.
  induction rest as [| pi rest IH]; intros pj inside; cbn [rayLoopChecked rayLoop].
  - reflexivity.
  - rewrite crossesChecked_total. apply IH.
Qed.

Lemma rayCastChecked_total point polygon :
  rayCastChecked X Y point polygon = Some (rayCast X Y point polygon).
Proof.
  destruct polygon as [| p0 rest]; [reflexivity |].
  unfold rayCastChecked, rayCast. apply rayLoopChecked_total.
Qed.

Lemma parity_cons c e es : parity c (e :: es) = xorb (c e) (parity c es).
Proof. reflexivity. Qed.

Lemma parity_app c es1 es2 :
  parity c (es1 ++ es2) = xorb (parity c es1) (parity c es2).
Proof.
  induction es1 as [| e es1 IH]; cbn [app].
  - now rewrite xorb_false_l.
  - now rewrite !parity_cons, IH, xorb_assoc.
Qed.

Lemma parity_rev c es : parity c (rev es) = parity c es.
Proof.
  induction es as [| e es IH]; [reflexivity |].
  cbn [rev]. rewrite parity_app, IH, !parity_cons.
  change (parity c []) with false.
  rewrite xorb_false_r. apply xorb_comm.
Qed.

Lemma parity_map c (f : Point * Point -> Point * Point) es :
  parity c (map f es) = parity (fun e => c (f e)) es.
Proof.
  induction es as [| e es IH]; [reflexivity |].
  cbn [map]. rewrite !parity_cons. f_equal. exact IH.
Qed.

Lemma parity_ext c1 c2 es :
  Forall (fun e => c1 e = c2 e) es -> parity c1 es = parity c2 es.
Proof.
  induction 1 as [| e es He _ IH]; [reflexivity |].
  rewrite !parity_cons. f_equal; assumption.
Qed.

Lemma rayLoop_parity x y rest : forall pj inside,
  rayLoop X Y x y pj rest inside
  = xorb inside (parity (crossesEdge X Y x y) (edgesFrom pj rest)).
Proof.
  induction rest as [| pi rest IH]; intros pj inside; cbn [rayLoop edgesFrom].
  - change (parity (crossesEdge X Y x y) []) with false. now rewrite xorb_false_r.
  - rewrite IH, parity_cons. unfold crossesEdge at 2. cbn [fst snd].
    destruct (crosses x y (X pi) (Y pi) (X pj) (Y pj)), inside,
      (parity (crossesEdge X Y x y) (edgesFrom pi rest)); reflexivity.
Qed.

Lemma rayCast_parity point polygon :
  rayCast X Y point polygon
  = parity (crossesEdge X Y (X point) (Y point)) (edgesOf polygon).
Proof.
  destruct polygon as [| p0 rest]; [reflexivity |].
  unfold rayCast, edgesOf. rewrite rayLoop_parity. apply xorb_false_l.
Qed.

Lemma last_cons (p : Point) rest d : last (p :: rest) d = last rest p.
Proof.
  revert p d. induction rest as [| q rest IH]; intros p d; [reflexivity |].
  change (last (p :: q :: rest) d) with (last (q :: rest) d).
  change (last (q :: rest) p) with (last (q :: rest) p).
  now rewrite (IH q d), (IH q p).
Qed.

Lemma edgesFrom_snoc rest : forall pj a,
  edgesFrom pj (rest ++ [a]) = edgesFrom pj rest ++ [(a, last rest pj)].
Proof.
  induction rest as [| p rest IH]; intros pj a; [reflexivity |].
  cbn [app edgesFrom]. now rewrite IH, last_cons.
Qed.

Lemma last_rev (l : list Point) d : last (rev l) d = hd d l.
Proof.
  destruct l as [| p rest]; [reflexivity |].
  cbn [rev hd]. apply last_last.
Qed.

(** The edges of the reversed vertex list are the reversed edges, end for
    end, up to the position of the closing edge. *)
Lemma edgesFrom_rev l : forall p0 q,
  edgesFrom q (rev l) ++ [(p0, hd q l)]
  = (last l p0, q) :: map swapEdge (rev (edgesFrom p0 l)).
Proof.
  induction l as [| a l IH]; intros p0 q; [reflexivity |].
  cbn [rev hd edgesFrom]. rewrite edgesFrom_snoc, last_rev, <- app_assoc.
  cbn [app]. rewrite map_app. cbn [map swapEdge fst snd].
  rewrite last_cons.
  change (edgesFrom q (rev l) ++ [(a, hd q l); (p0, a)])
    with (edgesFrom q (rev l) ++ [(a, hd q l)] ++ [(p0, a)]).
  rewrite app_assoc, IH. reflexivity.
Qed.

(** Reversing the vertex list swaps the ends of every edge and keeps the
    set of edges: the result is the parity of the crossing tests of the same
    edges, each taken from its other end. *)
Lemma rayCast_rev_swapped point polygon :
  rayCast X Y point (rev polygon)
  = parity (fun e => crossesEdge X Y (X point) (Y point) (swapEdge e)) (edgesOf polygon).
Proof.
  rewrite rayCast_parity.
  destruct polygon as [| a l]; [reflexivity |].
  set (c := crossesEdge X Y (X point) (Y point)).
  set (z := last (a :: l) a).
  assert (Hrev : edgesOf (rev (a :: l)) = edgesFrom a (rev (a :: l))).
  { unfold edgesOf. destruct (rev (a :: l)) as [| r0 rl] eqn:E.
    - reflexivity.
    - rewrite <- E, last_rev. reflexivity. }
  pose proof (edgesFrom_rev (a :: l) z a) as Hid.
  cbn [hd] in Hid.
  assert (Hp : parity c (edgesFrom a (rev (a :: l)) ++ [(z, a)])
               = parity c ((last (a :: l) z, a)
                            :: map swapEdge (rev (edgesFrom z (a :: l)))))
    by (rewrite Hid; reflexivity).
  rewrite parity_app, !parity_cons in Hp.
  change (parity c []) with false in Hp.
  rewrite xorb_false_r in Hp.
  assert (Hz : last (a :: l) z = z) by (unfold z; rewrite !last_cons; reflexivity).
  rewrite Hz in Hp.
  rewrite Hrev.
  assert (Hpar : parity c (edgesFrom a (rev (a :: l)))
                 = parity c (map swapEdge (rev (edgesFrom z (a :: l))))).
  { destruct (parity c (edgesFrom a (rev (a :: l)))), (c (z, a)),
      (parity c (map swapEdge (rev (edgesFrom z (a :: l))))); cbn in Hp;
      congruence. }
  rewrite Hpar, parity_map, parity_rev. reflexivity.
Qed.

(** The result changes only if some crossing test does. *)
Lemma rayCast_rev point polygon :
  Forall (symmetricEdge X Y point) (edgesOf polygon) ->
  rayCast X Y point (rev polygon) = rayCast X Y point polygon.
Proof.
  intros Hsym. rewrite rayCast_rev_swapped, rayCast_parity.
  apply parity_ext. revert Hsym. apply Forall_impl.
  intros e He. unfold crossesEdge, swapEdge. cbn [fst snd].
  symmetry. exact He.
Qed.

(** The parities of two tests differ by the parity of their difference. *)
Lemma parity_xorb c1 c2 es :
  parity c2 es = xorb (parity c1 es) (parity (fun e => xorb (c1 e) (c2 e)) es).
Proof.
  induction es as [| e es IH]; [reflexivity |].
  rewrite !parity_cons, IH.
  destruct (c1 e), (c2 e), (parity c1 es), (parity (fun e => xorb (c1 e) (c2 e)) es);
    reflexivity.
Qed.

(** The crossing test is its guard and its abscissa test; the guard is the
    same from either end of the edge. *)
Lemma crossesEdge_split x y e :
  crossesEdge X Y x y e = straddles Y y e && leftOf X Y x y e.
Proof. reflexivity. Qed.

Lemma straddles_swapEdge y e : straddles Y y (swapEdge e) = straddles Y y e.
Proof. unfold straddles, swapEdge. cbn [fst snd]. apply xorb_comm. Qed.

(** The results for a vertex list and its reverse differ by the parity of
    the straddling edges whose abscissa test differs between the ends. *)
Lemma rayCast_rev_difference point polygon :
  rayCast X Y point (rev polygon)
  = xorb (rayCast X Y point polygon)
      (parity (fun e => straddles Y (Y point) e
                        && xorb (leftOf X Y (X point) (Y point) e)
                             (leftOf X Y (X point) (Y point) (swapEdge e)))
         (edgesOf polygon)).
Proof.
  rewrite rayCast_rev_swapped, rayCast_parity.
  rewrite (parity_xorb (crossesEdge X Y (X point) (Y point))
             (fun e => crossesEdge X Y (X point) (Y point) (swapEdge e))).
  f_equal. apply parity_ext. apply Forall_forall. intros e _.
  rewrite !crossesEdge_split, straddles_swapEdge.
  destruct (straddles Y (Y point) e), (leftOf X Y (X point) (Y point) e),
    (leftOf X Y (X point) (Y point) (swapEdge e)); reflexivity.
Qed.

End RayCastingFacts.

(** [mobile.js] reads its [[lat, lng]] arrays the other way round, which
    gives the test of [main.js] on the [[lng, lat]] arrays. *)
Lemma rayLoop_swapped x y rest : forall pj inside,
  rayLoop snd fst x y (snd pj, fst pj) (map (fun c : Point => (snd c, fst c)) rest) inside
  = rayLoop fst snd x y pj rest inside.
Proof.
  induction rest as [| pi rest IH]; intros pj inside; [reflexivity |].
  cbn [map rayLoop fst snd]. apply IH.
Qed.

Lemma last_swapped (l : list Point) d :
  last (map (fun c : Point => (snd c, fst c)) l) (snd d, fst d)
  = (snd (last l d), fst (last l d)).
Proof.
  induction l as [| p l IH]; [reflexivity |].
  destruct l as [| q l]; [reflexivity |].
  exact IH.
Qed.

Lemma Mobile_isPointInPolygon_swapped x y (coords : Ring) :
  Mobile.isPointInPolygon (y, x) (map (fun c : Point => (snd c, fst c)) coords)
  = Main.isPointInPolygon (x, y) coords.
Proof.
  unfold Mobile.isPointInPolygon, Main.isPointInPolygon, rayCast.
  destruct coords as [| p0 rest]; [reflexivity |].
  cbn [map fst snd].
  etransitivity; [| apply (rayLoop_swapped x y (p0 :: rest))].
  cbn [map]. f_equal. apply (last_swapped (p0 :: rest) p0).
Qed.

(** C10 -- Totality of the crossing test.  [isPointInPolygon] is a total
    function; on the empty vertex list it returns [false]; and evaluated
    with a division that fails on a zero divisor it never fails and returns
    the same boolean, because the division is reached only under the guard
    [(yi > y) !== (yj > y)], and the guard never holds together with
    [yj - yi] being zero or [yi] being equal to [yj]. *)
Theorem ray_casting_total (s : Script) (point : Point) (polygon : list Point) :
  isPointInPolygonCheckedOf s point polygon = Some (isPointInPolygonOf s point polygon)
  /\ isPointInPolygonOf s point [] = false
  /\ forall y yi yj : float,
       xorb (y <? yi)%float (y <? yj)%float
       && (is_zero (yj - yi)%float || (yi =? yj)%float) = false.
Proof.
  split; [destruct s; apply rayCastChecked_total |].
  split; [destruct s; reflexivity |].
  intros y yi yj.
  destruct (xorb (y <? yi)%float (y <? yj)%float) eqn:Hg; [| reflexivity].
  rewrite (guard_divisor_nonzero _ _ _ Hg). cbn [andb orb].
  destruct (yi =? yj)%float eqn:E; [exfalso | reflexivity].
  rewrite (eqb_ltb_compat y _ _ E), xorb_nilpotent in Hg. discriminate.
Qed.

(** C9, as stated, fails: with the ring (0,0), (1,3), (-1,3), (0,0) and the
    point (1/3, 1), which binary64 places just left of the slanted edge,
    both scripts answer [true], and [false] once the ring is reversed.  The
    crossing abscissa of the edge from (0,0) to (1,3) at height 1 rounds to
    0.33333333333333331 from one end and to 0.33333333333333337 from the
    other. *)
Lemma winding_order_counterexample :
  Main.isPointInPolygon (1 / 3, 1)%float Examples.slanted = true /\
  Main.isPointInPolygon (1 / 3, 1)%float (rev Examples.slanted) = false /\
  Mobile.isPointInPolygon (1, 1 / 3)%float
    (map (fun c : Point => (snd c, fst c)) Examples.slanted) = true /\
  Mobile.isPointInPolygon (1, 1 / 3)%float
    (rev (map (fun c : Point => (snd c, fst c)) Examples.slanted)) = false.
Proof. repeat split; vm_compute; reflexivity. Qed.

(** On an upright edge that straddles the latitude of the point, the
    abscissa test is [x < xi] from either end. *)
Lemma finite_sub_not_nan a b :
  finite (a - b)%float = true -> is_nan a = false /\ is_nan b = false.
Proof.
  intros H. apply finite_not_nan, is_nan_false in H. rewrite sub_spec in H.
  split; apply is_nan_false; intros E; apply H; rewrite E; [reflexivity |].
  now destruct (Prim2SF a).
Qed.

Lemma leftOf_upright X Y x y e :
  straddles Y y e = true -> upright X Y y e ->
  leftOf X Y x y e = (x <? X (fst e))%float
  /\ leftOf X Y x y (swapEdge e) = (x <? X (fst e))%float.
Proof.
  intros G (Ex & Fx & Fi & Fj). unfold straddles in G.
  destruct (finite_sub_not_nan _ _ Fi) as [_ Ni].
  destruct (finite_sub_not_nan _ _ Fj) as [_ Nj].
  pose proof (crosses_vertical x y (X (fst e)) (Y (fst e)) (Y (snd e)) Fx Fi Ni Nj) as H1.
  pose proof (crosses_vertical x y (X (fst e)) (Y (snd e)) (Y (fst e)) Fx Fj Nj Ni) as H2.
  unfold crosses in H1, H2. rewrite G in H1. rewrite xorb_comm in G. rewrite G in H2.
  cbn [andb] in H1, H2.
  unfold leftOf, swapEdge. cbn [fst snd]. rewrite <- Ex. split; assumption.
Qed.

Lemma upright_symmetric X Y point e :
  (straddles Y (Y point) e = true -> upright X Y (Y point) e) ->
  symmetricEdge X Y point e.
Proof.
  intros H. unfold symmetricEdge.
  change (crossesEdge X Y (X point) (Y point) e
          = crossesEdge X Y (X point) (Y point) (swapEdge e)).
  rewrite !crossesEdge_split, straddles_swapEdge.
  destruct (straddles Y (Y point) e) eqn:G; [| reflexivity].
  destruct (leftOf_upright X Y (X point) (Y point) e G (H eq_refl)) as [-> ->].
  reflexivity.
Qed.

(** C9, amended -- Winding order.  Reversing the vertex list makes the loop
    visit the same edges with their ends exchanged: the guard
    [(yi > y) !== (yj > y)] of an edge is the same from either end, and the
    abscissa [(xj - xi) * (y - yi) / (yj - yi) + xi] is computed from the
    other end.  So, for every point and every ring, the results for the
    ring and for the reversed ring differ exactly when an odd number of the
    edges that straddle the latitude of the point have an abscissa test
    [x < ...] that answers differently from the two ends.  On an upright
    edge that straddles it -- the same finite [x] at both ends, finite
    differences [y - yi] and [y - yj] -- the test is [x < xi] from either
    end.  Hence [isPointInPolygon] returns the same boolean for the reversed
    ring whenever every straddling edge is upright, as in a rectangle along
    the axes or a grid cell. *)
Theorem winding_order_upright_edges (s : Script) (point : Point) (polygon : list Point) :
  isPointInPolygonOf s point (rev polygon)
  = xorb (isPointInPolygonOf s point polygon)
      (parity (fun e => straddles (yOf s) (yOf s point) e
                        && xorb (leftOf (xOf s) (yOf s) (xOf s point) (yOf s point) e)
                             (leftOf (xOf s) (yOf s) (xOf s point) (yOf s point)
                                (swapEdge e)))
         (edgesOf polygon))
  /\ (forall e,
        straddles (yOf s) (yOf s point) e = true ->
        upright (xOf s) (yOf s) (yOf s point) e ->
        leftOf (xOf s) (yOf s) (xOf s point) (yOf s point) e
        = (xOf s point <? xOf s (fst e))%float
        /\ leftOf (xOf s) (yOf s) (xOf s point) (yOf s point) (swapEdge e)
           = (xOf s point <? xOf s (fst e))%float)
  /\ (Forall (fun e => straddles (yOf s) (yOf s point) e = true ->
                       upright (xOf s) (yOf s) (yOf s point) e)
         (edgesOf polygon) ->
      isPointInPolygonOf s point (rev polygon) = isPointInPolygonOf s point polygon).
Proof.
  split; [destruct s; apply rayCast_rev_difference |].
  split; [intros e; apply leftOf_upright |].
  intros H.
  assert (Hsym : Forall (symmetricEdge (xOf s) (yOf s) point) (edgesOf polygon)).
  { apply (Forall_impl _ (upright_symmetric (xOf s) (yOf s) point)), H. }
  destruct s; now apply rayCast_rev.
Qed.

(** For the centre of the unit square the two upright edges of the square
    straddle its latitude, and the level ones do not. *)
Lemma winding_order_upright_edges_witness :
  isPointInPolygonOf MainJs (0.5, 0.5)%float (rev Examples.square)
  = isPointInPolygonOf MainJs (0.5, 0.5)%float Examples.square.
Proof.
  apply (proj2 (proj2 (winding_order_upright_edges MainJs (0.5, 0.5)%float
                         Examples.square))).
  repeat constructor; vm_compute; intros; try discriminate; repeat split.
Defined.

(** ** Membership of a cell *)

(** C3, as stated, fails for [main.js]: over the triangle its grid holds
    cells 1, 6, 11, 17, 18 and 19, each with a vertex inside the triangle
    and its centre outside.  Listed are the number of every cell of the
    grid, whether one of its vertices passes the test, and whether its
    centre does; the engine's cosine plays no part. *)
Lemma membership_counterexample :
  (fun cos_approx : float -> float =>
     map (fun c =>
            (number c,
             existsb (fun vertex => Main.isPointInPolygon vertex Examples.triangle) (ringOf c),
             Main.isPointInPolygon (centerOf c) Examples.triangle))
       (cellsOf (generateFieldGrid MainJs cos_approx (polygonOf Examples.triangle))))
  = (fun _ =>
       [ (1, true, false); (5, true, true); (6, true, false); (9, true, true);
         (10, true, true); (11, true, false); (13, true, true); (14, true, true);
         (15, true, true); (17, true, false); (18, true, false); (19, true, false) ]%float).
Proof. vm_compute. reflexivity. Qed.

Lemma included_membershipOf s ring c :
  included (cellInFieldOf s) ring c = membershipOf s ring c.
Proof.
  destruct s; unfold included, membershipOf; cbn [cellInFieldOf].
  - unfold Main.cellInField, Main.isPolygonWithinField. fold (ringOf c).
    now destruct (existsb _ (ringOf c)).
  - unfold Mobile.cellInField, centerOf. apply Mobile_isPointInPolygon_swapped.
Qed.

(** A returned grid is the candidate grid of [rows] by [cols] cells
    without the cells that fail the membership test. *)
Lemma grid_candidates s cos_approx ring bounds cells rows cols :
  getBoundsFromCoordinates ring = Some bounds ->
  generateFieldGrid s cos_approx (polygonOf ring) = Returns (Some cells) ->
  rowCount s bounds = Some rows ->
  columnCount s cos_approx bounds = Some cols ->
  candidatesOf s cos_approx bounds
    = Returns (candidateCells cos_approx (gridSizeMetersOf s) (radiansOf s)
                 (cellOptionsOf s) bounds rows cols)
  /\ cells = filter (membershipOf s ring)
               (candidateCells cos_approx (gridSizeMetersOf s) (radiansOf s)
                  (cellOptionsOf s) bounds rows cols).
Proof.
  intros Hb Hg Hrows Hcols. apply generateFieldGrid_polygon in Hg.
  apply fieldGrid_returns in Hg as (bounds' & cands & Hb' & Hc & Hcells).
  rewrite Hb in Hb'. injection Hb' as <-.
  assert (E : cands = candidateCells cos_approx (gridSizeMetersOf s) (radiansOf s)
                        (cellOptionsOf s) bounds rows cols).
  { unfold rowCount in Hrows. unfold columnCount in Hcols.
    unfold candidateGrid in Hc. rewrite Hrows in Hc.
    destruct rows as [| rows]; [now injection Hc as <- |].
    rewrite Hcols in Hc. now injection Hc as <-. }
  subst cands. split; [exact Hc |].
  rewrite Hcells. apply filter_ext. intros c. apply included_membershipOf.
Qed.

(** C3, amended -- Membership classification.  The returned grid is the
    list of candidate cells, in loop order, without the cells that fail the
    script's membership test.  For [mobile.js] that test is the ray-casting
    test of the one point at the centre of the cell against the Ring.  For
    [main.js] it is: some vertex of the cell's ring passes the ray-casting
    test against the Ring, or else the average of the Ring's vertices passes
    it against the cell's ring. *)
Theorem membership_classification (s : Script) (cos_approx : float -> float)
  (ring : Ring) (bounds : Bounds) (cells : list GridCell) :
  getBoundsFromCoordinates ring = Some bounds ->
  generateFieldGrid s cos_approx (polygonOf ring) = Returns (Some cells) ->
  exists cands,
    candidatesOf s cos_approx bounds = Returns cands /\
    cells = filter (membershipOf s ring) cands /\
    forall c, In c cells <-> In c cands /\ membershipOf s ring c = true.
Proof.
  intros Hb Hg. apply generateFieldGrid_polygon in Hg.
  apply fieldGrid_returns in Hg as (bounds' & cands & Hb' & Hc & Hcells).
  rewrite Hb in Hb'. injection Hb' as <-.
  assert (E : cells = filter (membershipOf s ring) cands).
  { rewrite Hcells. apply filter_ext. intros c. apply included_membershipOf. }
  exists cands. repeat split; try assumption.
  - rewrite E in H. now apply filter_In in H.
  - rewrite E in H. now apply filter_In in H.
  - intros [H1 H2]. rewrite E. now apply filter_In.
Qed.

Lemma membership_classification_witness :
  exists cands,
    candidatesOf MainJs Examples.unusedCos Examples.triangleBounds = Returns cands /\
    cellsOf (generateFieldGrid MainJs Examples.unusedCos (polygonOf Examples.triangle))
      = filter (membershipOf MainJs Examples.triangle) cands /\
    forall c,
      In c (cellsOf (generateFieldGrid MainJs Examples.unusedCos
                       (polygonOf Examples.triangle)))
      <-> In c cands /\ membershipOf MainJs Examples.triangle c = true.
Proof.
  apply (membership_classification MainJs Examples.unusedCos Examples.triangle).
  - vm_compute; reflexivity.
  - vm_compute; reflexivity.
Defined.

(** ** Row-major numbering *)






(** ** The degenerate ring *)

Lemma fold_boundsStep_repeat (lng0 lat0 : float) n :
  fold_left boundsStep (repeat (lng0, lat0) n) (lat0, lat0, lng0, lng0)
  = (lat0, lat0, lng0, lng0).
Proof.
  induction n as [| n IH]; [reflexivity |].
  cbn [repeat fold_left boundsStep].
  now rewrite !Math_min_idem, !Math_max_idem.
Qed.

Lemma getBounds_repeat (lng0 lat0 : float) n :
  getBoundsFromCoordinates (repeat (lng0, lat0) (S n))
  = Some {| b_min := {| lat := lat0; lng := lng0 |};
            b_max := {| lat := lat0; lng := lng0 |};
            b_center := {| lat := (lat0 + lat0) / 2; lng := (lng0 + lng0) / 2 |} |}.
Proof.
  unfold getBoundsFromCoordinates.
  change (repeat (lng0, lat0) (S n)) with ((lng0, lat0) :: repeat (lng0, lat0) n).
  cbv beta iota.
  change ((lng0, lat0) :: repeat (lng0, lat0) n) with (repeat (lng0, lat0) (S n)).
  now rewrite fold_boundsStep_repeat.
Qed.

(** C4, as stated, fails: for the ring of four points (0, 0) both counts
    are 0 in both scripts, and no candidate cell is produced, whatever the
    engine's cosine. *)
Lemma degenerate_ring_counterexample :
  getBoundsFromCoordinates Examples.dot = Some Examples.dotBounds /\
  rowCount MainJs Examples.dotBounds = Some 0%nat /\
  rowCount MobileJs Examples.dotBounds = Some 0%nat /\
  (fun cos_approx : float -> float =>
     (columnCount MainJs cos_approx Examples.dotBounds,
      columnCount MobileJs cos_approx Examples.dotBounds,
      candidatesOf MainJs cos_approx Examples.dotBounds,
      candidatesOf MobileJs cos_approx Examples.dotBounds))
  = (fun _ => (Some 0%nat, Some 0%nat, Returns [], Returns [])).
Proof. repeat split; vm_compute; reflexivity. Qed.

(** C4, amended -- Degenerate input.  For a ring whose points are all
    equal, whatever their coordinates, the differences [max - min] are 0 or
    NaN, so both [Math.ceil] counts are 0 or NaN and neither loop body
    runs: the row count and the column count are 0, there is no candidate
    cell, and [generateFieldGrid] returns an empty grid. *)
Theorem degenerate_ring_empty_grid (s : Script) (cos_approx : float -> float)
  (p : Point) (n : nat) :
  exists bounds,
    getBoundsFromCoordinates (repeat p (S n)) = Some bounds /\
    rowCount s bounds = Some 0%nat /\
    columnCount s cos_approx bounds = Some 0%nat /\
    candidatesOf s cos_approx bounds = Returns [] /\
    generateFieldGrid s cos_approx (polygonOf (repeat p (S n))) = Returns (Some []).
Proof.
  destruct p as [lng0 lat0]. eexists.
  split; [apply getBounds_repeat |].
  assert (Hrows : forall g,
    JS.loopCount (latCells g
      {| b_min := {| lat := lat0; lng := lng0 |};
         b_max := {| lat := lat0; lng := lng0 |};
         b_center := {| lat := (lat0 + lat0) / 2; lng := (lng0 + lng0) / 2 |} |})
    = Some 0%nat).
  { intros g. unfold latCells. cbn [lat b_min b_max].
    apply loopCount_ceil_zeroOrNaN, div_zeroOrNaN, sub_diag_zeroOrNaN. }
  split; [apply Hrows |].
  split.
  { unfold columnCount, lngCells. cbn [lng b_min b_max].
    apply loopCount_ceil_zeroOrNaN, div_zeroOrNaN, sub_diag_zeroOrNaN. }
  assert (Hcand : forall g r o,
    candidateGrid cos_approx g r o
      {| b_min := {| lat := lat0; lng := lng0 |};
         b_max := {| lat := lat0; lng := lng0 |};
         b_center := {| lat := (lat0 + lat0) / 2; lng := (lng0 + lng0) / 2 |} |}
    = Returns []).
  { intros g r o. unfold candidateGrid. now rewrite Hrows. }
  split; [apply Hcand |].
  apply generateFieldGrid_polygon. unfold fieldGrid.
  rewrite getBounds_repeat, Hcand. reflexivity.
Qed.

(** ** Status overlay *)

Lemma setStyle_idempotent style o :
  Main.setStyle style (Main.setStyle style o) = Main.setStyle style o.
Proof.
  destruct style as [[c |] [w |] [fc |] [fo |]]; reflexivity.
Qed.

Lemma restyle_idempotent style c :
  Main.restyle style (Main.restyle style c) = Main.restyle style c.
Proof.
  unfold Main.restyle. cbn [row col cellLat1 cellLng1 cellLat2 cellLng2 number layer].
  now rewrite setStyle_idempotent.
Qed.

Lemma updateGridStyles_idempotent mapping gridCells :
  Main.updateGridStylesFromMapping mapping
    (Main.updateGridStylesFromMapping mapping gridCells)
  = Main.updateGridStylesFromMapping mapping gridCells.
Proof.
  destruct mapping as [mapping |]; [| reflexivity].
  cbn [Main.updateGridStylesFromMapping]. rewrite map_map.
  apply map_ext. intros c.
  change (number (Main.restyle ?st c)) with (number c).
  apply restyle_idempotent.
Qed.

(** C8 -- Overlay idempotence.  Applying [updateGridStylesFromMapping]
    twice with the same mapping leaves every cell as one application does;
    so does ingesting the same snapshot twice. *)
Theorem overlay_idempotent (mapping : option Main.Mapping)
  (parse_rest : string -> float) (snapshot : option Main.Snapshot)
  (gridCells : list GridCell) :
  Main.updateGridStylesFromMapping mapping
    (Main.updateGridStylesFromMapping mapping gridCells)
  = Main.updateGridStylesFromMapping mapping gridCells
  /\
  Main.ingestGridDataFromRTDB parse_rest snapshot
    (Main.ingestGridDataFromRTDB parse_rest snapshot gridCells)
  = Main.ingestGridDataFromRTDB parse_rest snapshot gridCells.
Proof.
  split; [apply updateGridStyles_idempotent |].
  unfold Main.ingestGridDataFromRTDB.
  destruct snapshot as [[[entries |]] |]; cbn [Main.cells]; try reflexivity.
  apply updateGridStyles_idempotent.
Qed.

Section Telemetry.

Variable parse_rest : string -> float.

Local Abbreviation entryOf :=
  (fun e : string * Main.JsValue =>
     (Main.StringToNumber parse_rest (fst e),
      {| Main.status := Main.statusOf (Main.Number parse_rest (Main.moistureOf (snd e)));
         Main.value := Main.Number parse_rest (Main.moistureOf (snd e)) |})).

Lemma fold_ingestStep entries : forall mapping,
  fold_left (Main.ingestStep parse_rest) entries mapping
  = rev (map entryOf entries) ++ mapping.
Proof.
  induction entries as [| [key cell] entries IH]; intros mapping; [reflexivity |].
  cbn [fold_left map rev]. rewrite IH, <- app_assoc. reflexivity.
Qed.

Lemma buildMapping_rev entries :
  Main.buildMapping parse_rest entries = map entryOf (rev entries).
Proof.
  unfold Main.buildMapping. now rewrite fold_ingestStep, app_nil_r, map_rev.
Qed.

Lemma getProperty_map entries key :
  Main.getProperty (map entryOf entries) key
  = option_map (fun e => snd (entryOf e))
      (find (fun e => Main.sameKey (Main.StringToNumber parse_rest (fst e)) key) entries).
Proof.
  induction entries as [| e entries IH]; [reflexivity |].
  cbn [map Main.getProperty find fst snd].
  destruct (Main.sameKey (Main.StringToNumber parse_rest (fst e)) key); [reflexivity | exact IH].
Qed.

Lemma styleOf_statusOf moisture :
  Main.styleOf (Some {| Main.status := Main.statusOf moisture; Main.value := moisture |})
  = overlayStyle (Some moisture).
Proof.
  unfold Main.styleOf, Main.statusOf, overlayStyle. cbn [Main.status].
  destruct (JS.isNaN moisture); cbn [negb]; [reflexivity |].
  destruct (moisture <? 30)%float; [reflexivity |].
  destruct (moisture <? 40)%float; reflexivity.
Qed.

Lemma styleOf_buildMapping entries n :
  Main.styleOf (Main.getProperty (Main.buildMapping parse_rest entries) n)
  = overlayStyle (lastReading parse_rest entries n).
Proof.
  rewrite buildMapping_rev, getProperty_map. unfold lastReading.
  destruct (find _ (rev entries)) as [e |]; [| reflexivity].
  cbn [option_map snd]. apply styleOf_statusOf.
Qed.

End Telemetry.

(** C7, as stated, fails: the reading "dry" for cell 1 is classified [ok]
    and the cell gets the style of a healthy reading such as 55, not a
    "no data" state; only a cell without any entry keeps the default
    outline. *)
Lemma malformed_telemetry_counterexample :
  (fun parse_rest : string -> float =>
     (Main.buildMapping parse_rest
        [ ("1"%string,
           Main.JsObject [ ("moisture"%string, Main.JsString "dry") ]) ],
      Main.ingestGridDataFromRTDB parse_rest
        (Examples.snapshotOf (Main.JsString "dry")) [ Examples.cell1 ],
      Main.ingestGridDataFromRTDB parse_rest
        (Examples.snapshotOf (Main.JsNumber 55)) [ Examples.cell1 ]))
  = (fun _ =>
       ([ (1%float, {| Main.status := "ok"; Main.value := nan |}) ],
        [ Main.restyle Main.okStyle Examples.cell1 ],
        [ Main.restyle Main.okStyle Examples.cell1 ])).
Proof. vm_compute. reflexivity. Qed.

(** C7, amended -- Telemetry classification.  Ingesting a snapshot with a
    [cells] object never fails: it restyles every registered cell by the
    last entry whose key names the cell.  A cell with no such entry gets the
    default outline; one whose reading is not a number gets the [ok] style,
    as a reading of 40 or more does; a numeric reading below 30 gives
    [critical] and below 40 [warn].  The default outline differs from the
    [ok] style on every cell.  Without a snapshot or a [cells] object the
    cells are left as they are. *)
Theorem telemetry_classification (parse_rest : string -> float)
  (entries : list (string * Main.JsValue)) (gridCells : list GridCell) :
  Main.ingestGridDataFromRTDB parse_rest (Some {| Main.cells := Some entries |}) gridCells
  = map (fun c => Main.restyle (overlayStyle (lastReading parse_rest entries (number c))) c)
      gridCells
  /\ overlayStyle None = Main.defaultStyle
  /\ overlayStyle (Some nan) = Main.okStyle
  /\ (forall c, Main.restyle Main.defaultStyle c <> Main.restyle Main.okStyle c)
  /\ Main.ingestGridDataFromRTDB parse_rest None gridCells = gridCells
  /\ Main.ingestGridDataFromRTDB parse_rest (Some {| Main.cells := None |}) gridCells
     = gridCells.
Proof.
  split.
  { cbn [Main.ingestGridDataFromRTDB Main.cells Main.updateGridStylesFromMapping].
    apply map_ext. intros c. now rewrite styleOf_buildMapping. }
  repeat split.
  intros c H. apply (f_equal (fun c => color (layer c))) in H. discriminate H.
Qed.

(** ** The end-to-end scenario *)

(** The engine's cosine enters the grid through the longitude scale, at the
    reference latitude only. *)
Section ReferenceCosine.

Variables cos1 cos2 : float -> float.
Variable g : float.
Variable r : float -> float.
Variable o : PathOptions.
Variable bounds : Bounds.

Hypothesis Hcos :
  JS.Math_cos cos1 (r (lat (b_center bounds))) = JS.Math_cos cos2 (r (lat (b_center bounds))).

Lemma gridSizeLng_cos : gridSizeLng cos1 g r bounds = gridSizeLng cos2 g r bounds.
Proof. unfold gridSizeLng, lngDegreePerMeter. now rewrite Hcos. Qed.

Lemma lngCells_cos : lngCells cos1 g r bounds = lngCells cos2 g r bounds.
Proof. unfold lngCells. now rewrite gridSizeLng_cos. Qed.

Lemma candidateCells_cos rows cols :
  candidateCells cos1 g r o bounds rows cols = candidateCells cos2 g r o bounds rows cols.
Proof.
  unfold candidateCells. apply flat_map_ext. intros i. apply map_ext. intros j.
  unfold candidateCell. now rewrite gridSizeLng_cos, lngCells_cos.
Qed.

Lemma candidateGrid_cos : candidateGrid cos1 g r o bounds = candidateGrid cos2 g r o bounds.
Proof.
  unfold candidateGrid. rewrite lngCells_cos.
  destruct (JS.loopCount (latCells g bounds)) as [[| rows] |]; try reflexivity.
  destruct (JS.loopCount (lngCells cos2 g r bounds)); [| reflexivity].
  now rewrite candidateCells_cos.
Qed.

Lemma generateFieldGridWith_cos f ring :
  getBoundsFromCoordinates ring = Some bounds ->
  generateFieldGridWith cos1 g r f o (polygonOf ring)
  = generateFieldGridWith cos2 g r f o (polygonOf ring).
Proof.
  intros Hb. unfold generateFieldGridWith, polygonOf, fieldGrid. cbn [coordinates].
  now rewrite Hb, candidateGrid_cos.
Qed.

End ReferenceCosine.

(** The Numbers from 0.9482115921945451 to 0.9482115921945455: the cosine
    of the reference latitude of the plot, correctly rounded, and its two
    neighbours on either side. *)
Lemma plot_cosines (c : float) :
  (0x1.e57bfd6453cb4p-1 <=? c)%float = true ->
  (c <=? 0x1.e57bfd6453cb8p-1)%float = true ->
  In c [ 0x1.e57bfd6453cb4p-1; 0x1.e57bfd6453cb5p-1; 0x1.e57bfd6453cb6p-1;
         0x1.e57bfd6453cb7p-1; 0x1.e57bfd6453cb8p-1 ]%float.
Proof.
  intros Hlo Hhi.
  apply (leb_key 0) in Hlo as (_ & _ & Hlo). apply (leb_key 0) in Hhi as (_ & _ & Hhi).
  change (Prim2SF 0x1.e57bfd6453cb4p-1) with (S754_finite false 8540730746551476 (-53)) in Hlo.
  change (Prim2SF 0x1.e57bfd6453cb8p-1) with (S754_finite false 8540730746551480 (-53)) in Hhi.
  assert (E : exists k, (0 <= k <= 4)%Z /\
                Prim2SF c = S754_finite false (Z.to_pos (8540730746551476 + k)) (-53)).
  { destruct (Prim2SF c) as [[] | [] | | [] m e]; cbn [SFkey keylt3] in Hlo, Hhi; try lia.
    exists (Z.pos m - 8540730746551476)%Z. split; [lia |].
    replace (8540730746551476 + (Z.pos m - 8540730746551476))%Z with (Z.pos m) by lia.
    f_equal. lia. }
  destruct E as (k & Hk & E).
  assert (K : (k = 0 \/ k = 1 \/ k = 2 \/ k = 3 \/ k = 4)%Z) by lia.
  destruct K as [-> | [-> | [-> | [-> | ->]]]];
    [ left | right; left | do 2 right; left | do 3 right; left | do 4 right; left ];
    apply Prim2SF_inj; rewrite E; reflexivity.
Qed.

(** C5, as stated, fails in its row count: for the plot, 50 m high from
    latitude 18.52, and 10 m cells the quotient
    [(max.lat - min.lat) / gridSizeLat] is 5.0000000000095213 in binary64,
    so [Math.ceil] gives 6 rows, not 5, whatever the engine's cosine. *)
Lemma scenario_counterexample :
  getBoundsFromCoordinates Examples.plot = Some Examples.plotBounds /\
  ((lat (b_max Examples.plotBounds) - lat (b_min Examples.plotBounds)) / gridSizeLat 10)%float
    = 5.0000000000095213%float /\
  latCells 10 Examples.plotBounds = 6%float /\
  JS.loopCount (latCells 10 Examples.plotBounds) = Some 6%nat.
Proof. repeat split; vm_compute; reflexivity. Qed.

(** C5, amended -- The end-to-end scenario.  The plot is 100 m by 50 m in
    degrees at latitude 18.52, its south-west corner at (73.85, 18.52).  Let
    the engine's cosine at the reference latitude of the plot be within
    two units in the last place of the true value.  Then the loops of
    [main.js], run with 10 m cells in place of its constant of 1 m, count 6
    rows and 10 columns and visit 60 candidate cells; the grid holds the 50
    cells of the rows 0 to 4, and their numbers are 1, 2, ..., 50 in
    that order.  The 10 cells of the sixth row start at the northern edge of
    the plot and are dropped. *)
Theorem end_to_end_scenario (cos_approx : float -> float) :
  (0x1.e57bfd6453cb4p-1
   <=? cos_approx (Main.Math_radians (lat (b_center Examples.plotBounds))))%float = true ->
  (cos_approx (Main.Math_radians (lat (b_center Examples.plotBounds)))
   <=? 0x1.e57bfd6453cb8p-1)%float = true ->
  getBoundsFromCoordinates Examples.plot = Some Examples.plotBounds /\
  JS.loopCount (latCells 10 Examples.plotBounds) = Some 6%nat /\
  JS.loopCount (lngCells cos_approx 10 Main.Math_radians Examples.plotBounds) = Some 10%nat /\
  exists cands cells,
    candidateGrid cos_approx 10 Main.Math_radians Main.cellOptions Examples.plotBounds
      = Returns cands /\
    List.length cands = 60%nat /\
    generateFieldGridWith cos_approx 10 Main.Math_radians Main.cellInField Main.cellOptions
      (polygonOf Examples.plot) = Returns (Some cells) /\
    cells = firstn 50 cands /\
    map number cells = map JS.floatOfNat (seq 1 50) /\
    Forall (fun c => cellLat1 c = lat (b_max Examples.plotBounds)) (skipn 50 cands).
Proof.
  intros Hlo Hhi.
  assert (Hb : getBoundsFromCoordinates Examples.plot = Some Examples.plotBounds)
    by (vm_compute; reflexivity).
  split; [exact Hb |]. split; [vm_compute; reflexivity |].
  pose proof (plot_cosines _ Hlo Hhi) as Hc.
  assert (Hext : forall v,
            cos_approx (Main.Math_radians (lat (b_center Examples.plotBounds))) = v ->
            JS.Math_cos cos_approx (Main.Math_radians (lat (b_center Examples.plotBounds)))
            = JS.Math_cos (fun _ => v) (Main.Math_radians (lat (b_center Examples.plotBounds)))).
  { intros v E. unfold JS.Math_cos.
    destruct (is_nan _ || is_infinity _); [reflexivity |].
    destruct (is_zero _); [reflexivity | exact E]. }
  cbn [In] in Hc.
  destruct Hc as [E | [E | [E | [E | [E | []]]]]]; symmetry in E; apply Hext in E;
    rewrite (lngCells_cos _ _ _ _ _ E), (candidateGrid_cos _ _ _ _ _ _ E),
      (generateFieldGridWith_cos _ _ _ _ _ _ E _ _ Hb);
    (split; [vm_compute; reflexivity |]);
    eexists; eexists;
    (split; [vm_compute; reflexivity |]);
    repeat split; vm_compute; try reflexivity; repeat constructor.
Qed.

Lemma end_to_end_scenario_witness :
  getBoundsFromCoordinates Examples.plot = Some Examples.plotBounds /\
  JS.loopCount (latCells 10 Examples.plotBounds) = Some 6%nat /\
  JS.loopCount (lngCells Examples.plotCos 10 Main.Math_radians Examples.plotBounds)
    = Some 10%nat /\
  exists cands cells,
    candidateGrid Examples.plotCos 10 Main.Math_radians Main.cellOptions Examples.plotBounds
      = Returns cands /\
    List.length cands = 60%nat /\
    generateFieldGridWith Examples.plotCos 10 Main.Math_radians Main.cellInField
      Main.cellOptions (polygonOf Examples.plot) = Returns (Some cells) /\
    cells = firstn 50 cands /\
    map number cells = map JS.floatOfNat (seq 1 50) /\
    Forall (fun c => cellLat1 c = lat (b_max Examples.plotBounds)) (skipn 50 cands).
Proof.
  apply (end_to_end_scenario Examples.plotCos); vm_compute; reflexivity.
Defined.

(** The scripts themselves have no cell size to set: [main.js] lays its
    1 m cells over the plot in 51 rows, [mobile.js] its 5 m cells in 11. *)
Remark plot_row_counts :
  rowCount MainJs Examples.plotBounds = Some 51%nat /\
  rowCount MobileJs Examples.plotBounds = Some 11%nat.
Proof. split; vm_compute; reflexivity. Qed.

(** * Further properties *)


(** ** The bounding box *)

Section BoundsFacts.

Local Open Scope float_scope.

Lemma fold_min_least l : forall x0,
  In (fold_left JS.Math_min l x0) (x0 :: l) /\
  forall v, In v (x0 :: l) -> keyle (minKey (fold_left JS.Math_min l x0)) (minKey v).
Proof.
  induction l as [| x l IH]; intros x0; cbn [fold_left].
  - split; [now left |]. intros v [<- | []]. apply keyle_refl.
  - destruct (IH (JS.Math_min x0 x)) as [Hin Hle]. split.
    + destruct Hin as [E | Hin]; [| now right; right].
      rewrite <- E.
      destruct (Math_min_key x0 x) as [[-> _] | [-> _]]; [now left | now right; left].
    + intros v Hv.
      assert (H0 : keyle (minKey (fold_left JS.Math_min l (JS.Math_min x0 x)))
                     (minKey (JS.Math_min x0 x))) by (apply Hle; now left).
      destruct Hv as [<- | [<- | Hv]]; [| | apply Hle; now right];
        (eapply keyle_trans; [exact H0 |]);
        destruct (Math_min_key x0 x) as [[-> H] | [-> H]];
        first [apply keyle_refl | exact H].
Qed.

Lemma fold_max_greatest l : forall x0,
  In (fold_left JS.Math_max l x0) (x0 :: l) /\
  forall v, In v (x0 :: l) -> keyle (maxKey v) (maxKey (fold_left JS.Math_max l x0)).
Proof.
  induction l as [| x l IH]; intros x0; cbn [fold_left].
  - split; [now left |]. intros v [<- | []]. apply keyle_refl.
  - destruct (IH (JS.Math_max x0 x)) as [Hin Hle]. split.
    + destruct Hin as [E | Hin]; [| now right; right].
      rewrite <- E.
      destruct (Math_max_key x0 x) as [[-> _] | [-> _]]; [now left | now right; left].
    + intros v Hv.
      assert (H0 : keyle (maxKey (JS.Math_max x0 x))
                     (maxKey (fold_left JS.Math_max l (JS.Math_max x0 x))))
        by (apply Hle; now left).
      destruct Hv as [<- | [<- | Hv]]; [| | apply Hle; now right];
        (eapply keyle_trans; [| exact H0]);
        destruct (Math_max_key x0 x) as [[-> H] | [-> H]];
        first [apply keyle_refl | exact H].
Qed.

(** The four running values of [getBoundsFromCoordinates] do not depend on
    one another. *)
Lemma fold_boundsStep coords : forall a b c d,
  fold_left boundsStep coords (a, b, c, d)
  = (fold_left JS.Math_min (map snd coords) a,
     fold_left JS.Math_max (map snd coords) b,
     fold_left JS.Math_min (map fst coords) c,
     fold_left JS.Math_max (map fst coords) d).
Proof.
  induction coords as [| [lng lat] coords IH]; intros a b c d; [reflexivity |].
  cbn [fold_left map fst snd boundsStep]. apply IH.
Qed.

Lemma getBounds_folds coords :
  getBoundsFromCoordinates coords =
  match coords with
  | [] => None
  | _ :: _ =>
      Some {| b_min := {| lat := leastOf (map snd coords); lng := leastOf (map fst coords) |};
              b_max := {| lat := greatestOf (map snd coords);
                          lng := greatestOf (map fst coords) |};
              b_center :=
                {| lat := (leastOf (map snd coords) + greatestOf (map snd coords)) / 2;
                   lng := (leastOf (map fst coords) + greatestOf (map fst coords)) / 2 |} |}
  end.
Proof.
  destruct coords as [| [lng0 lat0] rest]; [reflexivity |].
  unfold getBoundsFromCoordinates. rewrite fold_boundsStep. reflexivity.
Qed.

Lemma leastOf_spec l :
  l <> [] ->
  In (leastOf l) l /\ forall v, In v l -> keyle (minKey (leastOf l)) (minKey v).
Proof.
  destruct l as [| x l]; [congruence |]. intros _. unfold leastOf. cbn [hd].
  destruct (fold_min_least (x :: l) x) as [Hin Hle]. split.
  - destruct Hin as [E | Hin]; [rewrite <- E; now left | exact Hin].
  - intros v Hv. apply Hle. now right.
Qed.

Lemma greatestOf_spec l :
  l <> [] ->
  In (greatestOf l) l /\ forall v, In v l -> keyle (maxKey v) (maxKey (greatestOf l)).
Proof.
  destruct l as [| x l]; [congruence |]. intros _. unfold greatestOf. cbn [hd].
  destruct (fold_max_greatest (x :: l) x) as [Hin Hle]. split.
  - destruct Hin as [E | Hin]; [rewrite <- E; now left | exact Hin].
  - intros v Hv. apply Hle. now right.
Qed.

Lemma leastOf_same_elements l l' :
  (forall v, In v l <-> In v l') -> leastOf l = leastOf l'.
Proof.
  intros H. destruct l as [| x l].
  - destruct l' as [| y l']; [reflexivity |]. destruct (proj2 (H y)). now left.
  - assert (N : x :: l <> []) by discriminate.
    assert (N' : l' <> []).
    { intros ->. apply (proj1 (H x)). now left. }
    destruct (leastOf_spec _ N) as [Hin Hle], (leastOf_spec _ N') as [Hin' Hle'].
    apply minKey_inj, keyle_antisym.
    + apply Hle, H, Hin'.
    + apply Hle', H, Hin.
Qed.

Lemma greatestOf_same_elements l l' :
  (forall v, In v l <-> In v l') -> greatestOf l = greatestOf l'.
Proof.
  intros H. destruct l as [| x l].
  - destruct l' as [| y l']; [reflexivity |]. destruct (proj2 (H y)). now left.
  - assert (N : x :: l <> []) by discriminate.
    assert (N' : l' <> []).
    { intros ->. apply (proj1 (H x)). now left. }
    destruct (greatestOf_spec _ N) as [Hin Hle], (greatestOf_spec _ N') as [Hin' Hle'].
    apply maxKey_inj, keyle_antisym.
    + apply Hle', H, Hin.
    + apply Hle, H, Hin'.
Qed.

Lemma getBounds_same_vertices (ring ring' : Ring) :
  (forall p, In p ring <-> In p ring') ->
  getBoundsFromCoordinates ring = getBoundsFromCoordinates ring'.
Proof.
  intros H. rewrite !getBounds_folds.
  assert (Hm : forall (f : float * float -> float) v,
             In v (map f ring) <-> In v (map f ring')).
  { intros f v. rewrite !in_map_iff. split; intros (p & E & Hp); exists p; split; auto;
      now apply H. }
  pose proof (leastOf_same_elements _ _ (Hm snd)) as E1.
  pose proof (leastOf_same_elements _ _ (Hm fst)) as E2.
  pose proof (greatestOf_same_elements _ _ (Hm snd)) as E3.
  pose proof (greatestOf_same_elements _ _ (Hm fst)) as E4.
  destruct ring as [| p ring], ring' as [| p' ring']; try reflexivity.
  - destruct (proj2 (H p')). now left.
  - destruct (proj1 (H p)). now left.
  - now rewrite E1, E2, E3, E4.
Qed.

Lemma leastOf_nan l v : In v l -> is_nan v = true -> leastOf l = nan.
Proof.
  intros Hin Hv. assert (N : l <> []) by (intros ->; destruct Hin).
  destruct (leastOf_spec l N) as [_ Hle].
  exact (minKey_nan_least _ _ Hv (Hle v Hin)).
Qed.

Lemma greatestOf_nan l v : In v l -> is_nan v = true -> greatestOf l = nan.
Proof.
  intros Hin Hv. assert (N : l <> []) by (intros ->; destruct Hin).
  destruct (greatestOf_spec l N) as [_ Hle].
  exact (maxKey_nan_greatest _ _ Hv (Hle v Hin)).
Qed.

Lemma greatestOf_not_nan l v : In v l -> is_nan (greatestOf l) = false -> is_nan v = false.
Proof.
  intros Hin Hn. destruct (is_nan v) eqn:E; [| reflexivity].
  rewrite (greatestOf_nan _ _ Hin E) in Hn. discriminate.
Qed.

Lemma leastOf_not_nan l v : In v l -> is_nan (leastOf l) = false -> is_nan v = false.
Proof.
  intros Hin Hn. destruct (is_nan v) eqn:E; [| reflexivity].
  rewrite (leastOf_nan _ _ Hin E) in Hn. discriminate.
Qed.

Lemma leastOf_constant l v : l <> [] -> Forall (fun x => x = v) l -> leastOf l = v.
Proof.
  intros N H. rewrite Forall_forall in H. apply H. now apply leastOf_spec.
Qed.

Lemma greatestOf_constant l v : l <> [] -> Forall (fun x => x = v) l -> greatestOf l = v.
Proof.
  intros N H. rewrite Forall_forall in H. apply H. now apply greatestOf_spec.
Qed.

End BoundsFacts.

(** X1 -- The bounding box contains the ring.  For a ring none of whose
    coordinates is NaN, every vertex lies between the bounds that
    [getBoundsFromCoordinates] returns: [min.lat <= lat <= max.lat] and
    [min.lng <= lng <= max.lng], as the comparisons of Numbers see it. *)
Theorem bounds_contain_ring (ring : Ring) (bounds : Bounds) (p : Point) :
  getBoundsFromCoordinates ring = Some bounds ->
  Forall (fun q => is_nan (fst q) = false /\ is_nan (snd q) = false) ring ->
  In p ring ->
  (lat (b_min bounds) <=? snd p)%float = true /\
  (snd p <=? lat (b_max bounds))%float = true /\
  (lng (b_min bounds) <=? fst p)%float = true /\
  (fst p <=? lng (b_max bounds))%float = true.
Proof.
  intros Hb Hnan Hin. rewrite getBounds_folds in Hb.
  destruct ring as [| p0 rest] eqn:Er; [destruct Hin |]. rewrite <- Er in *.
  injection Hb as <-. cbn [lat lng b_min b_max].
  rewrite Forall_forall in Hnan.
  assert (Hlat : forall v, In v (map snd ring) -> is_nan v = false).
  { intros v Hv. apply in_map_iff in Hv as (q & <- & Hq). now apply Hnan. }
  assert (Hlng : forall v, In v (map fst ring) -> is_nan v = false).
  { intros v Hv. apply in_map_iff in Hv as (q & <- & Hq). now apply Hnan. }
  assert (N1 : map snd ring <> []) by (rewrite Er; discriminate).
  assert (N2 : map fst ring <> []) by (rewrite Er; discriminate).
  destruct (leastOf_spec _ N1) as [I1 L1], (greatestOf_spec _ N1) as [I2 L2],
    (leastOf_spec _ N2) as [I3 L3], (greatestOf_spec _ N2) as [I4 L4].
  pose proof (in_map snd _ _ Hin) as Hp1. pose proof (in_map fst _ _ Hin) as Hp2.
  repeat split.
  - apply leb_of_minKey; auto.
  - apply leb_of_maxKey; auto.
  - apply leb_of_minKey; auto.
  - apply leb_of_maxKey; auto.
Qed.

Lemma bounds_contain_ring_witness :
  (lat (b_min Examples.triangleBounds) <=? snd (0.00003, 0.00002))%float = true /\
  (snd (0.00003, 0.00002) <=? lat (b_max Examples.triangleBounds))%float = true /\
  (lng (b_min Examples.triangleBounds) <=? fst (0.00003, 0.00002))%float = true /\
  (fst (0.00003, 0.00002) <=? lng (b_max Examples.triangleBounds))%float = true.
Proof.
  apply (bounds_contain_ring Examples.triangle Examples.triangleBounds
           (0.00003, 0.00002)%float).
  - vm_compute; reflexivity.
  - repeat constructor.
  - vm_compute; in_list.
Defined.

(** X2 -- The bounding box is tight.  Each of the four bounds that
    [getBoundsFromCoordinates] returns is a coordinate of some vertex of the
    ring: the latitudes [min.lat] and [max.lat] occur among the latitudes,
    the longitudes [min.lng] and [max.lng] among the longitudes. *)
Theorem bounds_attained (ring : Ring) (bounds : Bounds) :
  getBoundsFromCoordinates ring = Some bounds ->
  In (lat (b_min bounds)) (map snd ring) /\ In (lat (b_max bounds)) (map snd ring) /\
  In (lng (b_min bounds)) (map fst ring) /\ In (lng (b_max bounds)) (map fst ring).
Proof.
  intros Hb. rewrite getBounds_folds in Hb.
  destruct ring as [| p0 rest] eqn:Er; [discriminate |]. rewrite <- Er in *.
  injection Hb as <-. cbn [lat lng b_min b_max].
  assert (N1 : map snd ring <> []) by (rewrite Er; discriminate).
  assert (N2 : map fst ring <> []) by (rewrite Er; discriminate).
  repeat split;
    first [apply leastOf_spec | apply greatestOf_spec]; assumption.
Qed.

Lemma bounds_attained_witness :
  In (lat (b_min Examples.triangleBounds)) (map snd Examples.triangle) /\
  In (lat (b_max Examples.triangleBounds)) (map snd Examples.triangle) /\
  In (lng (b_min Examples.triangleBounds)) (map fst Examples.triangle) /\
  In (lng (b_max Examples.triangleBounds)) (map fst Examples.triangle).
Proof.
  apply (bounds_attained Examples.triangle Examples.triangleBounds).
  vm_compute; reflexivity.
Defined.

(** X3 -- The bounding box does not depend on the order of the vertices.
    Two rings with the same vertices, in any order and with any
    repetitions, get the same result from [getBoundsFromCoordinates], NaN
    and signed zeros included; so a reversed or a rotated ring, or one with
    its closing vertex dropped, has the same bounds, and with them the same
    rows and columns of candidate cells. *)
Theorem bounds_order_independent (ring ring' : Ring) :
  (forall p, In p ring <-> In p ring') ->
  getBoundsFromCoordinates ring = getBoundsFromCoordinates ring'.
Proof. apply getBounds_same_vertices. Qed.

Lemma bounds_order_independent_witness :
  getBoundsFromCoordinates Examples.slanted
  = getBoundsFromCoordinates (rev Examples.slanted).
Proof.
  apply (bounds_order_independent Examples.slanted (rev Examples.slanted)).
  intros p. apply in_rev.
Defined.

(** ** Grids without cells *)

Lemma candidateCells_no_columns cos_approx g r o bounds rows :
  candidateCells cos_approx g r o bounds rows 0 = [].
Proof.
  apply length_zero_iff_nil. rewrite candidateCells_length. lia.
Qed.

Lemma no_rows_empty_grid s cos_approx ring bounds :
  getBoundsFromCoordinates ring = Some bounds ->
  rowCount s bounds = Some 0%nat ->
  generateFieldGrid s cos_approx (polygonOf ring) = Returns (Some []).
Proof.
  intros Hb Hrows. rewrite (generateFieldGrid_bounds _ _ _ _ Hb).
  unfold candidatesOf, candidateGrid. unfold rowCount in Hrows. now rewrite Hrows.
Qed.

Lemma no_columns_empty_grid s cos_approx ring bounds :
  getBoundsFromCoordinates ring = Some bounds ->
  columnCount s cos_approx bounds = Some 0%nat ->
  generateFieldGrid s cos_approx (polygonOf ring) = Returns (Some [])
  \/ generateFieldGrid s cos_approx (polygonOf ring) = Diverges.
Proof.
  intros Hb Hcols. rewrite (generateFieldGrid_bounds _ _ _ _ Hb).
  unfold candidatesOf, candidateGrid. unfold columnCount in Hcols. rewrite Hcols.
  destruct (JS.loopCount (latCells (gridSizeMetersOf s) bounds)) as [[| rows] |].
  - now left.
  - left. now rewrite candidateCells_no_columns.
  - now right.
Qed.

Lemma nan_latitude_no_rows (ring : Ring) bounds p g :
  getBoundsFromCoordinates ring = Some bounds ->
  In p ring -> is_nan (snd p) = true ->
  JS.loopCount (latCells g bounds) = Some 0%nat.
Proof.
  intros Hb Hin Hnan. rewrite getBounds_folds in Hb.
  destruct ring as [| p0 rest]; [destruct Hin |]. injection Hb as <-.
  unfold latCells. cbn [lat b_min b_max].
  apply (in_map snd) in Hin. cbn [map] in Hin.
  rewrite (leastOf_nan _ _ Hin Hnan), sub_nan_r.
  apply loopCount_ceil_zeroOrNaN, div_zeroOrNaN, zeroOrNaN_nan.
Qed.

Lemma nan_longitude_no_columns (ring : Ring) bounds p cos_approx g r :
  getBoundsFromCoordinates ring = Some bounds ->
  In p ring -> is_nan (fst p) = true ->
  JS.loopCount (lngCells cos_approx g r bounds) = Some 0%nat.
Proof.
  intros Hb Hin Hnan. rewrite getBounds_folds in Hb.
  destruct ring as [| p0 rest]; [destruct Hin |]. injection Hb as <-.
  unfold lngCells. cbn [lng b_min b_max].
  apply (in_map fst) in Hin. cbn [map] in Hin.
  rewrite (leastOf_nan _ _ Hin Hnan), sub_nan_r.
  apply loopCount_ceil_zeroOrNaN, div_zeroOrNaN, zeroOrNaN_nan.
Qed.

Lemma getBounds_nonempty (ring : Ring) :
  ring <> [] -> exists bounds, getBoundsFromCoordinates ring = Some bounds.
Proof.
  intros N. rewrite getBounds_folds. destruct ring; [congruence | eauto].
Qed.

(** X4 -- A NaN coordinate empties the grid.  If some vertex of the outer
    ring has a NaN latitude, the southern bound is NaN, the row count is 0
    and [generateFieldGrid] returns a grid without cells; it does not
    throw.  If some vertex has a NaN longitude, the column count is 0: no
    cell is ever produced, and the call returns the empty grid unless the
    row loop itself never ends. *)
Theorem nan_coordinate_empty_grid (s : Script) (cos_approx : float -> float)
  (ring : Ring) (p : Point) :
  In p ring ->
  (is_nan (snd p) = true ->
   generateFieldGrid s cos_approx (polygonOf ring) = Returns (Some [])) /\
  (is_nan (fst p) = true ->
   generateFieldGrid s cos_approx (polygonOf ring) = Returns (Some [])
   \/ generateFieldGrid s cos_approx (polygonOf ring) = Diverges).
Proof.
  intros Hin.
  destruct (getBounds_nonempty ring) as [bounds Hb]; [intros ->; destruct Hin |].
  split; intros Hnan.
  - apply (no_rows_empty_grid _ _ _ _ Hb).
    exact (nan_latitude_no_rows _ _ _ _ Hb Hin Hnan).
  - apply (no_columns_empty_grid _ _ _ _ Hb).
    exact (nan_longitude_no_columns _ _ _ _ _ _ Hb Hin Hnan).
Qed.

Lemma nan_coordinate_empty_grid_witness :
  (is_nan (snd (0, nan)%float) = true ->
   generateFieldGrid MainJs Examples.unusedCos (polygonOf Examples.broken)
   = Returns (Some [])) /\
  (is_nan (fst (0, nan)%float) = true ->
   generateFieldGrid MainJs Examples.unusedCos (polygonOf Examples.broken)
   = Returns (Some [])
   \/ generateFieldGrid MainJs Examples.unusedCos (polygonOf Examples.broken) = Diverges).
Proof.
  apply (nan_coordinate_empty_grid MainJs Examples.unusedCos Examples.broken (0, nan)%float).
  vm_compute. right. left. reflexivity.
Defined.

(** X5 -- A ring without height or width has no cells.  If all vertices of
    a non-empty outer ring have the same latitude, the two latitude bounds
    coincide, the row count is 0 and [generateFieldGrid] returns a grid
    without cells.  If all have the same longitude, the column count is 0:
    no cell is produced, and the call returns the empty grid unless the row
    loop never ends. *)
Theorem flat_ring_empty_grid (s : Script) (cos_approx : float -> float)
  (ring : Ring) (v : float) :
  ring <> [] ->
  (Forall (fun p => snd p = v) ring ->
   generateFieldGrid s cos_approx (polygonOf ring) = Returns (Some [])) /\
  (Forall (fun p => fst p = v) ring ->
   generateFieldGrid s cos_approx (polygonOf ring) = Returns (Some [])
   \/ generateFieldGrid s cos_approx (polygonOf ring) = Diverges).
Proof.
  intros N. destruct (getBounds_nonempty ring N) as [bounds Hb].
  pose proof Hb as Hf. rewrite getBounds_folds in Hf.
  destruct ring as [| p0 rest] eqn:Er; [congruence |]. rewrite <- Er in *.
  injection Hf as Hf.
  assert (Hmap : forall f : float * float -> float,
             Forall (fun p => f p = v) ring -> Forall (fun x => x = v) (map f ring)).
  { intros f H. apply Forall_forall. intros x Hx.
    apply in_map_iff in Hx as (q & <- & Hq). rewrite Forall_forall in H. now apply H. }
  assert (Nm : forall f : float * float -> float, map f ring <> [])
    by (intros f; rewrite Er; discriminate).
  split; intros H; specialize (Hmap _ H).
  - apply (no_rows_empty_grid _ _ _ _ Hb). unfold rowCount, latCells.
    rewrite <- Hf. cbn [lat b_min b_max].
    rewrite (leastOf_constant _ v), (greatestOf_constant _ v) by auto.
    apply loopCount_ceil_zeroOrNaN, div_zeroOrNaN, sub_diag_zeroOrNaN.
  - apply (no_columns_empty_grid _ _ _ _ Hb). unfold columnCount, lngCells.
    rewrite <- Hf at 1 2. cbn [lng b_min b_max].
    rewrite (leastOf_constant _ v), (greatestOf_constant _ v) by auto.
    apply loopCount_ceil_zeroOrNaN, div_zeroOrNaN, sub_diag_zeroOrNaN.
Qed.

Lemma flat_ring_empty_grid_witness :
  (Forall (fun p : Point => snd p = 1%float) [ (0, 1); (2, 1); (3, 1) ]%float ->
   generateFieldGrid MobileJs Examples.unusedCos (polygonOf [ (0, 1); (2, 1); (3, 1) ]%float)
   = Returns (Some [])) /\
  (Forall (fun p : Point => fst p = 1%float) [ (0, 1); (2, 1); (3, 1) ]%float ->
   generateFieldGrid MobileJs Examples.unusedCos (polygonOf [ (0, 1); (2, 1); (3, 1) ]%float)
   = Returns (Some [])
   \/ generateFieldGrid MobileJs Examples.unusedCos
        (polygonOf [ (0, 1); (2, 1); (3, 1) ]%float) = Diverges).
Proof.
  apply (flat_ring_empty_grid MobileJs Examples.unusedCos
           [ (0, 1); (2, 1); (3, 1) ]%float 1%float).
  discriminate.
Defined.

(** ** How a call of [generateFieldGrid] ends *)





(** ** Numbers and edges of the cells *)

(** X7 -- Cell numbers are unique.  In a grid that [generateFieldGrid]
    returns, cut from a candidate grid of fewer than 2^53 cells, the numbers
    grow along the list of cells: a cell added later has a larger number.
    So no two cells share a number, and a number names one cell, which is
    what lets a mapping keyed by cell number address the cells.  Below 2^53
    the binary64 value of [i * lngCells + j + 1] is exact; in a larger grid
    it is rounded, and cells can share a number. *)
Theorem cell_numbers_increasing (s : Script) (cos_approx : float -> float)
  (ring : Ring) (bounds : Bounds) (cells : list GridCell) (rows cols : nat) :
  getBoundsFromCoordinates ring = Some bounds ->
  generateFieldGrid s cos_approx (polygonOf ring) = Returns (Some cells) ->
  rowCount s bounds = Some rows ->
  columnCount s cos_approx bounds = Some cols ->
  (Z.of_nat rows * Z.of_nat cols < 2 ^ 53)%Z ->
  increasing (map number cells) /\ NoDup (map number cells)
  /\ forall c d, In c cells -> In d cells -> number c = number d -> c = d.
Proof.
  intros Hb Hg Hrows Hcols Hsize.
  destruct (grid_candidates _ _ _ _ _ _ _ Hb Hg Hrows Hcols) as [_ ->].
  assert (Hinc : increasing
            (map number
               (filter (membershipOf s ring)
                  (candidateCells cos_approx (gridSizeMetersOf s) (radiansOf s)
                     (cellOptionsOf s) bounds rows cols)))).
  { apply increasing_filter. now apply increasing_candidateCells. }
  split; [exact Hinc |]. split; [now apply increasing_NoDup |].
  now apply increasing_injective.
Qed.

Lemma cell_numbers_increasing_witness :
  increasing (map number
    (cellsOf (generateFieldGrid MainJs Examples.unusedCos (polygonOf Examples.triangle))))
  /\ NoDup (map number
    (cellsOf (generateFieldGrid MainJs Examples.unusedCos (polygonOf Examples.triangle))))
  /\ forall c d,
       In c (cellsOf (generateFieldGrid MainJs Examples.unusedCos
                        (polygonOf Examples.triangle))) ->
       In d (cellsOf (generateFieldGrid MainJs Examples.unusedCos
                        (polygonOf Examples.triangle))) ->
       number c = number d -> c = d.
Proof.
  apply (cell_numbers_increasing MainJs Examples.unusedCos Examples.triangle
           Examples.triangleBounds _ 5 4).
  - vm_compute; reflexivity.
  - vm_compute; reflexivity.
  - vm_compute; reflexivity.
  - vm_compute; reflexivity.
  - vm_compute; reflexivity.
Defined.

(** X29 -- No cell is numbered NaN.  In a grid that [generateFieldGrid]
    returns, of any size, the number of a cell is a Number and not NaN:
    [i * lngCells + j + 1] is built from Numbers that are not negative, and
    rounding, which in a grid of 2^53 cells or more can change its value,
    does not make it NaN. *)
Theorem cell_numbers_not_nan (s : Script) (cos_approx : float -> float)
  (ring : Ring) (cells : list GridCell) :
  generateFieldGrid s cos_approx (polygonOf ring) = Returns (Some cells) ->
  Forall (fun c => JS.isNaN (number c) = false) cells.
Proof.
  intros Hg. apply Forall_forall. intros c Hc.
  destruct (getBoundsFromCoordinates ring) as [bounds |] eqn:Hb.
  2:{ apply generateFieldGrid_polygon in Hg. unfold fieldGrid in Hg.
      rewrite Hb in Hg. discriminate. }
  destruct (in_generateFieldGrid _ _ _ _ _ _ Hb Hg Hc)
    as (rows & cols & _ & Hcols & _ & _ & Hj & Ec & _).
  destruct cols as [| n]; [lia |].
  apply loopCount_positive in Hcols as (P & B & _).
  rewrite Ec. cbn [number candidateCell]. unfold JS.isNaN.
  now apply cellNumber_not_nan.
Qed.

Lemma cell_numbers_not_nan_witness :
  Forall (fun c => JS.isNaN (number c) = false)
    (cellsOf (generateFieldGrid MainJs Examples.unusedCos (polygonOf Examples.triangle))).
Proof.
  apply (cell_numbers_not_nan MainJs Examples.unusedCos Examples.triangle).
  vm_compute; reflexivity.
Defined.

(** X8 -- Neighbouring cells share their edge.  In a returned grid the
    northern latitude [cellLat2] of a cell is, bit for bit, the southern
    latitude [cellLat1] of every cell of the next row, and its eastern
    longitude [cellLng2] is the western longitude [cellLng1] of every cell
    of the next column: [(i + 1) * gridSizeLat] is computed from the same
    Number whether [i + 1] is added in the loop body or is the next loop
    counter.  The rows and columns leave no gap and do not overlap. *)
Theorem adjacent_cells_share_edges (s : Script) (cos_approx : float -> float)
  (ring : Ring) (cells : list GridCell) (c d : GridCell) :
  generateFieldGrid s cos_approx (polygonOf ring) = Returns (Some cells) ->
  In c cells -> In d cells ->
  (row d = S (row c) -> cellLat2 c = cellLat1 d) /\
  (col d = S (col c) -> cellLng2 c = cellLng1 d).
Proof.
  intros Hg Hc Hd.
  destruct (getBoundsFromCoordinates ring) as [bounds |] eqn:Hb.
  2:{ apply generateFieldGrid_polygon in Hg. unfold fieldGrid in Hg.
      rewrite Hb in Hg. discriminate. }
  destruct (in_generateFieldGrid _ _ _ _ _ _ Hb Hg Hc)
    as (rows & cols & Hrows & Hcols & _ & _ & _ & Ec & _).
  destruct (in_generateFieldGrid _ _ _ _ _ _ Hb Hg Hd)
    as (rows' & cols' & Hrows' & Hcols' & _ & Hi & Hj & Ed & _).
  rewrite Hrows in Hrows'. injection Hrows' as <-.
  rewrite Hcols in Hcols'. injection Hcols' as <-.
  apply loopCount_le in Hrows, Hcols.
  assert (Lat2 : cellLat2 c
                 = (lat (b_min bounds)
                    + (JS.floatOfNat (row c) + 1) * gridSizeLat (gridSizeMetersOf s))%float)
    by (rewrite Ec at 1; reflexivity).
  assert (Lat1 : cellLat1 d
                 = (lat (b_min bounds)
                    + JS.floatOfNat (row d) * gridSizeLat (gridSizeMetersOf s))%float)
    by (rewrite Ed at 1; reflexivity).
  assert (Lng2 : cellLng2 c
                 = (lng (b_min bounds)
                    + (JS.floatOfNat (col c) + 1)
                      * gridSizeLng cos_approx (gridSizeMetersOf s) (radiansOf s) bounds)%float)
    by (rewrite Ec at 1; reflexivity).
  assert (Lng1 : cellLng1 d
                 = (lng (b_min bounds)
                    + JS.floatOfNat (col d)
                      * gridSizeLng cos_approx (gridSizeMetersOf s) (radiansOf s) bounds)%float)
    by (rewrite Ed at 1; reflexivity).
  split; intros E.
  - rewrite Lat2, Lat1, E, floatOfNat_succ by lia. reflexivity.
  - rewrite Lng2, Lng1, E, floatOfNat_succ by lia. reflexivity.
Qed.

Lemma adjacent_cells_share_edges_witness :
  (row Examples.triangleCellAbove = S (row Examples.triangleCell) ->
   cellLat2 Examples.triangleCell = cellLat1 Examples.triangleCellAbove) /\
  (col Examples.triangleCellAbove = S (col Examples.triangleCell) ->
   cellLng2 Examples.triangleCell = cellLng1 Examples.triangleCellAbove).
Proof.
  apply (adjacent_cells_share_edges MainJs Examples.unusedCos Examples.triangle
           (cellsOf (generateFieldGrid MainJs Examples.unusedCos
                       (polygonOf Examples.triangle)))).
  - vm_compute; reflexivity.
  - vm_compute; in_list.
  - vm_compute; in_list.
Defined.

(** ** The shape of the vertex list *)

Section RayCastingShape.

Variables X Y : Point -> float.

Local Open Scope float_scope.

Lemma edgesFrom_app l1 : forall l2 pj,
  edgesFrom pj (l1 ++ l2) = edgesFrom pj l1 ++ edgesFrom (last l1 pj) l2.
Proof.
  induction l1 as [| p l1 IH]; intros l2 pj; [reflexivity |].
  cbn [app edgesFrom]. now rewrite IH, last_cons.
Qed.

Lemma last_app_cons (l1 : list Point) p l2 d : last (l1 ++ p :: l2) d = last l2 p.
Proof.
  induction l1 as [| q l1 IH]; cbn [app].
  - apply last_cons.
  - rewrite last_cons. destruct l1 as [| r l1]; cbn [app] in *.
    + apply last_cons.
    + rewrite <- IH. now rewrite !last_cons.
Qed.

(** The edges of a rotated vertex list are the same edges, rotated. *)
Lemma edgesOf_rotate l1 l2 :
  l1 <> [] -> l2 <> [] ->
  edgesOf (l1 ++ l2)
  = edgesFrom (last l2 (hd (0, 0) l2)) l1 ++ edgesFrom (last l1 (hd (0, 0) l1)) l2.
Proof.
  destruct l1 as [| a l1]; [congruence |]. destruct l2 as [| b l2]; [congruence |].
  intros _ _. unfold edgesOf. cbn [app hd].
  change (a :: l1 ++ b :: l2) with ((a :: l1) ++ b :: l2).
  rewrite last_app_cons, edgesFrom_app. f_equal.
  - now rewrite last_cons.
  - f_equal. now rewrite !last_cons.
Qed.

Lemma rayCast_rotate point l1 l2 :
  rayCast X Y point (l1 ++ l2) = rayCast X Y point (l2 ++ l1).
Proof.
  destruct l1 as [| a l1]; [now rewrite app_nil_r |].
  destruct l2 as [| b l2]; [now rewrite app_nil_r |].
  rewrite !rayCast_parity, !edgesOf_rotate by discriminate.
  rewrite !parity_app. apply xorb_comm.
Qed.

(** An edge from a vertex to itself is never crossed. *)
Lemma crosses_same_vertex x y xi yi : crosses x y xi yi xi yi = false.
Proof. unfold crosses. now rewrite xorb_nilpotent. Qed.

Lemma rayCast_repeated_head point p l :
  rayCast X Y point (p :: p :: l) = rayCast X Y point (p :: l).
Proof.
  rewrite !rayCast_parity. unfold edgesOf.
  rewrite (last_cons p (p :: l) p). cbn [edgesFrom]. rewrite !parity_cons.
  unfold crossesEdge at 2. cbn [fst snd]. rewrite crosses_same_vertex.
  now rewrite xorb_false_l.
Qed.

Lemma rayCast_repeated_vertex point l1 p l2 :
  rayCast X Y point (l1 ++ p :: p :: l2) = rayCast X Y point (l1 ++ p :: l2).
Proof.
  rewrite rayCast_rotate. cbn [app]. rewrite rayCast_repeated_head.
  change (p :: l2 ++ l1) with ((p :: l2) ++ l1). apply rayCast_rotate.
Qed.

Lemma rayCast_closing_vertex point p l :
  rayCast X Y point (p :: l ++ [p]) = rayCast X Y point (p :: l).
Proof.
  change (p :: l ++ [p]) with ((p :: l) ++ [p]).
  rewrite rayCast_rotate. cbn [app]. apply rayCast_repeated_head.
Qed.

Lemma rayLoop_nan x y rest : forall pj inside,
  is_nan x = true \/ is_nan y = true ->
  rayLoop X Y x y pj rest inside = inside.
Proof.
  induction rest as [| pi rest IH]; intros pj inside H; [reflexivity |].
  cbn [rayLoop]. rewrite IH by assumption. unfold crosses.
  destruct H as [H | H].
  - rewrite (ltb_nan_l _ H). now rewrite andb_false_r.
  - now rewrite !(ltb_nan_l _ H).
Qed.

Lemma rayCast_nan point polygon :
  is_nan (X point) = true \/ is_nan (Y point) = true ->
  rayCast X Y point polygon = false.
Proof.
  intros H. destruct polygon as [| p0 rest]; [reflexivity |].
  unfold rayCast. now apply rayLoop_nan.
Qed.

(** If [yi > y] has the same answer at every vertex, no edge is crossed. *)
Lemma rayLoop_outside x y rest : forall pj inside,
  Forall (fun v => (y <? Y v) = (y <? Y pj)) rest ->
  rayLoop X Y x y pj rest inside = inside.
Proof.
  induction rest as [| pi rest IH]; intros pj inside H; [reflexivity |].
  cbn [rayLoop]. inversion H as [| ? ? H1 H2]; subst.
  unfold crosses. rewrite H1, xorb_nilpotent. cbn [andb].
  apply IH. revert H2. apply Forall_impl. intros v ->. now symmetry.
Qed.

Lemma rayCast_outside point polygon b :
  Forall (fun v => (Y point <? Y v) = b) polygon ->
  rayCast X Y point polygon = false.
Proof.
  intros H. destruct polygon as [| p0 rest]; [reflexivity |].
  unfold rayCast. apply rayLoop_outside.
  assert (Hl : (Y point <? Y (last (p0 :: rest) p0)) = b).
  { rewrite Forall_forall in H. apply H.
    destruct (exists_last (l := p0 :: rest)) as (l' & a & E); [discriminate |].
    rewrite E, last_last. apply in_or_app. right. now left. }
  revert H. apply Forall_impl. intros v ->. now symmetry.
Qed.

End RayCastingShape.

(** X9 -- The starting vertex does not matter.  [isPointInPolygon] gives
    the same answer for a vertex list and for any rotation of it: the loop
    visits the same edges, each with the same ends in the same order, and
    only the order of the visits changes. *)
Theorem starting_vertex_irrelevant (s : Script) (point : Point) (l1 l2 : list Point) :
  isPointInPolygonOf s point (l1 ++ l2) = isPointInPolygonOf s point (l2 ++ l1).
Proof. destruct s; apply rayCast_rotate. Qed.

(** X10 -- A repeated vertex does not matter.  A vertex that occurs twice
    in a row adds an edge from a point to itself, which the crossing test
    never counts; so [isPointInPolygon] gives the same answer with and
    without the repetition.  In particular a closed ring, whose last
    vertex repeats the first, and the same ring without its closing vertex
    are the same polygon to it. *)
Theorem repeated_vertex_irrelevant (s : Script) (point p : Point) (l1 l2 : list Point) :
  isPointInPolygonOf s point (l1 ++ p :: p :: l2) = isPointInPolygonOf s point (l1 ++ p :: l2)
  /\ isPointInPolygonOf s point (p :: l1 ++ [p]) = isPointInPolygonOf s point (p :: l1).
Proof.
  split; destruct s; first [apply rayCast_repeated_vertex | apply rayCast_closing_vertex].
Qed.

(** No edge is crossed from a latitude at or above the northern bound, or
    below the southern one. *)
Lemma isPointInPolygon_outside_band (ring : Ring) (bounds : Bounds) (x y : float) :
  getBoundsFromCoordinates ring = Some bounds ->
  (lat (b_max bounds) <=? y)%float = true \/ (y <? lat (b_min bounds))%float = true ->
  Main.isPointInPolygon (x, y) ring = false.
Proof.
  intros Hb Hy. rewrite getBounds_folds in Hb.
  destruct ring as [| p0 rest] eqn:Er; [discriminate |]. rewrite <- Er in *.
  injection Hb as <-. cbn [lat b_min b_max] in Hy.
  assert (N : map snd ring <> []) by (rewrite Er; discriminate).
  destruct (leastOf_spec _ N) as [I1 L1], (greatestOf_spec _ N) as [I2 L2].
  unfold Main.isPointInPolygon.
  destruct Hy as [Hy | Hy].
  - apply rayCast_outside with (b := false). apply Forall_forall. intros v Hv.
    apply (in_map snd) in Hv. cbn [snd].
    pose proof (leb_not_nan_l _ _ Hy) as Nmax.
    apply (ltb_false_of_leb _ (greatestOf (map snd ring))); [| exact Hy].
    apply leb_of_maxKey; auto. now apply (greatestOf_not_nan (map snd ring)).
  - apply rayCast_outside with (b := true). apply Forall_forall. intros v Hv.
    apply (in_map snd) in Hv. cbn [snd].
    pose proof (ltb_not_nan_r _ _ Hy) as Nmin.
    apply (ltb_leb_trans _ (leastOf (map snd ring))); [exact Hy |].
    apply leb_of_minKey; auto. now apply (leastOf_not_nan (map snd ring)).
Qed.

(** X11 -- Outside the latitudes of the bounding box is outside the field.
    A point whose latitude is at or above the northern bound, or below the
    southern bound, of the ring's bounding box is never inside: in that case
    [yi > y] has one answer for all vertices and no edge is crossed.  This
    holds for [main.js] on the ring and for [mobile.js] on the ring with its
    coordinates exchanged, as [generateFieldGrid] passes it. *)
Theorem outside_latitude_band (ring : Ring) (bounds : Bounds) (x y : float) :
  getBoundsFromCoordinates ring = Some bounds ->
  (lat (b_max bounds) <=? y)%float = true \/ (y <? lat (b_min bounds))%float = true ->
  Main.isPointInPolygon (x, y) ring = false /\
  Mobile.isPointInPolygon (y, x) (map (fun c : Point => (snd c, fst c)) ring) = false.
Proof.
  intros Hb Hy. rewrite Mobile_isPointInPolygon_swapped.
  split; exact (isPointInPolygon_outside_band _ _ _ _ Hb Hy).
Qed.

Lemma outside_latitude_band_witness :
  Main.isPointInPolygon (0.5, 1)%float Examples.square = false /\
  Mobile.isPointInPolygon (1, 0.5)%float
    (map (fun c : Point => (snd c, fst c)) Examples.square) = false.
Proof.
  eapply (outside_latitude_band Examples.square).
  - vm_compute; reflexivity.
  - left. vm_compute; reflexivity.
Defined.

(** X12 -- The cells of the mobile grid lie between the bounding
    latitudes.  The centre of every cell that [generateFieldGrid] of
    [mobile.js] returns has a latitude that is neither at or above the
    northern bound nor below the southern bound of the ring's bounding
    box: a cell centred outside that band fails the membership test. *)
Theorem mobile_cells_between_latitudes (cos_approx : float -> float)
  (ring : Ring) (bounds : Bounds) (cells : list GridCell) (c : GridCell) :
  getBoundsFromCoordinates ring = Some bounds ->
  generateFieldGrid MobileJs cos_approx (polygonOf ring) = Returns (Some cells) ->
  In c cells ->
  (lat (b_max bounds)
   <=? lat (Mobile.cellCenter (cellLat1 c) (cellLng1 c) (cellLat2 c) (cellLng2 c)))%float
  = false /\
  (lat (Mobile.cellCenter (cellLat1 c) (cellLng1 c) (cellLat2 c) (cellLng2 c))
   <? lat (b_min bounds))%float = false.
Proof.
  intros Hb Hg Hin.
  destruct (in_generateFieldGrid _ _ _ _ _ _ Hb Hg Hin)
    as (rows & cols & _ & _ & _ & _ & _ & _ & Hinc).
  cbn [cellInFieldOf] in Hinc. unfold Mobile.cellInField in Hinc.
  rewrite Mobile_isPointInPolygon_swapped in Hinc.
  set (m := Mobile.cellCenter (cellLat1 c) (cellLng1 c) (cellLat2 c) (cellLng2 c)) in *.
  split.
  - destruct (lat (b_max bounds) <=? lat m)%float eqn:E; [| reflexivity].
    rewrite (isPointInPolygon_outside_band _ _ (lng m) (lat m) Hb) in Hinc by now left.
    discriminate.
  - destruct (lat m <? lat (b_min bounds))%float eqn:E; [| reflexivity].
    rewrite (isPointInPolygon_outside_band _ _ (lng m) (lat m) Hb) in Hinc by now right.
    discriminate.
Qed.

Lemma mobile_cells_between_latitudes_witness :
  (lat (b_max Examples.meadowBounds)
   <=? lat (Mobile.cellCenter (cellLat1 Examples.mobileCell) (cellLng1 Examples.mobileCell)
              (cellLat2 Examples.mobileCell) (cellLng2 Examples.mobileCell)))%float
  = false /\
  (lat (Mobile.cellCenter (cellLat1 Examples.mobileCell) (cellLng1 Examples.mobileCell)
          (cellLat2 Examples.mobileCell) (cellLng2 Examples.mobileCell))
   <? lat (b_min Examples.meadowBounds))%float = false.
Proof.
  apply (mobile_cells_between_latitudes Examples.unusedCos Examples.meadow
           Examples.meadowBounds
           (cellsOf (generateFieldGrid MobileJs Examples.unusedCos
                       (polygonOf Examples.meadow)))).
  - vm_compute; reflexivity.
  - vm_compute; reflexivity.
  - vm_compute; in_list.
Defined.

(** X13 -- A point with a NaN coordinate is in no polygon.  Every
    comparison with NaN is false, so no crossing is counted and
    [isPointInPolygon] returns [false], whatever the polygon. *)
Theorem nan_point_outside (s : Script) (point : Point) (polygon : list Point) :
  is_nan (fst point) = true \/ is_nan (snd point) = true ->
  isPointInPolygonOf s point polygon = false.
Proof.
  intros H. destruct s; apply rayCast_nan; tauto.
Qed.

Lemma nan_point_outside_witness :
  isPointInPolygonOf MainJs (nan, 0.5)%float Examples.square = false.
Proof.
  apply (nan_point_outside MainJs (nan, 0.5)%float Examples.square).
  left. vm_compute; reflexivity.
Defined.

(** X14 -- An empty field contains no cell.  [isPolygonWithinField] with a
    field ring that has no vertices returns [false] for every cell: no
    vertex of the cell is inside the empty ring, and the field's centre,
    [0 / 0] twice, is a point of NaN coordinates. *)
Theorem empty_field_includes_nothing (cellCoords : Ring) :
  Main.isPolygonWithinField cellCoords [] = false
  /\ Main.getPolygonCenter [] = (nan, nan).
Proof.
  split; [| reflexivity].
  unfold Main.isPolygonWithinField.
  assert (H : existsb (fun coord => Main.isPointInPolygon coord []) cellCoords = false).
  { induction cellCoords as [| c l IH]; [reflexivity | exact IH]. }
  rewrite H. apply rayCast_nan. left. reflexivity.
Qed.

(** X15 -- The two scripts test the same thing.  [isPointInPolygon] of
    [mobile.js], which reads its arrays as [[lat, lng]], on a point and a
    ring with their coordinates exchanged gives the answer of
    [isPointInPolygon] of [main.js] on the GeoJSON point and ring. *)
Theorem scripts_agree_on_swapped_coordinates (x y : float) (coords : Ring) :
  Mobile.isPointInPolygon (y, x) (map (fun c : Point => (snd c, fst c)) coords)
  = Main.isPointInPolygon (x, y) coords.
Proof. apply Mobile_isPointInPolygon_swapped. Qed.

(** ** The area of the field *)

Lemma fold_left_ext_in (A B : Type) (f g : A -> B -> A) l : forall a,
  (forall a x, In x l -> f a x = g a x) -> fold_left f l a = fold_left g l a.
Proof.
  induction l as [| x l IH]; intros a H; [reflexivity |].
  cbn [fold_left]. rewrite H by now left. apply IH. intros a' y Hy. apply H. now right.
Qed.

Lemma areaStep_last_vertex (l : Ring) p q area i :
  (i < List.length l)%nat ->
  Main.areaStep (l ++ [p]) area i = Main.areaStep (l ++ [q]) area i.
Proof.
  intros Hi. unfold Main.areaStep. rewrite !length_app. cbn [List.length].
  replace (List.length l + 1 - 1)%nat with (List.length l) by lia.
  assert (Hj : ((i + 1) mod List.length l < List.length l)%nat)
    by (apply Nat.mod_upper_bound; lia).
  now rewrite !app_nth1 by assumption.
Qed.

Lemma nth_repeat_lt (A : Type) (a d : A) n i : (i < n)%nat -> nth i (repeat a n) d = a.
Proof.
  revert i. induction n as [| n IH]; intros i Hi; [lia |].
  destruct i as [| i]; [reflexivity |]. cbn [repeat nth]. apply IH. lia.
Qed.

(** X16 -- The area never reads the last vertex.  [calculatePolygonArea]
    runs its loop over the indices below [coords.length - 1] and wraps the
    next index [j] modulo [coords.length - 1], so the last entry of the
    ring is never read: two rings that differ only there have the same
    area.  For a closed ring that entry is the repeated first vertex; for
    an open one it is a vertex that the area leaves out. *)
Theorem area_ignores_last_vertex (l : Ring) (p q : Point) :
  Main.calculatePolygonArea (polygonOf (l ++ [p]))
  = Main.calculatePolygonArea (polygonOf (l ++ [q])).
Proof.
  unfold Main.calculatePolygonArea, polygonOf. cbn [coordinates].
  rewrite !length_app. cbn [List.length].
  do 4 f_equal. apply fold_left_ext_in. intros a i Hi.
  apply in_seq in Hi. apply areaStep_last_vertex. lia.
Qed.

(** X17 -- The area is never negative.  Whatever the polygon, and whatever
    the orientation of its ring, the Number that [calculatePolygonArea]
    returns is not below zero and does not have its sign bit set: it is
    NaN, a positive Number, positive infinity or [+0]. *)
Theorem area_never_negative (geojson : option GeoJSON) :
  (Main.calculatePolygonArea geojson <? 0)%float = false
  /\ get_sign (Main.calculatePolygonArea geojson) = false.
Proof.
  assert (H : SFnonneg (Prim2SF (Main.calculatePolygonArea geojson))).
  { unfold Main.calculatePolygonArea.
    destruct geojson as [[[| coords rest]] |]; cbn [coordinates]; try reflexivity.
    rewrite !mul_spec, div_spec, abs_spec.
    repeat first [apply SFnonneg_mul | apply SFnonneg_div | apply SFnonneg_abs | reflexivity]. }
  split.
  - rewrite ltb_spec. now apply SFnonneg_not_negative.
  - unfold get_sign.
    destruct (is_zero (Main.calculatePolygonArea geojson)) eqn:Z.
    + apply is_zero_spec in Z as [s Hs]. rewrite Hs in H. cbn in H. subst s.
      apply zero_cases in Hs. rewrite Hs. reflexivity.
    + rewrite ltb_spec. now apply SFnonneg_not_negative.
Qed.

(** X18 -- A ring of one repeated point has no area.  For a ring whose
    entries are all the same point, however many, [calculatePolygonArea]
    returns [+0], or NaN when a product of the point's coordinates is not
    finite; it returns nothing else. *)
Theorem area_of_repeated_point (p : Point) (n : nat) :
  Main.calculatePolygonArea (polygonOf (repeat p n)) = zero
  \/ Main.calculatePolygonArea (polygonOf (repeat p n)) = nan.
Proof.
  unfold Main.calculatePolygonArea, polygonOf. cbn [coordinates].
  rewrite repeat_length.
  assert (H : zeroOrNaN
    (fold_left (Main.areaStep (repeat p n)) (seq 0 (n - 1)) 0%float)).
  { assert (G : forall l a, Forall (fun i => (i < n - 1)%nat) l -> zeroOrNaN a ->
                  zeroOrNaN (fold_left (Main.areaStep (repeat p n)) l a)).
    { induction l as [| i l IH]; intros a Hl Ha; [exact Ha |].
      cbn [fold_left]. inversion Hl as [| ? ? Hi Hl']; subst. apply IH; [exact Hl' |].
      unfold Main.areaStep. rewrite repeat_length.
      assert (Hj : ((i + 1) mod (n - 1) < n - 1)%nat) by (apply Nat.mod_upper_bound; lia).
      rewrite !nth_repeat_lt by lia. now apply add_sub_zeroOrNaN. }
    apply G; [| now left].
    apply Forall_forall. intros i Hi. apply in_seq in Hi. lia. }
  destruct H as [-> | [-> | ->]]; [left | left | right]; reflexivity.
Qed.

(** ** The selection highlight *)

Lemma nth_error_setStyleAt k style cells : forall i,
  nth_error (Main.setStyleAt k style cells) i
  = if (i =? k)%nat then option_map (Main.restyle style) (nth_error cells i)
    else nth_error cells i.
Proof.
  revert k. induction cells as [| c cells IH]; intros k i.
  - destruct k, i; cbn; try reflexivity; now destruct (i =? k)%nat.
  - destruct k as [| k], i as [| i]; cbn [Main.setStyleAt nth_error Nat.eqb option_map];
      try reflexivity. apply IH.
Qed.

Lemma length_setStyleAt k style cells :
  List.length (Main.setStyleAt k style cells) = List.length cells.
Proof.
  revert k. induction cells as [| c cells IH]; intros [| k]; cbn; auto.
Qed.

(** The cell at each position after [highlightSelectedCell]. *)
Lemma nth_error_highlight k cells i :
  nth_error (Main.highlightSelectedCell k cells) i
  = option_map
      (Main.restyle (Main.weightStyle (if (i =? k)%nat then 2%float else 0.6%float)))
      (nth_error cells i).
Proof.
  unfold Main.highlightSelectedCell. rewrite nth_error_setStyleAt, nth_error_map.
  destruct (i =? k)%nat; [| reflexivity].
  now destruct (nth_error cells i).
Qed.

(** X19 -- One cell is highlighted.  After [highlightSelectedCell] for the
    polygon of the registered cell at position [k], that cell has weight 2
    and every other registered cell has weight 0.6, whatever their weights
    were; colours, opacities and numbers are as before, and no cell is
    added or removed. *)
Theorem highlight_exclusive (k : nat) (gridCells : list GridCell) (i : nat) (c : GridCell) :
  nth_error gridCells i = Some c ->
  List.length (Main.highlightSelectedCell k gridCells) = List.length gridCells /\
  exists c',
    nth_error (Main.highlightSelectedCell k gridCells) i = Some c' /\
    weight (layer c') = (if (i =? k)%nat then 2%float else 0.6%float) /\
    color (layer c') = color (layer c) /\
    opacity (layer c') = opacity (layer c) /\
    fillColor (layer c') = fillColor (layer c) /\
    fillOpacity (layer c') = fillOpacity (layer c) /\
    number c' = number c.
Proof.
  intros H. split.
  - unfold Main.highlightSelectedCell. now rewrite length_setStyleAt, length_map.
  - eexists. rewrite nth_error_highlight, H. cbn [option_map].
    split; [reflexivity |]. repeat split.
Qed.

Lemma highlight_exclusive_witness :
  List.length (Main.highlightSelectedCell 0 [ Examples.cell1 ])
  = List.length [ Examples.cell1 ] /\
  exists c',
    nth_error (Main.highlightSelectedCell 0 [ Examples.cell1 ]) 0 = Some c' /\
    weight (layer c') = (if (0 =? 0)%nat then 2%float else 0.6%float) /\
    color (layer c') = color (layer Examples.cell1) /\
    opacity (layer c') = opacity (layer Examples.cell1) /\
    fillColor (layer c') = fillColor (layer Examples.cell1) /\
    fillOpacity (layer c') = fillOpacity (layer Examples.cell1) /\
    number c' = number Examples.cell1.
Proof.
  apply (highlight_exclusive 0 [ Examples.cell1 ] 0 Examples.cell1). reflexivity.
Defined.

(** X20 -- A new selection replaces the old one.  Highlighting the cell at
    position [j] after the cell at position [k] leaves the cells exactly as
    highlighting [j] alone does: nothing of the earlier selection remains. *)
Theorem highlight_replaces (j k : nat) (gridCells : list GridCell) :
  Main.highlightSelectedCell j (Main.highlightSelectedCell k gridCells)
  = Main.highlightSelectedCell j gridCells.
Proof.
  apply nth_error_ext. intros i. rewrite !nth_error_highlight.
  now destruct (nth_error gridCells i).
Qed.

(** X21 -- The overlay and the highlight.  When the status overlay is
    applied after a cell was highlighted, the highlighted cell keeps its
    weight 2 exactly if the mapping has no entry for its number; with an
    entry the weight becomes that of the status style, 1.2, 1.0 or 0.8,
    and the highlight is gone. *)
Theorem overlay_after_highlight (mapping : Main.Mapping) (k : nat)
  (gridCells : list GridCell) (c : GridCell) :
  nth_error gridCells k = Some c ->
  exists c',
    nth_error (Main.updateGridStylesFromMapping (Some mapping)
                 (Main.highlightSelectedCell k gridCells)) k = Some c' /\
    match Main.getProperty mapping (number c) with
    | None => weight (layer c') = 2%float
    | Some m =>
        weight (layer c') <> 2%float /\
        (weight (layer c') = 1.2%float \/ weight (layer c') = 1.0%float
         \/ weight (layer c') = 0.8%float)
    end.
Proof.
  intros H. eexists.
  cbn [Main.updateGridStylesFromMapping].
  rewrite nth_error_map, nth_error_highlight, H, Nat.eqb_refl. cbn [option_map].
  split; [reflexivity |].
  change (number (Main.restyle ?st c)) with (number c).
  destruct (Main.getProperty mapping (number c)) as [m |]; [| reflexivity].
  unfold Main.styleOf.
  destruct (Main.status m =? "critical")%string;
    [| destruct (Main.status m =? "warn")%string];
    (split; [apply float_neq; vm_compute; discriminate | cbn; auto]).
Qed.

Lemma overlay_after_highlight_witness :
  exists c',
    nth_error (Main.updateGridStylesFromMapping (Some Examples.dryMapping)
                 (Main.highlightSelectedCell 0 [ Examples.cell1 ])) 0 = Some c' /\
    match Main.getProperty Examples.dryMapping (number Examples.cell1) with
    | None => weight (layer c') = 2%float
    | Some m =>
        weight (layer c') <> 2%float /\
        (weight (layer c') = 1.2%float \/ weight (layer c') = 1.0%float
         \/ weight (layer c') = 0.8%float)
    end.
Proof.
  apply (overlay_after_highlight Examples.dryMapping 0 [ Examples.cell1 ] Examples.cell1).
  reflexivity.
Defined.

(** X22 -- Clearing the overlay keeps weight and fill colour.  When the
    overlay is applied with a mapping and then with an empty mapping, every
    cell gets back the default outline colour and a fill opacity of 0, but
    its weight and its fill colour stay as the first mapping left them:
    the default style names neither. *)
Theorem overlay_reset_keeps_weight (mapping : Main.Mapping) (gridCells : list GridCell)
  (i : nat) (c : GridCell) :
  nth_error (Main.updateGridStylesFromMapping (Some mapping) gridCells) i = Some c ->
  exists c',
    nth_error (Main.updateGridStylesFromMapping (Some [])
                 (Main.updateGridStylesFromMapping (Some mapping) gridCells)) i = Some c' /\
    color (layer c') = "#94a3b8"%string /\
    fillOpacity (layer c') = 0.0%float /\
    weight (layer c') = weight (layer c) /\
    fillColor (layer c') = fillColor (layer c) /\
    opacity (layer c') = opacity (layer c) /\
    number c' = number c.
Proof.
  intros H. eexists. split.
  - cbn [Main.updateGridStylesFromMapping] in *.
    rewrite nth_error_map, H. cbn [option_map Main.getProperty Main.styleOf].
    reflexivity.
  - repeat split.
Qed.

Lemma overlay_reset_keeps_weight_witness :
  exists c',
    nth_error (Main.updateGridStylesFromMapping (Some [])
                 (Main.updateGridStylesFromMapping (Some Examples.dryMapping)
                    [ Examples.cell1 ])) 0 = Some c' /\
    color (layer c') = "#94a3b8"%string /\
    fillOpacity (layer c') = 0.0%float /\
    weight (layer c') = weight (layer (Main.restyle Main.criticalStyle Examples.cell1)) /\
    fillColor (layer c') = fillColor (layer (Main.restyle Main.criticalStyle Examples.cell1)) /\
    opacity (layer c') = opacity (layer (Main.restyle Main.criticalStyle Examples.cell1)) /\
    number c' = number (Main.restyle Main.criticalStyle Examples.cell1).
Proof.
  apply (overlay_reset_keeps_weight Examples.dryMapping [ Examples.cell1 ] 0
           (Main.restyle Main.criticalStyle Examples.cell1)).
  vm_compute; reflexivity.
Defined.

(** ** Telemetry *)

(** X23 -- A drier reading is never classified milder.  For two moisture
    Numbers with [m1 <= m2], the status computed for [m1] is at least as
    severe as the one for [m2]: if [m2] is critical so is [m1]; if [m2] is
    a warning, [m1] is a warning or critical; and if [m1] is ok so is
    [m2]. *)
Theorem status_monotone (m1 m2 : float) :
  (m1 <=? m2)%float = true ->
  (Main.statusOf m2 = "critical"%string -> Main.statusOf m1 = "critical"%string) /\
  (Main.statusOf m2 = "warn"%string ->
   Main.statusOf m1 = "critical"%string \/ Main.statusOf m1 = "warn"%string) /\
  (Main.statusOf m1 = "ok"%string -> Main.statusOf m2 = "ok"%string).
Proof.
  intros H.
  assert (N1 : is_nan m1 = false) by (now apply (leb_key 0) in H).
  assert (N2 : is_nan m2 = false) by (now apply (leb_key 0) in H).
  unfold Main.statusOf, JS.isNaN. rewrite N1, N2. cbn [negb].
  destruct (m2 <? 30)%float eqn:E30.
  { rewrite (leb_ltb_trans _ _ _ H E30). repeat split; intros; try discriminate; auto. }
  destruct (m2 <? 40)%float eqn:E40.
  { rewrite (leb_ltb_trans _ _ _ H E40).
    destruct (m1 <? 30)%float; repeat split; intros; try discriminate; auto. }
  destruct (m1 <? 30)%float; [repeat split; intros; try discriminate; auto |].
  destruct (m1 <? 40)%float; repeat split; intros; try discriminate; auto.
Qed.

Lemma status_monotone_witness :
  (Main.statusOf 35 = "critical"%string -> Main.statusOf 25 = "critical"%string) /\
  (Main.statusOf 35 = "warn"%string ->
   Main.statusOf 25 = "critical"%string \/ Main.statusOf 25 = "warn"%string) /\
  (Main.statusOf 25 = "ok"%string -> Main.statusOf 35 = "ok"%string).
Proof.
  apply (status_monotone 25 35). vm_compute; reflexivity.
Defined.

Lemma sameKey_nan k n :
  is_nan k = true -> is_nan n = false -> Main.sameKey k n = false.
Proof.
  intros H N. unfold Main.sameKey. rewrite N, andb_false_r, orb_false_r.
  destruct (k =? n)%float eqn:E; [| reflexivity].
  rewrite eqb_spec in E. apply is_nan_Prim2SF in H. rewrite H in E. discriminate.
Qed.

Lemma getProperty_app m1 m2 key :
  Main.getProperty (m1 ++ m2) key
  = match Main.getProperty m1 key with
    | Some m => Some m
    | None => Main.getProperty m2 key
    end.
Proof.
  induction m1 as [| [k m] m1 IH]; [reflexivity |].
  cbn [app Main.getProperty]. now destruct (Main.sameKey k key).
Qed.

(** X24 -- An entry with a non-numeric key styles no cell.  A key of
    [snapshot.cells] that [Number] turns into NaN is stored under the
    property "NaN" of the mapping, which no cell reads unless its own number
    is NaN: when no registered cell is numbered NaN, ingesting the snapshot
    with or without that entry leaves the cells alike, wherever the entry
    stands. *)
Theorem non_numeric_key_ignored (parse_rest : string -> float)
  (before after : list (string * Main.JsValue)) (key : string) (cell : Main.JsValue)
  (gridCells : list GridCell) :
  JS.isNaN (Main.StringToNumber parse_rest key) = true ->
  Forall (fun c => JS.isNaN (number c) = false) gridCells ->
  Main.ingestGridDataFromRTDB parse_rest
    (Some {| Main.cells := Some (before ++ (key, cell) :: after) |}) gridCells
  = Main.ingestGridDataFromRTDB parse_rest
      (Some {| Main.cells := Some (before ++ after) |}) gridCells.
Proof.
  intros Hkey Hnum.
  cbn [Main.ingestGridDataFromRTDB Main.cells Main.updateGridStylesFromMapping].
  apply map_ext_in. intros c Hc. do 2 f_equal.
  rewrite Forall_forall in Hnum. specialize (Hnum c Hc).
  rewrite !buildMapping_rev, !rev_app_distr. cbn [rev].
  rewrite <- !app_assoc, !map_app, !getProperty_app. cbn [map app Main.getProperty fst].
  now rewrite (sameKey_nan _ _ Hkey Hnum).
Qed.

Lemma non_numeric_key_ignored_witness :
  Main.ingestGridDataFromRTDB (fun _ => nan)
    (Some {| Main.cells :=
               Some ([ ("1"%string,
                        Main.JsObject [ ("moisture"%string, Main.JsNumber 20) ]) ]
                     ++ ("west"%string,
                         Main.JsObject [ ("moisture"%string, Main.JsNumber 55) ])
                     :: []) |})
    (cellsOf (generateFieldGrid MainJs Examples.unusedCos (polygonOf Examples.triangle)))
  = Main.ingestGridDataFromRTDB (fun _ => nan)
      (Some {| Main.cells :=
                 Some ([ ("1"%string,
                          Main.JsObject [ ("moisture"%string, Main.JsNumber 20) ]) ]
                       ++ []) |})
      (cellsOf (generateFieldGrid MainJs Examples.unusedCos (polygonOf Examples.triangle))).
Proof.
  apply (non_numeric_key_ignored (fun _ => nan)).
  - vm_compute; reflexivity.
  - vm_compute; repeat constructor.
Defined.

(** ** Metric paths *)

Section MetricFacts.

Variable Value : Type.
Variable undefined : Value.
Variable isUndefined : Value -> bool.
Variable ToBoolean : Value -> bool.
Variable Get : Value -> string -> Value.

Lemma split_nonempty sep s : Mobile.split sep s <> [].
Proof.
  destruct s as [| c rest]; cbn [Mobile.split]; [discriminate |].
  destruct (Ascii.eqb c sep); [discriminate |].
  destruct (Mobile.split sep rest); discriminate.
Qed.

(** Splitting at a separator that joins two strings. *)
Lemma split_append sep p q :
  Mobile.split sep (p ++ String sep q) = Mobile.split sep p ++ Mobile.split sep q.
Proof.
  induction p as [| c p IH]; cbn [append Mobile.split].
  - now rewrite Ascii.eqb_refl.
  - destruct (Ascii.eqb c sep); [now rewrite IH |].
    rewrite IH. pose proof (split_nonempty sep p) as N.
    destruct (Mobile.split sep p); [congruence | reflexivity].
Qed.

(** From a falsy value on, every step gives [undefined]. *)
Lemma fold_metricStep_falsy keys : forall acc,
  ToBoolean undefined = false -> ToBoolean acc = false -> keys <> [] ->
  fold_left (Mobile.metricStep undefined isUndefined ToBoolean Get) keys acc = undefined.
Proof.
  induction keys as [| key keys IH]; intros acc Hu Ha N; [congruence |].
  cbn [fold_left]. unfold Mobile.metricStep at 2. rewrite Ha. cbn [andb].
  destruct keys as [| key' keys]; [reflexivity |].
  apply IH; [assumption | assumption | discriminate].
Qed.

End MetricFacts.

(** X25 -- Paths compose.  Reading the path [p.q] from an object is
    reading [q] from what [p] gives:
    [getMetricValue(obj, p + "." + q)] is
    [getMetricValue(getMetricValue(obj, p), q)], for all strings [p] and
    [q], with or without further dots in them. *)
Theorem metric_path_composes (Value : Type) (undefined : Value)
  (isUndefined ToBoolean : Value -> bool) (Get : Value -> string -> Value)
  (obj : Value) (p q : string) :
  Mobile.getMetricValue undefined isUndefined ToBoolean Get obj (p ++ "." ++ q)
  = Mobile.getMetricValue undefined isUndefined ToBoolean Get
      (Mobile.getMetricValue undefined isUndefined ToBoolean Get obj p) q.
Proof.
  unfold Mobile.getMetricValue.
  change ("." ++ q)%string with (String "." q).
  now rewrite split_append, fold_left_app.
Qed.

(** X26 -- A missing key gives [undefined].  If the value at the path [p]
    is falsy -- [undefined] because a key is missing, or [null], 0, NaN,
    the empty string or [false] -- then the value at every longer path
    [p.q] is [undefined]: [getMetricValue] reads no property of a falsy
    value, so it does not throw there. *)
Theorem metric_path_missing_key (Value : Type) (undefined : Value)
  (isUndefined ToBoolean : Value -> bool) (Get : Value -> string -> Value)
  (obj : Value) (p q : string) :
  ToBoolean undefined = false ->
  ToBoolean (Mobile.getMetricValue undefined isUndefined ToBoolean Get obj p) = false ->
  Mobile.getMetricValue undefined isUndefined ToBoolean Get obj (p ++ "." ++ q)
  = undefined.
Proof.
  intros Hu Hp. unfold Mobile.getMetricValue in *.
  change ("." ++ q)%string with (String "." q).
  rewrite split_append, fold_left_app.
  apply fold_metricStep_falsy; [assumption | assumption | apply split_nonempty].
Qed.

Lemma metric_path_missing_key_witness :
  Mobile.getMetricValue Main.JsUndefined Mobile.isUndefined Mobile.ToBoolean
    (Mobile.property Examples.unusedBuiltin) Examples.reading ("soil" ++ "." ++ "moisture")
  = Main.JsUndefined.
Proof.
  apply (metric_path_missing_key Main.JsValue Main.JsUndefined Mobile.isUndefined
           Mobile.ToBoolean (Mobile.property Examples.unusedBuiltin)).
  - reflexivity.
  - reflexivity.
Defined.

(** ** Navigation *)

Lemma nth_activate i items : forall j,
  nth j (Mobile.activate i items) false
  = if (j =? i)%nat && (j <? List.length items)%nat then true else nth j items false.
Proof.
  revert i. induction items as [| b items IH]; intros i j.
  - destruct i, j; cbn; try reflexivity; now rewrite andb_false_r.
  - destruct i as [| i], j as [| j]; cbn [Mobile.activate nth Nat.eqb List.length andb];
      try reflexivity.
    rewrite IH. reflexivity.
Qed.

Lemma length_activate i items :
  List.length (Mobile.activate i items) = List.length items.
Proof.
  revert i. induction items as [| b items IH]; intros [| i]; cbn; auto.
Qed.

Lemma nth_cleared (items : list bool) j : nth j (map (fun _ => false) items) false = false.
Proof.
  revert j. induction items as [| b items IH]; intros [| j]; cbn; auto.
Qed.

Lemma nth_updateNavigation activeScreen navItems j :
  nth j (Mobile.updateNavigation activeScreen navItems) false = true <->
  (j < List.length navItems)%nat /\ Mobile.navIndex activeScreen = Some j.
Proof.
  unfold Mobile.updateNavigation.
  destruct (Mobile.navIndex activeScreen) as [i |].
  - rewrite nth_activate, nth_cleared, length_map.
    destruct (j =? i)%nat eqn:E; cbn [andb].
    + apply Nat.eqb_eq in E. subst i.
      destruct (j <? List.length navItems)%nat eqn:L.
      * apply Nat.ltb_lt in L. tauto.
      * apply Nat.ltb_ge in L. split; [discriminate | lia].
    + apply Nat.eqb_neq in E. split; [discriminate |]. intros [_ H]. congruence.
  - rewrite nth_cleared. split; [discriminate | intros [_ H]; discriminate].
Qed.

(** X27 -- At most one navigation item is active.  After
    [updateNavigation] the item at position [i] is active exactly if [i]
    is the index that [navMap] gives the screen -- 0 for [home], 1 for
    [crop-health], 2 for [profile] -- and there is such an item; so no two
    items are active, none is for any other screen, and no item is added
    or removed. *)
Theorem navigation_one_active (activeScreen : string) (navItems : list bool) :
  List.length (Mobile.updateNavigation activeScreen navItems) = List.length navItems /\
  (forall i,
     nth i (Mobile.updateNavigation activeScreen navItems) false = true <->
     (i < List.length navItems)%nat /\ Mobile.navIndex activeScreen = Some i) /\
  (forall i j,
     nth i (Mobile.updateNavigation activeScreen navItems) false = true ->
     nth j (Mobile.updateNavigation activeScreen navItems) false = true ->
     i = j).
Proof.
  split; [| split].
  - unfold Mobile.updateNavigation.
    destruct (Mobile.navIndex activeScreen); now rewrite ?length_activate, length_map.
  - intros i. apply nth_updateNavigation.
  - intros i j Hi Hj. apply nth_updateNavigation in Hi as [_ Hi], Hj as [_ Hj].
    congruence.
Qed.

(** ** The cell as a polygon *)


(** X28 -- A cell is a half-open box.  For a cell with
    [cellLat1 <= cellLat2] and [cellLng1 <= cellLng2] and finite longitudes,
    and a point whose latitude differs from both cell latitudes by a finite
    amount, [isPointInPolygon] of [main.js] on the ring that
    [generateFieldGrid] builds for the cell answers [true] exactly when
    [cellLat1 <= lat < cellLat2] and [cellLng1 <= lng < cellLng2]: the cell
    owns its southern and western edges and not its northern and eastern
    ones.  This is the test [isPolygonWithinField] applies to the centre of
    the field. *)
Theorem point_in_cell (cellLat1 cellLng1 cellLat2 cellLng2 x y : float) :
  (cellLat1 <=? cellLat2)%float = true -> (cellLng1 <=? cellLng2)%float = true ->
  finite cellLng1 = true -> finite cellLng2 = true ->
  finite (y - cellLat1)%float = true -> finite (y - cellLat2)%float = true ->
  Main.isPointInPolygon (x, y) (Main.cellCoordsLngLat cellLat1 cellLng1 cellLat2 cellLng2)
  = ((cellLat1 <=? y)%float && (y <? cellLat2)%float)
    && ((cellLng1 <=? x)%float && (x <? cellLng2)%float).
Proof.
  intros Hlat Hlng F1 F2 Fy1 Fy2.
  assert (N1 : is_nan cellLat1 = false) by (now apply (leb_key 0) in Hlat).
  assert (N2 : is_nan cellLat2 = false) by (now apply (leb_key 0) in Hlat).
  assert (Ny : is_nan y = false).
  { destruct (is_nan y) eqn:E; [exfalso | reflexivity]. apply is_nan_eq in E. subst y.
    apply finite_not_nan, is_nan_false in Fy1. apply Fy1.
    rewrite sub_spec. reflexivity. }
  unfold Main.isPointInPolygon, rayCast, Main.cellCoordsLngLat.
  cbn [last rayLoop fst snd].
  rewrite (crosses_horizontal x y cellLng1 cellLng1 cellLat1).
  rewrite (crosses_vertical x y cellLng1 cellLat2 cellLat1) by assumption.
  rewrite (crosses_horizontal x y cellLng2 cellLng1 cellLat2).
  rewrite (crosses_vertical x y cellLng2 cellLat1 cellLat2) by assumption.
  rewrite (crosses_horizontal x y cellLng1 cellLng2 cellLat1).
  rewrite (leb_negb_ltb cellLat1 y) by assumption.
  destruct (y <? cellLat1)%float eqn:Y1.
  - rewrite (ltb_leb_trans _ _ _ Y1 Hlat). reflexivity.
  - destruct (y <? cellLat2)%float eqn:Y2; cbn [xorb andb negb]; [| reflexivity].
    destruct (x <? cellLng1)%float eqn:X1.
    + rewrite (ltb_leb_trans _ _ _ X1 Hlng). cbn.
      destruct (cellLng1 <=? x)%float eqn:E; [| reflexivity].
      apply (leb_key 0) in E as (_ & _ & E). apply (ltb_key 0) in X1 as (_ & _ & X1). tauto.
    + destruct (x <? cellLng2)%float eqn:X2; cbn; [| now rewrite andb_false_r].
      rewrite andb_true_r. symmetry. apply (leb_key 0).
      apply (ltb_key 0) in X2 as (Nx & _ & _).
      repeat split; try assumption; [now apply finite_not_nan |].
      intros H. assert (E : (x <? cellLng1)%float = true).
      { apply (ltb_key 0). repeat split; try assumption. now apply finite_not_nan. }
      congruence.
Qed.

Lemma point_in_cell_witness :
  Main.isPointInPolygon (0.5, 0.5)%float (Main.cellCoordsLngLat 0 0 1 1)
  = ((0 <=? 0.5)%float && (0.5 <? 1)%float) && ((0 <=? 0.5)%float && (0.5 <? 1)%float).
Proof.
  apply (point_in_cell 0 0 1 1 0.5 0.5); vm_compute; reflexivity.
Defined.
